(** * Karl the Star Vanguard: the simulation engine of [src/App.tsx]

    A shallow embedding of the per-frame [update] function, of the helpers it
    calls ([spawnEnemy], [spawnPowerUp], [createExplosion], [unlockAchievement]),
    of [startGame] and of the handlers behind the menu buttons, followed by the
    properties of the engine.

    Conventions of the embedding.
    - JavaScript numbers that hold counters (lives, score, level, timers,
      coins) are integers of [Z]; positions, speeds and hit points are exact
      rationals of [Q].  The test [Math.sqrt(dx*dx + dy*dy) < r] is written
      [near dx dy r], that is [0 < r] and [dx*dx + dy*dy < r*r].
    - [Array.prototype.forEach] reads the length once, then visits the indices
      [0 .. length-1] in order and skips an index the array no longer has;
      [splice(i, 1)] is stdpp's [delete i].  A callback that removes the
      current element therefore makes the scan step over its successor.
    - [Math.random()] reads the next value of an oracle [rnd]; the number of
      values read so far is the field [draws] of the world.  [Date.now()] is
      read from the environment of the tick.
    - A React state setter called with an updater is applied at once to the
      current value; [level], [score], [isGuardianMode] and [upgrades] as read
      by [update] are the values rendered before the tick.
    - Sounds, the star field and the drawing code have no effect on the state
      modelled here and are left out; the display texts of an achievement are
      left out of its record. *)

From Stdlib Require Import ZArith QArith Qminmax Qround Lia Lqa.
From Stdlib Require Import Ascii String DecimalString DecimalZ.
From stdpp Require Import base gmap strings list.

#[local] Open Scope Z_scope.

(** ** Numbers *)

Definition Qltb (a b : Q) : bool := negb (Qle_bool b a).

(** [Math.sqrt(dx*dx + dy*dy) < r] *)
Definition near (dx dy r : Q) : bool :=
  Qltb 0 r && Qltb (dx * dx + dy * dy) (r * r).

(** [a || 1] on a number that may be absent: [undefined] and [0] give [1]. *)
Definition orOne (a : option Z) : Z :=
  match a with
  | Some v => if v =? 0 then 1 else v
  | None => 1
  end.

(** ** Constants and types *)

Definition CANVAS_WIDTH : Q := 800.
Definition CANVAS_HEIGHT : Q := 600.

Inductive GameState :=
  START | PLAYING | PAUSED | GAMEOVER | UPGRADE | GUARDIAN_RESULT.

Inductive ParticleType := SPARK | SHOCKWAVE | BOSS_EXPLOSION.
Inductive EnemyType := BASIC | FAST | HEAVY | ELITE | BOSS.
Inductive PowerUpType := TRIPLE_SHOT | SHIELD | COIN.

#[global] Instance GameState_eq_dec : EqDecision GameState.
Proof. solve_decision. Defined.
#[global] Instance ParticleType_eq_dec : EqDecision ParticleType.
Proof. solve_decision. Defined.
#[global] Instance EnemyType_eq_dec : EqDecision EnemyType.
Proof. solve_decision. Defined.
#[global] Instance PowerUpType_eq_dec : EqDecision PowerUpType.
Proof. solve_decision. Defined.

Module Achievement.
Record t := mk { id : string; unlocked : bool }.
End Achievement.

Module Particle.
Record t := mk {
  x : Q; y : Q; vx : Q; vy : Q; life : Q; color : string; size : Q;
  type : ParticleType
}.
Definition set_x (v : Q) (r : t) : t :=
  mk v (y r) (vx r) (vy r) (life r) (color r) (size r) (type r).
Definition set_y (v : Q) (r : t) : t :=
  mk (x r) v (vx r) (vy r) (life r) (color r) (size r) (type r).
Definition set_life (v : Q) (r : t) : t :=
  mk (x r) (y r) (vx r) (vy r) v (color r) (size r) (type r).
Definition set_size (v : Q) (r : t) : t :=
  mk (x r) (y r) (vx r) (vy r) (life r) (color r) v (type r).
End Particle.

Module Bullet.
Record t := mk {
  x : Q; y : Q; vx : Q; vy : Q; power : Q; isEnemy : bool
}.
Definition set_x (v : Q) (r : t) : t :=
  mk v (y r) (vx r) (vy r) (power r) (isEnemy r).
Definition set_y (v : Q) (r : t) : t :=
  mk (x r) v (vx r) (vy r) (power r) (isEnemy r).
End Bullet.

Module Enemy.
Record t := mk {
  id : Q; x : Q; y : Q; type : EnemyType; hp : Q; maxHp : Q; speed : Q;
  score : Z; width : Q; height : Q; lastShot : Z;
  phase : option Z; moveDir : option Z
}.
Definition set_x (v : Q) (r : t) : t :=
  mk (id r) v (y r) (type r) (hp r) (maxHp r) (speed r) (score r) (width r) (height r)
    (lastShot r) (phase r) (moveDir r).
Definition set_y (v : Q) (r : t) : t :=
  mk (id r) (x r) v (type r) (hp r) (maxHp r) (speed r) (score r) (width r) (height r)
    (lastShot r) (phase r) (moveDir r).
Definition set_hp (v : Q) (r : t) : t :=
  mk (id r) (x r) (y r) (type r) v (maxHp r) (speed r) (score r) (width r) (height r)
    (lastShot r) (phase r) (moveDir r).
Definition set_lastShot (v : Z) (r : t) : t :=
  mk (id r) (x r) (y r) (type r) (hp r) (maxHp r) (speed r) (score r) (width r) (height r) v
    (phase r) (moveDir r).
Definition set_moveDir (v : option Z) (r : t) : t :=
  mk (id r) (x r) (y r) (type r) (hp r) (maxHp r) (speed r) (score r) (width r) (height r)
    (lastShot r) (phase r) v.
End Enemy.

Module PowerUp.
Record t := mk {
  x : Q; y : Q; type : PowerUpType; width : Q; height : Q; value : Z
}.
Definition set_y (v : Q) (r : t) : t :=
  mk (x r) v (type r) (width r) (height r) (value r).
End PowerUp.

Module Upgrades.
Record t := mk {
  maxLives : Z;
  tripleShotLevel : Z;  (* 0: none, 1: temporary, 2: permanent *)
  fireRate : Z;
  moveSpeed : Z;
  bulletPower : Q;
  armorStrength : Z     (* hits to lose life *)
}.
Definition set_maxLives (v : Z) (r : t) : t :=
  mk v (tripleShotLevel r) (fireRate r) (moveSpeed r) (bulletPower r) (armorStrength r).
Definition set_tripleShotLevel (v : Z) (r : t) : t :=
  mk (maxLives r) v (fireRate r) (moveSpeed r) (bulletPower r) (armorStrength r).
Definition set_fireRate (v : Z) (r : t) : t :=
  mk (maxLives r) (tripleShotLevel r) v (moveSpeed r) (bulletPower r) (armorStrength r).
Definition set_moveSpeed (v : Z) (r : t) : t :=
  mk (maxLives r) (tripleShotLevel r) (fireRate r) v (bulletPower r) (armorStrength r).
Definition set_bulletPower (v : Q) (r : t) : t :=
  mk (maxLives r) (tripleShotLevel r) (fireRate r) (moveSpeed r) v (armorStrength r).
Definition set_armorStrength (v : Z) (r : t) : t :=
  mk (maxLives r) (tripleShotLevel r) (fireRate r) (moveSpeed r) (bulletPower r) v.
End Upgrades.

Module Player.
Record t := mk {
  x : Q; y : Q; width : Q; height : Q; speed : Q;
  invulnerable : Z; shield : bool; tripleShot : Z
}.
Definition set_x (v : Q) (r : t) : t :=
  mk v (y r) (width r) (height r) (speed r) (invulnerable r) (shield r) (tripleShot r).
Definition set_y (v : Q) (r : t) : t :=
  mk (x r) v (width r) (height r) (speed r) (invulnerable r) (shield r) (tripleShot r).
Definition set_invulnerable (v : Z) (r : t) : t :=
  mk (x r) (y r) (width r) (height r) (speed r) v (shield r) (tripleShot r).
Definition set_shield (v : bool) (r : t) : t :=
  mk (x r) (y r) (width r) (height r) (speed r) (invulnerable r) v (tripleShot r).
Definition set_tripleShot (v : Z) (r : t) : t :=
  mk (x r) (y r) (width r) (height r) (speed r) (invulnerable r) (shield r) v.
End Player.

(** The engine object ([engineRef.current]), the React state of the component
    and the count of [Math.random()] calls, in one record. *)
Record World := mkWorld {
  (* engineRef.current *)
  player : Player.t;
  bullets : list Bullet.t;
  enemyBullets : list Bullet.t;
  enemies : list Enemy.t;
  powerUps : list PowerUp.t;
  particles : list Particle.t;
  keys : gmap string bool;
  lastShot : Z;
  enemySpawnTimer : Z;
  powerUpSpawnTimer : Z;
  frameCount : Z;
  startTime : Z;
  enemiesKilled : Z;
  shieldsPicked : Z;
  tripleShotsPicked : Z;
  levelUpPending : bool;
  warningTimer : Z;
  lostLifeThisRun : bool;
  bossActive : bool;
  (* persistent state *)
  totalCoins : Z;
  upgrades : Upgrades.t;
  (* game session state *)
  gameState : GameState;
  isGuardianMode : bool;
  escapedEnemies : Z;
  score : Z;
  sessionCoins : Z;
  lives : Z;
  playerHits : Z;
  level : Z;
  achievements : list Achievement.t;
  unlockedAchievement : option Achievement.t;
  (* Math.random() calls made so far *)
  draws : nat
}.

Definition set_player (v : Player.t) (r : World) : World :=
  mkWorld v (bullets r) (enemyBullets r) (enemies r) (powerUps r) (particles r) (keys r)
    (lastShot r) (enemySpawnTimer r) (powerUpSpawnTimer r) (frameCount r) (startTime r)
    (enemiesKilled r) (shieldsPicked r) (tripleShotsPicked r) (levelUpPending r) (warningTimer
    r) (lostLifeThisRun r) (bossActive r) (totalCoins r) (upgrades r) (gameState r)
    (isGuardianMode r) (escapedEnemies r) (score r) (sessionCoins r) (lives r) (playerHits r)
    (level r) (achievements r) (unlockedAchievement r) (draws r).
Definition set_bullets (v : list Bullet.t) (r : World) : World :=
  mkWorld (player r) v (enemyBullets r) (enemies r) (powerUps r) (particles r) (keys r)
    (lastShot r) (enemySpawnTimer r) (powerUpSpawnTimer r) (frameCount r) (startTime r)
    (enemiesKilled r) (shieldsPicked r) (tripleShotsPicked r) (levelUpPending r) (warningTimer
    r) (lostLifeThisRun r) (bossActive r) (totalCoins r) (upgrades r) (gameState r)
    (isGuardianMode r) (escapedEnemies r) (score r) (sessionCoins r) (lives r) (playerHits r)
    (level r) (achievements r) (unlockedAchievement r) (draws r).
Definition set_enemyBullets (v : list Bullet.t) (r : World) : World :=
  mkWorld (player r) (bullets r) v (enemies r) (powerUps r) (particles r) (keys r) (lastShot r)
    (enemySpawnTimer r) (powerUpSpawnTimer r) (frameCount r) (startTime r) (enemiesKilled r)
    (shieldsPicked r) (tripleShotsPicked r) (levelUpPending r) (warningTimer r) (lostLifeThisRun
    r) (bossActive r) (totalCoins r) (upgrades r) (gameState r) (isGuardianMode r)
    (escapedEnemies r) (score r) (sessionCoins r) (lives r) (playerHits r) (level r)
    (achievements r) (unlockedAchievement r) (draws r).
Definition set_enemies (v : list Enemy.t) (r : World) : World :=
  mkWorld (player r) (bullets r) (enemyBullets r) v (powerUps r) (particles r) (keys r)
    (lastShot r) (enemySpawnTimer r) (powerUpSpawnTimer r) (frameCount r) (startTime r)
    (enemiesKilled r) (shieldsPicked r) (tripleShotsPicked r) (levelUpPending r) (warningTimer
    r) (lostLifeThisRun r) (bossActive r) (totalCoins r) (upgrades r) (gameState r)
    (isGuardianMode r) (escapedEnemies r) (score r) (sessionCoins r) (lives r) (playerHits r)
    (level r) (achievements r) (unlockedAchievement r) (draws r).
Definition set_powerUps (v : list PowerUp.t) (r : World) : World :=
  mkWorld (player r) (bullets r) (enemyBullets r) (enemies r) v (particles r) (keys r) (lastShot
    r) (enemySpawnTimer r) (powerUpSpawnTimer r) (frameCount r) (startTime r) (enemiesKilled r)
    (shieldsPicked r) (tripleShotsPicked r) (levelUpPending r) (warningTimer r) (lostLifeThisRun
    r) (bossActive r) (totalCoins r) (upgrades r) (gameState r) (isGuardianMode r)
    (escapedEnemies r) (score r) (sessionCoins r) (lives r) (playerHits r) (level r)
    (achievements r) (unlockedAchievement r) (draws r).
Definition set_particles (v : list Particle.t) (r : World) : World :=
  mkWorld (player r) (bullets r) (enemyBullets r) (enemies r) (powerUps r) v (keys r) (lastShot
    r) (enemySpawnTimer r) (powerUpSpawnTimer r) (frameCount r) (startTime r) (enemiesKilled r)
    (shieldsPicked r) (tripleShotsPicked r) (levelUpPending r) (warningTimer r) (lostLifeThisRun
    r) (bossActive r) (totalCoins r) (upgrades r) (gameState r) (isGuardianMode r)
    (escapedEnemies r) (score r) (sessionCoins r) (lives r) (playerHits r) (level r)
    (achievements r) (unlockedAchievement r) (draws r).
Definition set_keys (v : gmap string bool) (r : World) : World :=
  mkWorld (player r) (bullets r) (enemyBullets r) (enemies r) (powerUps r) (particles r) v
    (lastShot r) (enemySpawnTimer r) (powerUpSpawnTimer r) (frameCount r) (startTime r)
    (enemiesKilled r) (shieldsPicked r) (tripleShotsPicked r) (levelUpPending r) (warningTimer
    r) (lostLifeThisRun r) (bossActive r) (totalCoins r) (upgrades r) (gameState r)
    (isGuardianMode r) (escapedEnemies r) (score r) (sessionCoins r) (lives r) (playerHits r)
    (level r) (achievements r) (unlockedAchievement r) (draws r).
Definition set_lastShot (v : Z) (r : World) : World :=
  mkWorld (player r) (bullets r) (enemyBullets r) (enemies r) (powerUps r) (particles r) (keys
    r) v (enemySpawnTimer r) (powerUpSpawnTimer r) (frameCount r) (startTime r) (enemiesKilled
    r) (shieldsPicked r) (tripleShotsPicked r) (levelUpPending r) (warningTimer r)
    (lostLifeThisRun r) (bossActive r) (totalCoins r) (upgrades r) (gameState r) (isGuardianMode
    r) (escapedEnemies r) (score r) (sessionCoins r) (lives r) (playerHits r) (level r)
    (achievements r) (unlockedAchievement r) (draws r).
Definition set_enemySpawnTimer (v : Z) (r : World) : World :=
  mkWorld (player r) (bullets r) (enemyBullets r) (enemies r) (powerUps r) (particles r) (keys
    r) (lastShot r) v (powerUpSpawnTimer r) (frameCount r) (startTime r) (enemiesKilled r)
    (shieldsPicked r) (tripleShotsPicked r) (levelUpPending r) (warningTimer r) (lostLifeThisRun
    r) (bossActive r) (totalCoins r) (upgrades r) (gameState r) (isGuardianMode r)
    (escapedEnemies r) (score r) (sessionCoins r) (lives r) (playerHits r) (level r)
    (achievements r) (unlockedAchievement r) (draws r).
Definition set_powerUpSpawnTimer (v : Z) (r : World) : World :=
  mkWorld (player r) (bullets r) (enemyBullets r) (enemies r) (powerUps r) (particles r) (keys
    r) (lastShot r) (enemySpawnTimer r) v (frameCount r) (startTime r) (enemiesKilled r)
    (shieldsPicked r) (tripleShotsPicked r) (levelUpPending r) (warningTimer r) (lostLifeThisRun
    r) (bossActive r) (totalCoins r) (upgrades r) (gameState r) (isGuardianMode r)
    (escapedEnemies r) (score r) (sessionCoins r) (lives r) (playerHits r) (level r)
    (achievements r) (unlockedAchievement r) (draws r).
Definition set_frameCount (v : Z) (r : World) : World :=
  mkWorld (player r) (bullets r) (enemyBullets r) (enemies r) (powerUps r) (particles r) (keys
    r) (lastShot r) (enemySpawnTimer r) (powerUpSpawnTimer r) v (startTime r) (enemiesKilled r)
    (shieldsPicked r) (tripleShotsPicked r) (levelUpPending r) (warningTimer r) (lostLifeThisRun
    r) (bossActive r) (totalCoins r) (upgrades r) (gameState r) (isGuardianMode r)
    (escapedEnemies r) (score r) (sessionCoins r) (lives r) (playerHits r) (level r)
    (achievements r) (unlockedAchievement r) (draws r).
Definition set_startTime (v : Z) (r : World) : World :=
  mkWorld (player r) (bullets r) (enemyBullets r) (enemies r) (powerUps r) (particles r) (keys
    r) (lastShot r) (enemySpawnTimer r) (powerUpSpawnTimer r) (frameCount r) v (enemiesKilled r)
    (shieldsPicked r) (tripleShotsPicked r) (levelUpPending r) (warningTimer r) (lostLifeThisRun
    r) (bossActive r) (totalCoins r) (upgrades r) (gameState r) (isGuardianMode r)
    (escapedEnemies r) (score r) (sessionCoins r) (lives r) (playerHits r) (level r)
    (achievements r) (unlockedAchievement r) (draws r).
Definition set_enemiesKilled (v : Z) (r : World) : World :=
  mkWorld (player r) (bullets r) (enemyBullets r) (enemies r) (powerUps r) (particles r) (keys
    r) (lastShot r) (enemySpawnTimer r) (powerUpSpawnTimer r) (frameCount r) (startTime r) v
    (shieldsPicked r) (tripleShotsPicked r) (levelUpPending r) (warningTimer r) (lostLifeThisRun
    r) (bossActive r) (totalCoins r) (upgrades r) (gameState r) (isGuardianMode r)
    (escapedEnemies r) (score r) (sessionCoins r) (lives r) (playerHits r) (level r)
    (achievements r) (unlockedAchievement r) (draws r).
Definition set_shieldsPicked (v : Z) (r : World) : World :=
  mkWorld (player r) (bullets r) (enemyBullets r) (enemies r) (powerUps r) (particles r) (keys
    r) (lastShot r) (enemySpawnTimer r) (powerUpSpawnTimer r) (frameCount r) (startTime r)
    (enemiesKilled r) v (tripleShotsPicked r) (levelUpPending r) (warningTimer r)
    (lostLifeThisRun r) (bossActive r) (totalCoins r) (upgrades r) (gameState r) (isGuardianMode
    r) (escapedEnemies r) (score r) (sessionCoins r) (lives r) (playerHits r) (level r)
    (achievements r) (unlockedAchievement r) (draws r).
Definition set_tripleShotsPicked (v : Z) (r : World) : World :=
  mkWorld (player r) (bullets r) (enemyBullets r) (enemies r) (powerUps r) (particles r) (keys
    r) (lastShot r) (enemySpawnTimer r) (powerUpSpawnTimer r) (frameCount r) (startTime r)
    (enemiesKilled r) (shieldsPicked r) v (levelUpPending r) (warningTimer r) (lostLifeThisRun
    r) (bossActive r) (totalCoins r) (upgrades r) (gameState r) (isGuardianMode r)
    (escapedEnemies r) (score r) (sessionCoins r) (lives r) (playerHits r) (level r)
    (achievements r) (unlockedAchievement r) (draws r).
Definition set_levelUpPending (v : bool) (r : World) : World :=
  mkWorld (player r) (bullets r) (enemyBullets r) (enemies r) (powerUps r) (particles r) (keys
    r) (lastShot r) (enemySpawnTimer r) (powerUpSpawnTimer r) (frameCount r) (startTime r)
    (enemiesKilled r) (shieldsPicked r) (tripleShotsPicked r) v (warningTimer r)
    (lostLifeThisRun r) (bossActive r) (totalCoins r) (upgrades r) (gameState r) (isGuardianMode
    r) (escapedEnemies r) (score r) (sessionCoins r) (lives r) (playerHits r) (level r)
    (achievements r) (unlockedAchievement r) (draws r).
Definition set_warningTimer (v : Z) (r : World) : World :=
  mkWorld (player r) (bullets r) (enemyBullets r) (enemies r) (powerUps r) (particles r) (keys
    r) (lastShot r) (enemySpawnTimer r) (powerUpSpawnTimer r) (frameCount r) (startTime r)
    (enemiesKilled r) (shieldsPicked r) (tripleShotsPicked r) (levelUpPending r) v
    (lostLifeThisRun r) (bossActive r) (totalCoins r) (upgrades r) (gameState r) (isGuardianMode
    r) (escapedEnemies r) (score r) (sessionCoins r) (lives r) (playerHits r) (level r)
    (achievements r) (unlockedAchievement r) (draws r).
Definition set_lostLifeThisRun (v : bool) (r : World) : World :=
  mkWorld (player r) (bullets r) (enemyBullets r) (enemies r) (powerUps r) (particles r) (keys
    r) (lastShot r) (enemySpawnTimer r) (powerUpSpawnTimer r) (frameCount r) (startTime r)
    (enemiesKilled r) (shieldsPicked r) (tripleShotsPicked r) (levelUpPending r) (warningTimer
    r) v (bossActive r) (totalCoins r) (upgrades r) (gameState r) (isGuardianMode r)
    (escapedEnemies r) (score r) (sessionCoins r) (lives r) (playerHits r) (level r)
    (achievements r) (unlockedAchievement r) (draws r).
Definition set_bossActive (v : bool) (r : World) : World :=
  mkWorld (player r) (bullets r) (enemyBullets r) (enemies r) (powerUps r) (particles r) (keys
    r) (lastShot r) (enemySpawnTimer r) (powerUpSpawnTimer r) (frameCount r) (startTime r)
    (enemiesKilled r) (shieldsPicked r) (tripleShotsPicked r) (levelUpPending r) (warningTimer
    r) (lostLifeThisRun r) v (totalCoins r) (upgrades r) (gameState r) (isGuardianMode r)
    (escapedEnemies r) (score r) (sessionCoins r) (lives r) (playerHits r) (level r)
    (achievements r) (unlockedAchievement r) (draws r).
Definition set_totalCoins (v : Z) (r : World) : World :=
  mkWorld (player r) (bullets r) (enemyBullets r) (enemies r) (powerUps r) (particles r) (keys
    r) (lastShot r) (enemySpawnTimer r) (powerUpSpawnTimer r) (frameCount r) (startTime r)
    (enemiesKilled r) (shieldsPicked r) (tripleShotsPicked r) (levelUpPending r) (warningTimer
    r) (lostLifeThisRun r) (bossActive r) v (upgrades r) (gameState r) (isGuardianMode r)
    (escapedEnemies r) (score r) (sessionCoins r) (lives r) (playerHits r) (level r)
    (achievements r) (unlockedAchievement r) (draws r).
Definition set_upgrades (v : Upgrades.t) (r : World) : World :=
  mkWorld (player r) (bullets r) (enemyBullets r) (enemies r) (powerUps r) (particles r) (keys
    r) (lastShot r) (enemySpawnTimer r) (powerUpSpawnTimer r) (frameCount r) (startTime r)
    (enemiesKilled r) (shieldsPicked r) (tripleShotsPicked r) (levelUpPending r) (warningTimer
    r) (lostLifeThisRun r) (bossActive r) (totalCoins r) v (gameState r) (isGuardianMode r)
    (escapedEnemies r) (score r) (sessionCoins r) (lives r) (playerHits r) (level r)
    (achievements r) (unlockedAchievement r) (draws r).
Definition set_gameState (v : GameState) (r : World) : World :=
  mkWorld (player r) (bullets r) (enemyBullets r) (enemies r) (powerUps r) (particles r) (keys
    r) (lastShot r) (enemySpawnTimer r) (powerUpSpawnTimer r) (frameCount r) (startTime r)
    (enemiesKilled r) (shieldsPicked r) (tripleShotsPicked r) (levelUpPending r) (warningTimer
    r) (lostLifeThisRun r) (bossActive r) (totalCoins r) (upgrades r) v (isGuardianMode r)
    (escapedEnemies r) (score r) (sessionCoins r) (lives r) (playerHits r) (level r)
    (achievements r) (unlockedAchievement r) (draws r).
Definition set_isGuardianMode (v : bool) (r : World) : World :=
  mkWorld (player r) (bullets r) (enemyBullets r) (enemies r) (powerUps r) (particles r) (keys
    r) (lastShot r) (enemySpawnTimer r) (powerUpSpawnTimer r) (frameCount r) (startTime r)
    (enemiesKilled r) (shieldsPicked r) (tripleShotsPicked r) (levelUpPending r) (warningTimer
    r) (lostLifeThisRun r) (bossActive r) (totalCoins r) (upgrades r) (gameState r) v
    (escapedEnemies r) (score r) (sessionCoins r) (lives r) (playerHits r) (level r)
    (achievements r) (unlockedAchievement r) (draws r).
Definition set_escapedEnemies (v : Z) (r : World) : World :=
  mkWorld (player r) (bullets r) (enemyBullets r) (enemies r) (powerUps r) (particles r) (keys
    r) (lastShot r) (enemySpawnTimer r) (powerUpSpawnTimer r) (frameCount r) (startTime r)
    (enemiesKilled r) (shieldsPicked r) (tripleShotsPicked r) (levelUpPending r) (warningTimer
    r) (lostLifeThisRun r) (bossActive r) (totalCoins r) (upgrades r) (gameState r)
    (isGuardianMode r) v (score r) (sessionCoins r) (lives r) (playerHits r) (level r)
    (achievements r) (unlockedAchievement r) (draws r).
Definition set_score (v : Z) (r : World) : World :=
  mkWorld (player r) (bullets r) (enemyBullets r) (enemies r) (powerUps r) (particles r) (keys
    r) (lastShot r) (enemySpawnTimer r) (powerUpSpawnTimer r) (frameCount r) (startTime r)
    (enemiesKilled r) (shieldsPicked r) (tripleShotsPicked r) (levelUpPending r) (warningTimer
    r) (lostLifeThisRun r) (bossActive r) (totalCoins r) (upgrades r) (gameState r)
    (isGuardianMode r) (escapedEnemies r) v (sessionCoins r) (lives r) (playerHits r) (level r)
    (achievements r) (unlockedAchievement r) (draws r).
Definition set_sessionCoins (v : Z) (r : World) : World :=
  mkWorld (player r) (bullets r) (enemyBullets r) (enemies r) (powerUps r) (particles r) (keys
    r) (lastShot r) (enemySpawnTimer r) (powerUpSpawnTimer r) (frameCount r) (startTime r)
    (enemiesKilled r) (shieldsPicked r) (tripleShotsPicked r) (levelUpPending r) (warningTimer
    r) (lostLifeThisRun r) (bossActive r) (totalCoins r) (upgrades r) (gameState r)
    (isGuardianMode r) (escapedEnemies r) (score r) v (lives r) (playerHits r) (level r)
    (achievements r) (unlockedAchievement r) (draws r).
Definition set_lives (v : Z) (r : World) : World :=
  mkWorld (player r) (bullets r) (enemyBullets r) (enemies r) (powerUps r) (particles r) (keys
    r) (lastShot r) (enemySpawnTimer r) (powerUpSpawnTimer r) (frameCount r) (startTime r)
    (enemiesKilled r) (shieldsPicked r) (tripleShotsPicked r) (levelUpPending r) (warningTimer
    r) (lostLifeThisRun r) (bossActive r) (totalCoins r) (upgrades r) (gameState r)
    (isGuardianMode r) (escapedEnemies r) (score r) (sessionCoins r) v (playerHits r) (level r)
    (achievements r) (unlockedAchievement r) (draws r).
Definition set_playerHits (v : Z) (r : World) : World :=
  mkWorld (player r) (bullets r) (enemyBullets r) (enemies r) (powerUps r) (particles r) (keys
    r) (lastShot r) (enemySpawnTimer r) (powerUpSpawnTimer r) (frameCount r) (startTime r)
    (enemiesKilled r) (shieldsPicked r) (tripleShotsPicked r) (levelUpPending r) (warningTimer
    r) (lostLifeThisRun r) (bossActive r) (totalCoins r) (upgrades r) (gameState r)
    (isGuardianMode r) (escapedEnemies r) (score r) (sessionCoins r) (lives r) v (level r)
    (achievements r) (unlockedAchievement r) (draws r).
Definition set_level (v : Z) (r : World) : World :=
  mkWorld (player r) (bullets r) (enemyBullets r) (enemies r) (powerUps r) (particles r) (keys
    r) (lastShot r) (enemySpawnTimer r) (powerUpSpawnTimer r) (frameCount r) (startTime r)
    (enemiesKilled r) (shieldsPicked r) (tripleShotsPicked r) (levelUpPending r) (warningTimer
    r) (lostLifeThisRun r) (bossActive r) (totalCoins r) (upgrades r) (gameState r)
    (isGuardianMode r) (escapedEnemies r) (score r) (sessionCoins r) (lives r) (playerHits r) v
    (achievements r) (unlockedAchievement r) (draws r).
Definition set_achievements (v : list Achievement.t) (r : World) : World :=
  mkWorld (player r) (bullets r) (enemyBullets r) (enemies r) (powerUps r) (particles r) (keys
    r) (lastShot r) (enemySpawnTimer r) (powerUpSpawnTimer r) (frameCount r) (startTime r)
    (enemiesKilled r) (shieldsPicked r) (tripleShotsPicked r) (levelUpPending r) (warningTimer
    r) (lostLifeThisRun r) (bossActive r) (totalCoins r) (upgrades r) (gameState r)
    (isGuardianMode r) (escapedEnemies r) (score r) (sessionCoins r) (lives r) (playerHits r)
    (level r) v (unlockedAchievement r) (draws r).
Definition set_unlockedAchievement (v : option Achievement.t) (r : World) : World :=
  mkWorld (player r) (bullets r) (enemyBullets r) (enemies r) (powerUps r) (particles r) (keys
    r) (lastShot r) (enemySpawnTimer r) (powerUpSpawnTimer r) (frameCount r) (startTime r)
    (enemiesKilled r) (shieldsPicked r) (tripleShotsPicked r) (levelUpPending r) (warningTimer
    r) (lostLifeThisRun r) (bossActive r) (totalCoins r) (upgrades r) (gameState r)
    (isGuardianMode r) (escapedEnemies r) (score r) (sessionCoins r) (lives r) (playerHits r)
    (level r) (achievements r) v (draws r).
Definition set_draws (v : nat) (r : World) : World :=
  mkWorld (player r) (bullets r) (enemyBullets r) (enemies r) (powerUps r) (particles r) (keys
    r) (lastShot r) (enemySpawnTimer r) (powerUpSpawnTimer r) (frameCount r) (startTime r)
    (enemiesKilled r) (shieldsPicked r) (tripleShotsPicked r) (levelUpPending r) (warningTimer
    r) (lostLifeThisRun r) (bossActive r) (totalCoins r) (upgrades r) (gameState r)
    (isGuardianMode r) (escapedEnemies r) (score r) (sessionCoins r) (lives r) (playerHits r)
    (level r) (achievements r) (unlockedAchievement r) v.

(** ** The environment of a tick *)

Record Env := mkEnv {
  rnd : nat -> Q;   (* the values returned by Math.random(), in call order *)
  now : Z;          (* Date.now() at the top of update *)
  spawnNow : Z;     (* Date.now() inside spawnEnemy *)
  endNow : Z        (* Date.now() of the survivor check *)
}.

(** ** Array.prototype.forEach over an array held in the state *)

Section ForEach.
Context {A S : Type}.
Variable arr : S -> list A.
Variable f : A -> nat -> S -> S.

Definition visit (s : S) (k : nat) : S :=
  match arr s !! k with
  | Some a => f a k s
  | None => s
  end.

Definition forEach (s : S) : S :=
  fold_left visit (seq 0 (length (arr s))) s.
End ForEach.

(** ** Helper functions *)

Definition random (env : Env) (w : World) : Q * World :=
  (rnd env (draws w), set_draws (S (draws w)) w).

Definition randomRange (env : Env) (min max : Q) (w : World) : Q * World :=
  let '(r, w) := random env w in ((r * (max - min) + min)%Q, w).

Definition key (code : string) (w : World) : bool :=
  default false (keys w !! code).

Definition unlockAchievement (id : string) (w : World) : World :=
  match list_find (fun a => Achievement.id a = id) (achievements w) with
  | Some (index, a) =>
      if Achievement.unlocked a then w
      else
        let a' := Achievement.mk (Achievement.id a) true in
        let w := set_unlockedAchievement (Some a') w in
        set_achievements (<[index := a']> (achievements w)) w
  | None => w
  end.

Fixpoint pushSparks (env : Env) (x y : Q) (color : string) (count : nat)
    (w : World) : World :=
  match count with
  | O => w
  | S n =>
      let '(vx, w) := randomRange env (-5) 5 w in
      let '(vy, w) := randomRange env (-5) 5 w in
      let '(size, w) := randomRange env 2 6 w in
      pushSparks env x y color n
        (set_particles (particles w ++ [Particle.mk x y vx vy 1 color size SPARK]) w)
  end.

(** The five timers a [BOSS_EXPLOSION] starts run after the tick; each of
    their callbacks is the event [DelayedShockwave] below. *)
Definition createExplosion (env : Env) (x y : Q) (color : string) (count : nat)
    (type : ParticleType) (w : World) : World :=
  let w :=
    match type with
    | SHOCKWAVE =>
        set_particles (particles w ++ [Particle.mk x y 0 0 1 color 10 SHOCKWAVE]) w
    | BOSS_EXPLOSION => w
    | SPARK => w
    end in
  pushSparks env x y color count w.

Module Roll.
Record t := mk {
  type : EnemyType; hp : Q; speed : Q; scoreVal : Z; width : Q; height : Q
}.
End Roll.

(** The type roll of [spawnEnemy]. *)
Definition rollEnemy (level : Z) (typeRoll : Q) : Roll.t :=
  let l := inject_Z level in
  if (3 <=? level) && Qltb 0.9 typeRoll then
    Roll.mk ELITE 2 (2.5 + l * 0.2) 500 45 45
  else if Qltb 0.75 typeRoll then
    Roll.mk HEAVY 3 (1 + l * 0.1) 300 60 50
  else if Qltb 0.55 typeRoll then
    Roll.mk FAST 1 (4 + l * 0.3) 200 30 30
  else
    Roll.mk BASIC 1 (2 + l * 0.2) 100 40 40.

Definition spawnEnemy (env : Env) (level : Z) (w : World) : World :=
  if bossActive w then w
  else if (Z.rem level 10 =? 0) && (length (enemies w) =? 0)%nat
          && negb (bossActive w) then
    let w := set_bossActive true w in
    let hp := inject_Z (50 + level * 10) in
    set_enemies
      (enemies w ++
         [Enemy.mk (inject_Z (spawnNow env)) (CANVAS_WIDTH / 2) (-100) BOSS hp hp 1
            5000 150 100 0 (Some 1) (Some 1)]) w
  else
    let '(typeRoll, w) := random env w in
    let r := rollEnemy level typeRoll in
    let '(idr, w) := random env w in
    let '(x, w) := randomRange env (Roll.width r) (CANVAS_WIDTH - Roll.width r) w in
    set_enemies
      (enemies w ++
         [Enemy.mk (inject_Z (spawnNow env) + idr) x (- Roll.height r) (Roll.type r)
            (Roll.hp r) (Roll.hp r) (Roll.speed r) (Roll.scoreVal r) (Roll.width r)
            (Roll.height r) 0 None None]) w.

Definition spawnPowerUp (env : Env) (x y : option Q) (forceType : option PowerUpType)
    (w : World) : World :=
  let '(type, w) :=
    match forceType with
    | Some t => (t, w)
    | None =>
        let '(r, w) := random env w in
        (if Qltb 0.5 r then TRIPLE_SHOT else SHIELD, w)
    end in
  let '(x, w) :=
    match x with
    | Some x => (x, w)
    | None => randomRange env 30 (CANVAS_WIDTH - 30) w
    end in
  let y := match y with Some y => y | None => (-30)%Q end in
  set_powerUps
    (powerUps w ++ [PowerUp.mk x y type 30 30 (if decide (type = COIN) then 10 else 0)])
    w.

(** [setLives(l => { if (l <= 1) setGameState('GAMEOVER'); return l - 1; })] *)
Definition loseLife (w : World) : World :=
  let l := lives w in
  let w := if l <=? 1 then set_gameState GAMEOVER w else w in
  set_lives (l - 1) w.

(** ** The tick: [update] *)

(** 1. Player movement and boundaries. *)
Definition tickPlayer (w : World) : World :=
  let p := player w in
  let p := if key "ArrowLeft" w || key "KeyA" w
           then Player.set_x (Player.x p - Player.speed p) p else p in
  let p := if key "ArrowRight" w || key "KeyD" w
           then Player.set_x (Player.x p + Player.speed p) p else p in
  let p := if key "ArrowUp" w || key "KeyW" w
           then Player.set_y (Player.y p - Player.speed p) p else p in
  let p := if key "ArrowDown" w || key "KeyS" w
           then Player.set_y (Player.y p + Player.speed p) p else p in
  let p := Player.set_x
             (Qmax (Player.width p / 2)
                (Qmin (CANVAS_WIDTH - Player.width p / 2) (Player.x p))) p in
  let p := Player.set_y
             (Qmax (Player.height p / 2)
                (Qmin (CANVAS_HEIGHT - Player.height p / 2) (Player.y p))) p in
  set_player p w.

(** 2. Shooting. *)
Definition playerBullet (p : Player.t) (vx vy : Q) : Bullet.t :=
  Bullet.mk (Player.x p) (Player.y p - 20) vx vy 1 false.

Definition pushBullet (b : Bullet.t) (w : World) : World :=
  set_bullets (bullets w ++ [b]) w.

Definition tickShoot (env : Env) (w : World) : World :=
  if key "Space" w && (Upgrades.fireRate (upgrades w) <? now env - lastShot w) then
    let p := player w in
    let w :=
      if 0 <? Player.tripleShot p then
        let w := pushBullet (playerBullet p 0 (-12)) w in
        let w := pushBullet (playerBullet p (-3) (-11)) w in
        let w := pushBullet (playerBullet p 3 (-11)) w in
        if Upgrades.tripleShotLevel (upgrades w) <? 2
        then set_player (Player.set_tripleShot (Player.tripleShot p - 1) p) w
        else w
      else pushBullet (playerBullet p 0 (-12)) w in
    set_lastShot (now env) w
  else w.

(** 3. Bullets. *)
Definition moveBullet (b : Bullet.t) : Bullet.t :=
  Bullet.set_y (Bullet.y b + Bullet.vy b) (Bullet.set_x (Bullet.x b + Bullet.vx b) b).

Definition stepBullet (b : Bullet.t) (i : nat) (w : World) : World :=
  let b := moveBullet b in
  let w := set_bullets (<[i := b]> (bullets w)) w in
  if Qltb (Bullet.y b) (-20) || Qltb (Bullet.x b) (-20)
     || Qltb (CANVAS_WIDTH + 20) (Bullet.x b)
  then set_bullets (delete i (bullets w)) w
  else w.

(** The body of [if (dist < player.width / 2)] in the enemy-bullet pass. *)
Definition enemyBulletHit (env : Env) (i : nat) (w : World) : World :=
  let p := player w in
  let w := set_enemyBullets (delete i (enemyBullets w)) w in
  let w :=
    if Player.shield p then
      let w := set_player (Player.set_shield false p) w in
      createExplosion env (Player.x p) (Player.y p) "#3b82f6" 10 SPARK w
    else if negb (isGuardianMode w) then
      let newHits := playerHits w + 1 in
      if Upgrades.armorStrength (upgrades w) <=? newHits then
        let w := loseLife w in
        let w := set_lostLifeThisRun true w in
        let w := createExplosion env (Player.x p) (Player.y p) "#ef4444" 30 SHOCKWAVE w in
        set_playerHits 0 w
      else set_playerHits newHits w
    else w in
  set_player (Player.set_invulnerable 60 (player w)) w.

Definition stepEnemyBullet (env : Env) (b : Bullet.t) (i : nat) (w : World) : World :=
  let b := moveBullet b in
  let w := set_enemyBullets (<[i := b]> (enemyBullets w)) w in
  let w := if Qltb (CANVAS_HEIGHT + 20) (Bullet.y b)
           then set_enemyBullets (delete i (enemyBullets w)) w else w in
  let p := player w in
  if Player.invulnerable p <=? 0 then
    if near (Player.x p - Bullet.x b) (Player.y p - Bullet.y b) (Player.width p / 2)
    then enemyBulletHit env i w
    else w
  else w.

(** 5. Spawner. *)
Definition tickSpawner (env : Env) (level : Z) (w : World) : World :=
  let w := set_enemySpawnTimer (enemySpawnTimer w + 1) w in
  let spawnRate := Z.max 15 (50 - level * 4) in
  if spawnRate <? enemySpawnTimer w
  then set_enemySpawnTimer 0 (spawnEnemy env level w)
  else w.

(** The enemy callback.  [cur] is the object bound to [e]; [held] tells whether
    the array still holds it, at index [i].  The array cell is brought up to
    date when the callback returns; nothing reads it in between. *)
Record Scan := mkScan { cur : Enemy.t; held : bool; world : World }.

Definition bossVolley (e : Enemy.t) : list Bullet.t :=
  map (fun j : Z =>
         Bullet.mk (Enemy.x e + inject_Z j * 20) (Enemy.y e + 40) (inject_Z j) 6 1 true)
    [-2; -1; 0; 1; 2].

Definition moveEnemy (env : Env) (e : Enemy.t) (w : World) : Enemy.t * World :=
  if decide (Enemy.type e = BOSS) then
    let e := if Qltb (Enemy.y e) 100 then Enemy.set_y (Enemy.y e + 1) e else e in
    let e := Enemy.set_x (Enemy.x e + inject_Z (orOne (Enemy.moveDir e) * 2)) e in
    let e := if Qltb (Enemy.x e) 100 || Qltb (CANVAS_WIDTH - 100) (Enemy.x e)
             then Enemy.set_moveDir (Some (orOne (Enemy.moveDir e) * -1)) e else e in
    if 1000 <? now env - Enemy.lastShot e
    then (Enemy.set_lastShot (now env) e,
          set_enemyBullets (enemyBullets w ++ bossVolley e) w)
    else (e, w)
  else (Enemy.set_y (Enemy.y e + Enemy.speed e) e, w).

(** Enemy shooting (Elite or Level 3+). *)
Definition enemyShoots (env : Env) (level : Z) (e : Enemy.t) (w : World)
    : Enemy.t * World :=
  let '(fires, w) :=
    if decide (Enemy.type e = ELITE) then (true, w)
    else if 3 <=? level then
      let '(r, w) := random env w in (Qltb r 0.01, w)
    else (false, w) in
  if fires && (1500 <? now env - Enemy.lastShot e) then
    (Enemy.set_lastShot (now env) e,
     set_enemyBullets
       (enemyBullets w ++ [Bullet.mk (Enemy.x e) (Enemy.y e + 20) 0 5 1 true]) w)
  else (e, w).

(** Check collision with player: the body of [if (dist < ...)] up to the
    removal of the enemy. *)
Definition contactHit (env : Env) (w : World) : World :=
  let p := player w in
  let w :=
    if Player.shield p then
      let w := set_player (Player.set_shield false p) w in
      createExplosion env (Player.x p) (Player.y p) "#3b82f6" 20 SPARK w
    else if negb (isGuardianMode w) then
      let w := loseLife w in
      let w := set_lostLifeThisRun true w in
      createExplosion env (Player.x p) (Player.y p) "#ef4444" 30 SHOCKWAVE w
    else w in
  set_player (Player.set_invulnerable 120 (player w)) w.

Definition enemyContact (env : Env) (i : nat) (s : Scan) : Scan :=
  let e := cur s in
  let w := world s in
  let p := player w in
  if Player.invulnerable p <=? 0 then
    if near (Player.x p - Enemy.x e) (Player.y p - Enemy.y e)
         ((Player.width p + Enemy.width e) / 2.5)
    then
      let w := contactHit env w in
      if decide (Enemy.type e = BOSS) then mkScan e (held s) w
      else mkScan e false (set_enemies (delete i (enemies w)) w)
    else s
  else s.

Fixpoint scatterCoins (env : Env) (x y : Q) (n : nat) (w : World) : World :=
  match n with
  | O => w
  | S n =>
      let '(ox, w) := randomRange env (-50) 50 w in
      let '(oy, w) := randomRange env (-50) 50 w in
      scatterCoins env x y n
        (spawnPowerUp env (Some (x + ox)%Q) (Some (y + oy)%Q) (Some COIN) w)
  end.

Definition killEffects (env : Env) (e : Enemy.t) (w : World) : World :=
  if decide (Enemy.type e = BOSS) then
    let w := set_bossActive false w in
    let w := createExplosion env (Enemy.x e) (Enemy.y e) "#a855f7" 50 BOSS_EXPLOSION w in
    let w := scatterCoins env (Enemy.x e) (Enemy.y e) 10 w in
    unlockAchievement "boss_slayer" w
  else
    let color :=
      if decide (Enemy.type e = HEAVY) then "#f59e0b"
      else if decide (Enemy.type e = FAST) then "#10b981" else "#ef4444" in
    let w :=
      createExplosion env (Enemy.x e) (Enemy.y e) color 20
        (if decide (Enemy.type e = HEAVY) then SHOCKWAVE else SPARK) w in
    let '(r, w) := random env w in
    if Qltb r 0.4 then spawnPowerUp env (Some (Enemy.x e)) (Some (Enemy.y e)) (Some COIN) w
    else w.

(** Check collision with bullets: the callback of the inner scan. *)
Definition bulletHitsEnemy (env : Env) (i : nat) (b : Bullet.t) (bi : nat) (s : Scan)
    : Scan :=
  let e := cur s in
  let w := world s in
  if near (Bullet.x b - Enemy.x e) (Bullet.y b - Enemy.y e) (Enemy.width e / 2 + 5)
  then
    let e :=
      Enemy.set_hp (Enemy.hp e - Bullet.power b * Upgrades.bulletPower (upgrades w)) e in
    let w := set_bullets (delete bi (bullets w)) w in
    if Qle_bool (Enemy.hp e) 0 then
      let w := set_score (score w + Enemy.score e) w in
      let w := set_enemiesKilled (enemiesKilled w + 1) w in
      let w := killEffects env e w in
      let w := set_enemies (delete i (enemies w)) w in
      let w := if enemiesKilled w =? 1 then unlockAchievement "first_blood" w else w in
      let w := if enemiesKilled w =? 50 then unlockAchievement "ace_pilot" w else w in
      mkScan e false w
    else mkScan e (held s) w
  else s.

(** Escape check. *)
Definition countEscape (w : World) : World :=
  if isGuardianMode w then
    let next := escapedEnemies w + 1 in
    let w := if 40 <=? next then set_gameState GUARDIAN_RESULT w else w in
    set_escapedEnemies next w
  else w.

Definition enemyEscape (i : nat) (s : Scan) : Scan :=
  let e := cur s in
  let w := world s in
  if Qltb (CANVAS_HEIGHT + Enemy.height e) (Enemy.y e) then
    let w := set_enemies (delete i (enemies w)) w in
    mkScan e false (countEscape w)
  else s.

Definition stepEnemy (env : Env) (level : Z) (e : Enemy.t) (i : nat) (w : World)
    : World :=
  let '(e, w) := moveEnemy env e w in
  let '(e, w) := enemyShoots env level e w in
  let s := mkScan e true w in
  let s := enemyContact env i s in
  let s := forEach (fun s => bullets (world s)) (bulletHitsEnemy env i) s in
  let s := enemyEscape i s in
  let w := world s in
  if held s then set_enemies (<[i := cur s]> (enemies w)) w else w.

(** 6. Power-ups. *)
Definition tickPowerUpSpawner (env : Env) (w : World) : World :=
  let w := set_powerUpSpawnTimer (powerUpSpawnTimer w + 1) w in
  if 600 <? powerUpSpawnTimer w
  then set_powerUpSpawnTimer 0 (spawnPowerUp env None None None w)
  else w.

Definition collect (p : PowerUp.t) (w : World) : World :=
  match PowerUp.type p with
  | SHIELD =>
      let w := set_player (Player.set_shield true (player w)) w in
      let w := set_shieldsPicked (shieldsPicked w + 1) w in
      if shieldsPicked w =? 3 then unlockAchievement "shield_master" w else w
  | TRIPLE_SHOT =>
      let pl := player w in
      let w := set_player (Player.set_tripleShot (Player.tripleShot pl + 30) pl) w in
      let w := set_tripleShotsPicked (tripleShotsPicked w + 1) w in
      if tripleShotsPicked w =? 3 then unlockAchievement "power_hungry" w else w
  | COIN =>
      let v := if PowerUp.value p =? 0 then 10 else PowerUp.value p in
      let w := set_sessionCoins (sessionCoins w + v) w in
      let newTotal := totalCoins w + v in
      let w := if 1000 <=? newTotal then unlockAchievement "rich_man" w else w in
      set_totalCoins newTotal w
  end.

Definition bulletHitsPowerUp (i : nat) (p : PowerUp.t) (b : Bullet.t) (bi : nat)
    (w : World) : World :=
  if near (Bullet.x b - PowerUp.x p) (Bullet.y b - PowerUp.y p) ((PowerUp.width p + 10) / 2)
  then
    let w := set_bullets (delete bi (bullets w)) w in
    let w := collect p w in
    set_powerUps (delete i (powerUps w)) w
  else w.

Definition stepPowerUp (p : PowerUp.t) (i : nat) (w : World) : World :=
  let p := PowerUp.set_y (PowerUp.y p + 2) p in
  let w := set_powerUps (<[i := p]> (powerUps w)) w in
  let w := forEach bullets (bulletHitsPowerUp i p) w in
  if Qltb (CANVAS_HEIGHT + 50) (PowerUp.y p)
  then set_powerUps (delete i (powerUps w)) w
  else w.

(** 7. Particles. *)
Definition stepParticle (p : Particle.t) (i : nat) (w : World) : World :=
  let p := Particle.set_y (Particle.y p + Particle.vy p)
             (Particle.set_x (Particle.x p + Particle.vx p) p) in
  let p :=
    if decide (Particle.type p = SHOCKWAVE)
    then Particle.set_life (Particle.life p - 0.04) (Particle.set_size (Particle.size p + 2) p)
    else Particle.set_life (Particle.life p - 0.02) p in
  let w := set_particles (<[i := p]> (particles w)) w in
  if Qle_bool (Particle.life p) 0
  then set_particles (delete i (particles w)) w
  else w.

(** 8. Level up logic; [lvl] and [sc] are the rendered [level] and [score]. *)
Definition tickLevelUp (lvl sc : Z) (w : World) : World :=
  if lvl * 2000 <? sc then
    let nextLevel := level w + 1 in
    let w := if (nextLevel =? 5) && negb (lostLifeThisRun w)
             then unlockAchievement "untouchable" w else w in
    let w := set_level nextLevel w in
    let w := set_enemies [] w in
    let w := set_enemyBullets [] w in
    set_levelUpPending true w
  else w.

(** 9. Achievement: survivor. *)
Definition tickSurvivor (env : Env) (w : World) : World :=
  if 60000 <? endNow env - startTime w then unlockAchievement "survivor" w else w.

Definition tickTimers (w : World) : World :=
  let p := player w in
  let w := if 0 <? Player.invulnerable p
           then set_player (Player.set_invulnerable (Player.invulnerable p - 1) p) w
           else w in
  let w := if 0 <? warningTimer w then set_warningTimer (warningTimer w - 1) w else w in
  set_frameCount (frameCount w + 1) w.

Definition update (env : Env) (w : World) : World :=
  let lvl := level w in
  let sc := score w in
  let w := tickPlayer w in
  let w := tickShoot env w in
  let w := forEach bullets stepBullet w in
  let w := forEach enemyBullets (stepEnemyBullet env) w in
  let w := tickSpawner env lvl w in
  let w := forEach enemies (stepEnemy env lvl) w in
  let w := tickPowerUpSpawner env w in
  let w := forEach powerUps stepPowerUp w in
  let w := forEach particles stepParticle w in
  let w := tickLevelUp lvl sc w in
  let w := tickSurvivor env w in
  tickTimers w.

(** ** Session control: [startGame], [togglePause] and the menu buttons *)

Definition startGame (startNow : Z) (guardian : bool) (w : World) : World :=
  if guardian && (totalCoins w <? 450) then w
  else
    let w :=
      if guardian then
        let w := set_totalCoins (totalCoins w - 450) w in
        let w := set_isGuardianMode true w in
        set_escapedEnemies 0 w
      else set_isGuardianMode false w in
    let w := set_gameState PLAYING w in
    let w := set_score 0 w in
    let w := set_sessionCoins 0 w in
    let w := set_lives (if guardian then 999999 else Upgrades.maxLives (upgrades w)) w in
    let w := set_playerHits 0 w in
    let w := set_level 1 w in
    let w :=
      set_player
        (Player.mk (CANVAS_WIDTH / 2) (CANVAS_HEIGHT - 80) 40 40
           (inject_Z (Upgrades.moveSpeed (upgrades w))) 0 false
           (if Upgrades.tripleShotLevel (upgrades w) =? 2 then 999999 else 0)) w in
    let w := set_bullets [] w in
    let w := set_enemyBullets [] w in
    let w := set_enemies [] w in
    let w := set_powerUps [] w in
    let w := set_particles [] w in
    let w := set_enemiesKilled 0 w in
    let w := set_shieldsPicked 0 w in
    let w := set_tripleShotsPicked 0 w in
    let w := set_startTime startNow w in
    let w := set_frameCount 0 w in
    let w := set_lostLifeThisRun false w in
    set_bossActive false w.

Definition togglePause (w : World) : World :=
  match gameState w with
  | PLAYING => set_gameState PAUSED w
  | PAUSED => set_gameState PLAYING w
  | _ => w
  end.

(** [Math.round] *)
Definition round (q : Q) : Z := Qfloor (q + 0.5).

Inductive Item :=
  BuyMaxLives | BuyBulletPower | BuyArmor | BuyTripleShot | BuyFireRate | BuySpeed.

(** The click handler of a button of the upgrade screen, behind its
    [disabled] condition. *)
Definition buy (item : Item) (w : World) : World :=
  let u := upgrades w in
  let c := totalCoins w in
  match item with
  | BuyMaxLives =>
      let cost := Upgrades.maxLives u * 200 in
      if (c <? cost) || (10 <=? Upgrades.maxLives u) then w
      else set_upgrades (Upgrades.set_maxLives (Upgrades.maxLives u + 1) u)
             (set_totalCoins (c - cost) w)
  | BuyBulletPower =>
      let cost := round (Upgrades.bulletPower u * 500) in
      if (c <? cost) || Qle_bool 5 (Upgrades.bulletPower u) then w
      else set_upgrades (Upgrades.set_bulletPower (Upgrades.bulletPower u + 0.5) u)
             (set_totalCoins (c - cost) w)
  | BuyArmor =>
      let cost := Upgrades.armorStrength u * 150 in
      if (c <? cost) || (15 <=? Upgrades.armorStrength u) then w
      else set_upgrades (Upgrades.set_armorStrength (Upgrades.armorStrength u + 1) u)
             (set_totalCoins (c - cost) w)
  | BuyTripleShot =>
      if (c <? 2000) || (2 <=? Upgrades.tripleShotLevel u) then w
      else set_upgrades (Upgrades.set_tripleShotLevel 2 u) (set_totalCoins (c - 2000) w)
  | BuyFireRate =>
      let cost := 800 + (200 - Upgrades.fireRate u) * 10 in
      if (c <? cost) || (Upgrades.fireRate u <=? 60) then w
      else set_upgrades (Upgrades.set_fireRate (Upgrades.fireRate u - 20) u)
             (set_totalCoins (c - cost) w)
  | BuySpeed =>
      let cost := Upgrades.moveSpeed u * 100 in
      if (c <? cost) || (15 <=? Upgrades.moveSpeed u) then w
      else set_upgrades (Upgrades.set_moveSpeed (Upgrades.moveSpeed u + 1) u)
             (set_totalCoins (c - cost) w)
  end.

(** The reward button of the guardian result screen. *)
Definition claimReward (clickNow : Z) (w : World) : World :=
  let reward := enemiesKilled w * 5 + (clickNow - startTime w) / 1000 in
  set_gameState START (set_totalCoins (totalCoins w + reward) w).

(** What can happen to the component.  A handler that belongs to a button is
    guarded by the state in which the button is rendered. *)
Inductive Event :=
  | Frame (env : Env)                      (* animation frame: [loop] *)
  | ClickStart (clickNow : Z) (guardian : bool)
  | ClickRestart (clickNow : Z)            (* game over screen, [onClick={startGame}] *)
  | ClickPause
  | ClickUpgrades
  | ClickHome                              (* upgrade screen and pause screen *)
  | ClickClaim (clickNow : Z)
  | ClickBuy (item : Item)
  | KeyDown (code : string)
  | KeyUp (code : string)
  | TouchMove (x y : Q)
  | TouchEnd
  | DelayedShockwave (env : Env) (x y : Q) (color : string)
  | BannerTimeout
  | PopupTimeout.

Definition hudShown (w : World) : bool :=
  match gameState w with
  | START | UPGRADE | GUARDIAN_RESULT => false
  | _ => true
  end.

Definition handle (ev : Event) (w : World) : World :=
  match ev with
  | Frame env =>
      if decide (gameState w = PLAYING) then update env w else w
  | ClickStart clickNow guardian =>
      if decide (gameState w = START) then startGame clickNow guardian w else w
  | ClickRestart clickNow =>
      (* the click event arrives as [guardian], and an object is truthy *)
      if decide (gameState w = GAMEOVER) then startGame clickNow true w else w
  | ClickPause =>
      if hudShown w then togglePause w else w
  | ClickUpgrades =>
      if decide (gameState w = START) then set_gameState UPGRADE w else w
  | ClickHome =>
      if bool_decide (gameState w = UPGRADE) || bool_decide (gameState w = PAUSED)
      then set_gameState START w else w
  | ClickClaim clickNow =>
      if decide (gameState w = GUARDIAN_RESULT) then claimReward clickNow w else w
  | ClickBuy item =>
      if decide (gameState w = UPGRADE) then buy item w else w
  | KeyDown code =>
      let w := set_keys (<[code := true]> (keys w)) w in
      if decide (code = "KeyP") then togglePause w else w
  | KeyUp code => set_keys (<[code := false]> (keys w)) w
  | TouchMove x y =>
      if decide (gameState w = PLAYING) then
        let p := Player.set_y (y - 50) (Player.set_x x (player w)) in
        set_keys (<["Space" := true]> (keys w)) (set_player p w)
      else w
  | TouchEnd => set_keys (<["Space" := false]> (keys w)) w
  | DelayedShockwave env x y color =>
      let '(ox, w) := randomRange env (-50) 50 w in
      let '(oy, w) := randomRange env (-50) 50 w in
      createExplosion env (x + ox) (y + oy) color 20 SHOCKWAVE w
  | BannerTimeout => set_levelUpPending false w
  | PopupTimeout => set_unlockedAchievement None w
  end.

Definition initialAchievements : list Achievement.t :=
  map (fun id => Achievement.mk id false)
    ["first_blood"; "survivor"; "ace_pilot"; "shield_master"; "power_hungry";
     "rich_man"; "untouchable"; "boss_slayer"; "guardian_hero"].

Definition defaultUpgrades : Upgrades.t := Upgrades.mk 3 0 200 6 1 5.

(** The state after the first render, from the persisted coins and upgrades. *)
Definition initial (coins : Z) (up : Upgrades.t) : World :=
  mkWorld
    (Player.mk (CANVAS_WIDTH / 2) (CANVAS_HEIGHT - 80) 40 40 6 0 false 0)
    [] [] [] [] [] ∅ 0 0 0 0 0 0 0 0 false 0 false false
    coins up
    START false 0 0 0 3 0 1 initialAchievements None
    0%nat.

Inductive reachable (coins : Z) (up : Upgrades.t) : World -> Prop :=
  | reach_initial : reachable coins up (initial coins up)
  | reach_handle (ev : Event) (w : World) :
      reachable coins up w -> reachable coins up (handle ev w).

(** * Properties *)

(** ** Comparisons on rationals *)

Lemma Qltb_lt (a b : Q) : Qltb a b = true <-> (a < b)%Q.
Proof.
  unfold Qltb. rewrite negb_true_iff. split.
  - intros H. apply Qnot_le_lt. intros Hle.
    apply Qle_bool_iff in Hle. congruence.
  - intros H. destruct (Qle_bool b a) eqn:E; [|reflexivity].
    apply Qle_bool_iff in E. exfalso. eapply Qlt_not_le; eauto.
Qed.

Lemma Qltb_ge (a b : Q) : Qltb a b = false <-> (b <= a)%Q.
Proof.
  unfold Qltb. rewrite negb_false_iff. apply Qle_bool_iff.
Qed.

Lemma Qle_bool_gt (a b : Q) : Qle_bool a b = false <-> (b < a)%Q.
Proof.
  rewrite <- Qltb_lt. unfold Qltb. rewrite negb_true_iff. reflexivity.
Qed.

(** ** Scans *)

Section ForEachInd.
Context {A S : Type}.
Variable arr : S -> list A.
Variable f : A -> nat -> S -> S.
Variable P : S -> Prop.
Hypothesis body : forall a k s, arr s !! k = Some a -> P s -> P (f a k s).

Lemma visit_ind (s : S) (k : nat) : P s -> P (visit arr f s k).
Proof.
  unfold visit. intros H. destruct (arr s !! k) eqn:E; eauto.
Qed.

Lemma forEach_ind (s : S) : P s -> P (forEach arr f s).
Proof.
  unfold forEach. generalize (seq 0 (length (arr s))). intros ks. revert s.
  induction ks as [|k ks IH]; intros s H; simpl; [exact H|].
  apply IH. apply visit_ind. exact H.
Qed.
End ForEachInd.

(** ** What the cosmetic helpers leave alone

    [core] gathers the fields the claims depend on.  The random source, the
    particles, the power-ups, the timers and the counters of the HUD are not
    among them. *)

Definition core (w : World) :=
  (lives w, gameState w, playerHits w, escapedEnemies w, level w, upgrades w,
   isGuardianMode w, enemies w, bossActive w, Player.invulnerable (player w),
   bullets w, achievements w).

Lemma core_randomRange env lo hi w : core (randomRange env lo hi w).2 = core w.
Proof. reflexivity. Qed.

Lemma core_pushSparks env x y color count w :
  core (pushSparks env x y color count w) = core w.
Proof.
  revert w. induction count as [|n IH]; intros w; simpl; [reflexivity|].
  rewrite IH. reflexivity.
Qed.

Lemma core_createExplosion env x y color count type w :
  core (createExplosion env x y color count type w) = core w.
Proof.
  unfold createExplosion. rewrite core_pushSparks. destruct type; reflexivity.
Qed.

Lemma core_spawnPowerUp env x y forceType w :
  core (spawnPowerUp env x y forceType w) = core w.
Proof.
  unfold spawnPowerUp. destruct forceType, x; reflexivity.
Qed.

Lemma core_scatterCoins env x y n w : core (scatterCoins env x y n w) = core w.
Proof.
  revert w. induction n as [|n IH]; intros w; simpl; [reflexivity|].
  rewrite IH, core_spawnPowerUp. reflexivity.
Qed.

Ltac split_ifs :=
  repeat match goal with
         | |- context [if ?c then _ else _] => destruct c
         end.

Lemma core_tickPlayer w : core (tickPlayer w) = core w.
Proof. unfold tickPlayer. split_ifs; reflexivity. Qed.

Lemma core_tickPowerUpSpawner env w : core (tickPowerUpSpawner env w) = core w.
Proof.
  unfold tickPowerUpSpawner. cbv zeta.
  destruct (600 <? _); [|reflexivity].
  change (core (spawnPowerUp env None None None
                  (set_powerUpSpawnTimer (powerUpSpawnTimer w + 1) w)) = core w).
  rewrite core_spawnPowerUp. reflexivity.
Qed.

Lemma core_stepParticle p i w : core (stepParticle p i w) = core w.
Proof. unfold stepParticle. cbv zeta. destruct (Qle_bool _ _); reflexivity. Qed.

Lemma core_tickParticles w : core (forEach particles stepParticle w) = core w.
Proof.
  apply (forEach_ind particles stepParticle (fun s => core s = core w)); [|reflexivity].
  intros p k s _ H. rewrite core_stepParticle. exact H.
Qed.

(** ** Predicates that the quiet phases preserve

    A predicate is [Robust] when it depends on [core] only, survives firing,
    moving and removing a player bullet, and survives unlocking any
    achievement other than [guardian_hero]. *)

Record Robust (P : World -> Prop) : Prop := {
  rb_core : forall w w', core w' = core w -> P w -> P w';
  rb_fire : forall p vx vy w, P w -> P (pushBullet (playerBullet p vx vy) w);
  rb_move : forall i b w,
    bullets w !! i = Some b -> P w -> P (set_bullets (<[i := moveBullet b]> (bullets w)) w);
  rb_del : forall i w, P w -> P (set_bullets (delete i (bullets w)) w);
  rb_unlock : forall id w, id <> "guardian_hero" -> P w -> P (unlockAchievement id w)
}.

Section Quiet.
Variable P : World -> Prop.
Hypothesis R : Robust P.

Lemma quiet_tickPlayer w : P w -> P (tickPlayer w).
Proof. apply (rb_core P R). apply core_tickPlayer. Qed.

Lemma quiet_createExplosion env x y color count type w :
  P w -> P (createExplosion env x y color count type w).
Proof. apply (rb_core P R). apply core_createExplosion. Qed.

Lemma quiet_tickShoot env w : P w -> P (tickShoot env w).
Proof.
  intros H. unfold tickShoot. destruct (_ && _); [|exact H]. cbv zeta.
  destruct (0 <? _).
  - set (p := player w).
    assert (H3 : P (pushBullet (playerBullet p 3 (-11))
                      (pushBullet (playerBullet p (-3) (-11))
                         (pushBullet (playerBullet p 0 (-12)) w)))).
    { repeat apply (rb_fire P R). exact H. }
    revert H3. apply (rb_core P R). split_ifs; reflexivity.
  - assert (H1 : P (pushBullet (playerBullet (player w) 0 (-12)) w)).
    { apply (rb_fire P R). exact H. }
    revert H1. apply (rb_core P R). reflexivity.
Qed.

Lemma quiet_stepBullet b i w : bullets w !! i = Some b -> P w -> P (stepBullet b i w).
Proof.
  intros Hb H. unfold stepBullet. cbv zeta.
  pose proof (rb_move P R i b w Hb H) as H1.
  destruct (_ || _); [|exact H1].
  apply (rb_del P R i) in H1. exact H1.
Qed.

Lemma quiet_tickBullets w : P w -> P (forEach bullets stepBullet w).
Proof. apply forEach_ind. intros b k s. apply quiet_stepBullet. Qed.

Lemma quiet_tickPowerUpSpawner env w : P w -> P (tickPowerUpSpawner env w).
Proof. apply (rb_core P R). apply core_tickPowerUpSpawner. Qed.

Lemma quiet_collect p w : P w -> P (collect p w).
Proof.
  intros H. unfold collect. destruct (PowerUp.type p); cbv zeta.
  - destruct (_ =? 3).
    + apply (rb_unlock P R); [discriminate|]. revert H. apply (rb_core P R). reflexivity.
    + revert H. apply (rb_core P R). reflexivity.
  - destruct (_ =? 3).
    + apply (rb_unlock P R); [discriminate|]. revert H. apply (rb_core P R). reflexivity.
    + revert H. apply (rb_core P R). reflexivity.
  - set (v := if PowerUp.value p =? 0 then 10 else PowerUp.value p).
    assert (H1 : P (set_sessionCoins (sessionCoins w + v) w)).
    { revert H. apply (rb_core P R). reflexivity. }
    destruct (1000 <=? _).
    + apply (rb_unlock P R "rich_man") in H1; [|discriminate].
      revert H1. apply (rb_core P R). reflexivity.
    + revert H1. apply (rb_core P R). reflexivity.
Qed.

Lemma quiet_bulletHitsPowerUp i p b bi w : P w -> P (bulletHitsPowerUp i p b bi w).
Proof.
  intros H. unfold bulletHitsPowerUp. destruct (near _ _ _); [|exact H]. cbv zeta.
  apply (rb_del P R bi), quiet_collect with (p := p) in H.
  revert H. apply (rb_core P R). reflexivity.
Qed.

Lemma quiet_stepPowerUp p i w : P w -> P (stepPowerUp p i w).
Proof.
  intros H. unfold stepPowerUp. cbv zeta.
  set (p' := PowerUp.set_y _ p).
  assert (H1 : P (forEach bullets (bulletHitsPowerUp i p')
                    (set_powerUps (<[i := p']> (powerUps w)) w))).
  { apply forEach_ind.
    - intros b k s _. apply quiet_bulletHitsPowerUp.
    - revert H. apply (rb_core P R). reflexivity. }
  destruct (Qltb _ _); [|exact H1].
  revert H1. apply (rb_core P R). reflexivity.
Qed.

Lemma quiet_tickPowerUps w : P w -> P (forEach powerUps stepPowerUp w).
Proof. apply forEach_ind. intros p k s _. apply quiet_stepPowerUp. Qed.

Lemma quiet_tickParticles w : P w -> P (forEach particles stepParticle w).
Proof. apply (rb_core P R). apply core_tickParticles. Qed.

Lemma quiet_tickSurvivor env w : P w -> P (tickSurvivor env w).
Proof.
  intros H. unfold tickSurvivor. destruct (_ <? _); [|exact H].
  apply (rb_unlock P R); [discriminate|exact H].
Qed.
End Quiet.

(** ** The phases that touch lives, hits, the session state or the enemies

    Each lemma asks, besides robustness, that the predicate survive the few
    steps of the phase that write a field of [core]. *)

Section EnemyBulletPass.
Variable P : World -> Prop.
Hypothesis R : Robust P.
Hypothesis Hhit : forall env i w,
  Player.invulnerable (player w) <= 0 -> P w -> P (enemyBulletHit env i w).

Lemma loud_stepEnemyBullet env b i w : P w -> P (stepEnemyBullet env b i w).
Proof.
  intros H. unfold stepEnemyBullet. cbv zeta.
  set (w1 := if Qltb _ _ then _ else _).
  assert (H1 : P w1).
  { revert H. apply (rb_core P R). subst w1. destruct (Qltb _ _); reflexivity. }
  clearbody w1.
  destruct (Player.invulnerable (player w1) <=? 0) eqn:E; [|exact H1].
  destruct (near _ _ _); [|exact H1].
  apply Hhit; [lia|exact H1].
Qed.

Lemma loud_tickEnemyBullets env w :
  P w -> P (forEach enemyBullets (stepEnemyBullet env) w).
Proof. apply forEach_ind. intros b k s _. apply loud_stepEnemyBullet. Qed.
End EnemyBulletPass.

Section Spawner.
Variable P : World -> Prop.
Variable env : Env.
Variable lvl : Z.
Hypothesis R : Robust P.
Hypothesis Hspawn : forall w, P w -> P (spawnEnemy env lvl w).

Lemma loud_tickSpawner w : P w -> P (tickSpawner env lvl w).
Proof.
  intros H. unfold tickSpawner. cbv zeta.
  assert (H1 : P (set_enemySpawnTimer (enemySpawnTimer w + 1) w)).
  { revert H. apply (rb_core P R). reflexivity. }
  destruct (_ <? _); [|exact H1].
  apply Hspawn in H1. revert H1. apply (rb_core P R). reflexivity.
Qed.
End Spawner.

(** Predicates that do not read the enemy list or the boss flag. *)
Section EnemyPass.
Variable P : World -> Prop.
Hypothesis R : Robust P.
Hypothesis Hen : forall v w, P w -> P (set_enemies v w).
Hypothesis Hboss : forall v w, P w -> P (set_bossActive v w).
Hypothesis Hcontact : forall env w,
  Player.invulnerable (player w) <= 0 -> P w -> P (contactHit env w).
Hypothesis Hescape : forall w, P w -> P (countEscape w).

Lemma blind_spawnEnemy env lvl w : P w -> P (spawnEnemy env lvl w).
Proof.
  intros H. unfold spawnEnemy. destruct (bossActive w); [exact H|].
  destruct (_ && _); cbv zeta.
  - apply Hen, Hboss, H.
  - apply Hen. revert H. apply (rb_core P R). reflexivity.
Qed.

Lemma blind_moveEnemy env e w : P w -> P (moveEnemy env e w).2.
Proof.
  intros H. unfold moveEnemy. destruct (decide _); [|exact H]. cbv zeta.
  destruct (_ <? _); [|exact H].
  revert H. apply (rb_core P R). reflexivity.
Qed.

Lemma blind_enemyShoots env lvl e w : P w -> P (enemyShoots env lvl e w).2.
Proof.
  intros H. unfold enemyShoots.
  destruct (decide _); [|destruct (3 <=? lvl)]; cbn [random];
    split_ifs; simpl; try exact H; revert H; apply (rb_core P R); reflexivity.
Qed.

Lemma blind_enemyContact env i s : P (world s) -> P (world (enemyContact env i s)).
Proof.
  intros H. unfold enemyContact. cbv zeta.
  destruct (_ <=? 0) eqn:E; [|exact H].
  destruct (near _ _ _); [|exact H].
  apply (Hcontact env) in H; [|lia].
  destruct (decide _); simpl; [exact H|]. apply Hen, H.
Qed.

Lemma blind_killEffects env e w : P w -> P (killEffects env e w).
Proof.
  intros H. unfold killEffects. destruct (decide (Enemy.type e = BOSS)); cbv zeta.
  - apply (rb_unlock P R); [discriminate|].
    apply (Hboss false) in H. revert H. apply (rb_core P R).
    rewrite core_scatterCoins, core_createExplosion. reflexivity.
  - set (w1 := createExplosion _ _ _ _ _ _ w).
    assert (H1 : P w1) by (apply quiet_createExplosion; assumption).
    clearbody w1. cbn [random].
    destruct (Qltb _ _).
    + revert H1. apply (rb_core P R). rewrite core_spawnPowerUp. reflexivity.
    + revert H1. apply (rb_core P R). reflexivity.
Qed.

Lemma blind_bulletHitsEnemy env i b bi s :
  P (world s) -> P (world (bulletHitsEnemy env i b bi s)).
Proof.
  intros H. unfold bulletHitsEnemy. cbv zeta.
  destruct (near _ _ _); [|exact H].
  apply (rb_del P R bi) in H.
  destruct (Qle_bool _ _); [|exact H]. cbn [world].
  set (e' := Enemy.set_hp _ _).
  set (w1 := set_enemiesKilled _ _).
  assert (H1 : P w1). { revert H. apply (rb_core P R). reflexivity. }
  clearbody w1.
  apply (blind_killEffects env e'), (Hen (delete i (enemies (killEffects env e' w1))))
    in H1.
  set (w2 := set_enemies _ _) in *. clearbody w2.
  destruct (enemiesKilled w2 =? 1).
  - apply (rb_unlock P R "first_blood") in H1; [|discriminate].
    destruct (_ =? 50); [|exact H1].
    apply (rb_unlock P R); [discriminate|exact H1].
  - destruct (_ =? 50); [|exact H1].
    apply (rb_unlock P R); [discriminate|exact H1].
Qed.

Lemma blind_enemyEscape i s : P (world s) -> P (world (enemyEscape i s)).
Proof.
  intros H. unfold enemyEscape. cbv zeta.
  destruct (Qltb _ _); [|exact H]. cbn [world].
  apply Hescape, Hen, H.
Qed.

Lemma blind_stepEnemy env lvl e i w : P w -> P (stepEnemy env lvl e i w).
Proof.
  intros H. unfold stepEnemy.
  pose proof (blind_moveEnemy env e w H) as H1.
  destruct (moveEnemy env e w) as [e1 w1]. simpl in H1.
  pose proof (blind_enemyShoots env lvl e1 w1 H1) as H2.
  destruct (enemyShoots env lvl e1 w1) as [e2 w2]. simpl in H2.
  cbv zeta.
  set (s1 := enemyContact env i (mkScan e2 true w2)).
  assert (Hs1 : P (world s1)) by (apply blind_enemyContact; exact H2).
  clearbody s1.
  set (s2 := forEach _ _ s1).
  assert (Hs2 : P (world s2)).
  { apply (forEach_ind _ _ (fun s => P (world s))); [|exact Hs1].
    intros b k s _. apply blind_bulletHitsEnemy. }
  clearbody s2.
  apply (blind_enemyEscape i) in Hs2.
  destruct (held _); [apply Hen|]; exact Hs2.
Qed.

Lemma blind_tickEnemies env lvl w :
  P w -> P (forEach enemies (stepEnemy env lvl) w).
Proof. apply forEach_ind. intros e k s _. apply blind_stepEnemy. Qed.
End EnemyPass.

(** Predicates that do not read the lives, the hit counter, the session
    state, the escape counter or the player. *)
Record CalmSession (P : World -> Prop) : Prop := {
  cs_lives : forall v w, P w -> P (set_lives v w);
  cs_gameState : forall v w, P w -> P (set_gameState v w);
  cs_playerHits : forall v w, P w -> P (set_playerHits v w);
  cs_escaped : forall v w, P w -> P (set_escapedEnemies v w);
  cs_player : forall v w, P w -> P (set_player v w);
  cs_lostLife : forall v w, P w -> P (set_lostLifeThisRun v w)
}.

Section SessionSteps.
Variable P : World -> Prop.
Hypothesis R : Robust P.
Hypothesis C : CalmSession P.

Lemma calm_loseLife w : P w -> P (loseLife w).
Proof.
  intros H. unfold loseLife. cbv zeta. apply (cs_lives P C).
  destruct (_ <=? 1); [apply (cs_gameState P C)|]; exact H.
Qed.

Lemma calm_enemyBulletHit env i w : P w -> P (enemyBulletHit env i w).
Proof.
  intros H. unfold enemyBulletHit. cbv zeta.
  apply (cs_player P C).
  assert (H1 : P (set_enemyBullets (delete i (enemyBullets w)) w)).
  { revert H. apply (rb_core P R). reflexivity. }
  destruct (Player.shield _).
  - apply quiet_createExplosion; [exact R|]. apply (cs_player P C), H1.
  - destruct (negb _); [|exact H1].
    destruct (_ <=? _); apply (cs_playerHits P C); [|exact H1].
    apply quiet_createExplosion; [exact R|].
    apply (cs_lostLife P C), calm_loseLife, H1.
Qed.

Lemma calm_contactHit env w : P w -> P (contactHit env w).
Proof.
  intros H. unfold contactHit. cbv zeta. apply (cs_player P C).
  destruct (Player.shield _).
  - apply quiet_createExplosion; [exact R|]. apply (cs_player P C), H.
  - destruct (negb _); [|exact H].
    apply quiet_createExplosion; [exact R|].
    apply (cs_lostLife P C), calm_loseLife, H.
Qed.

Lemma calm_countEscape w : P w -> P (countEscape w).
Proof.
  intros H. unfold countEscape. destruct (isGuardianMode w); [|exact H].
  cbv zeta. apply (cs_escaped P C).
  destruct (40 <=? _); [apply (cs_gameState P C)|]; exact H.
Qed.

Lemma calm_tickTimers w : P w -> P (tickTimers w).
Proof.
  intros H. unfold tickTimers. cbv zeta.
  assert (H1 : P (if 0 <? Player.invulnerable (player w)
                  then set_player
                         (Player.set_invulnerable (Player.invulnerable (player w) - 1)
                            (player w)) w
                  else w)).
  { destruct (0 <? _); [apply (cs_player P C)|]; exact H. }
  revert H1. generalize (if 0 <? Player.invulnerable (player w)
                  then set_player
                         (Player.set_invulnerable (Player.invulnerable (player w) - 1)
                            (player w)) w
                  else w).
  intros w1 H1. apply (rb_core P R w1); [|exact H1].
  destruct (0 <? warningTimer w1); reflexivity.
Qed.
End SessionSteps.

(** The tick up to the level-up check. *)
Definition beforeLevelUp (env : Env) (w : World) : World :=
  let lvl := level w in
  let w := tickPlayer w in
  let w := tickShoot env w in
  let w := forEach bullets stepBullet w in
  let w := forEach enemyBullets (stepEnemyBullet env) w in
  let w := tickSpawner env lvl w in
  let w := forEach enemies (stepEnemy env lvl) w in
  let w := tickPowerUpSpawner env w in
  let w := forEach powerUps stepPowerUp w in
  forEach particles stepParticle w.

Lemma update_unfold env w :
  update env w
  = tickTimers (tickSurvivor env (tickLevelUp (level w) (score w) (beforeLevelUp env w))).
Proof. reflexivity. Qed.

(** Predicates that do not read the enemy list or the boss flag: what they
    need to survive the tick up to the level-up check. *)
Section BlindTick.
Variable P : World -> Prop.
Hypothesis R : Robust P.
Hypothesis Hen : forall v w, P w -> P (set_enemies v w).
Hypothesis Hboss : forall v w, P w -> P (set_bossActive v w).
Hypothesis Hhit : forall env i w,
  Player.invulnerable (player w) <= 0 -> P w -> P (enemyBulletHit env i w).
Hypothesis Hcontact : forall env w,
  Player.invulnerable (player w) <= 0 -> P w -> P (contactHit env w).
Hypothesis Hescape : forall w, P w -> P (countEscape w).

Lemma blind_beforeLevelUp env w : P w -> P (beforeLevelUp env w).
Proof.
  intros H. unfold beforeLevelUp. cbv zeta.
  apply quiet_tickParticles; [exact R|].
  apply quiet_tickPowerUps; [exact R|].
  apply quiet_tickPowerUpSpawner; [exact R|].
  apply blind_tickEnemies; auto.
  apply loud_tickSpawner; [exact R| |].
  { intros w'. apply blind_spawnEnemy; auto. }
  apply loud_tickEnemyBullets; auto.
  apply quiet_tickBullets; [exact R|].
  apply quiet_tickShoot; [exact R|].
  apply quiet_tickPlayer; [exact R|].
  exact H.
Qed.

Hypothesis Hlevel : forall v w, P w -> P (set_level v w).

Lemma blind_tickLevelUp lvl sc w : P w -> P (tickLevelUp lvl sc w).
Proof.
  intros H. unfold tickLevelUp. destruct (_ <? _); [|exact H]. cbv zeta.
  assert (H1 : P (if (level w + 1 =? 5) && negb (lostLifeThisRun w)
                  then unlockAchievement "untouchable" w else w)).
  { destruct (_ && _); [apply (rb_unlock P R); [discriminate|]|]; exact H. }
  revert H1. generalize (if (level w + 1 =? 5) && negb (lostLifeThisRun w)
                  then unlockAchievement "untouchable" w else w).
  intros w1 H1.
  apply (Hlevel (level w + 1)), (Hen []) in H1.
  revert H1. apply (rb_core P R). reflexivity.
Qed.
End BlindTick.

(** Predicates that read neither the session fields nor the enemies survive
    the whole tick. *)
Theorem calm_update (P : World -> Prop) :
  Robust P -> CalmSession P ->
  (forall v w, P w -> P (set_enemies v w)) ->
  (forall v w, P w -> P (set_bossActive v w)) ->
  (forall v w, P w -> P (set_level v w)) ->
  forall env w, P w -> P (update env w).
Proof.
  intros R C Hen Hboss Hlevel env w H. rewrite update_unfold.
  apply calm_tickTimers; [exact R|exact C|].
  apply quiet_tickSurvivor; [exact R|].
  apply (blind_tickLevelUp P R Hen Hlevel).
  apply (blind_beforeLevelUp P R Hen Hboss); [| | |exact H].
  - intros env' i w' _. apply calm_enemyBulletHit; assumption.
  - intros env' w' _. apply calm_contactHit; assumption.
  - apply calm_countEscape; assumption.
Qed.

(** ** Reading the fields of [core] *)

Lemma core_fields w w' :
  core w' = core w ->
  lives w' = lives w /\ gameState w' = gameState w /\ playerHits w' = playerHits w
  /\ escapedEnemies w' = escapedEnemies w /\ level w' = level w
  /\ upgrades w' = upgrades w /\ isGuardianMode w' = isGuardianMode w
  /\ enemies w' = enemies w /\ bossActive w' = bossActive w
  /\ Player.invulnerable (player w') = Player.invulnerable (player w)
  /\ bullets w' = bullets w /\ achievements w' = achievements w.
Proof. unfold core. intros [= -> -> -> -> -> -> -> -> -> -> -> ->]. repeat split. Qed.

Ltac world_simpl :=
  cbn [player bullets enemyBullets enemies powerUps particles keys lastShot
       enemySpawnTimer powerUpSpawnTimer frameCount startTime enemiesKilled
       shieldsPicked tripleShotsPicked levelUpPending warningTimer lostLifeThisRun
       bossActive totalCoins upgrades gameState isGuardianMode escapedEnemies score
       sessionCoins lives playerHits level achievements unlockedAchievement draws
       set_player set_bullets set_enemyBullets set_enemies set_powerUps set_particles
       set_keys set_lastShot set_enemySpawnTimer set_powerUpSpawnTimer set_frameCount
       set_startTime set_enemiesKilled set_shieldsPicked set_tripleShotsPicked
       set_levelUpPending set_warningTimer set_lostLifeThisRun set_bossActive
       set_totalCoins set_upgrades set_gameState set_isGuardianMode set_escapedEnemies
       set_score set_sessionCoins set_lives set_playerHits set_level set_achievements
       set_unlockedAchievement set_draws pushBullet
       Player.invulnerable Player.shield Player.set_invulnerable Player.set_shield
       Player.set_tripleShot Player.set_x Player.set_y
       cur held world] in *.

(** Rewrite the fields of [core] of the left-hand world of [H]. *)
Ltac rw_core H :=
  let E := fresh "E" in
  let E1 := fresh "E" in let E2 := fresh "E" in let E3 := fresh "E" in
  let E4 := fresh "E" in let E5 := fresh "E" in let E6 := fresh "E" in
  let E7 := fresh "E" in let E8 := fresh "E" in let E9 := fresh "E" in
  let E10 := fresh "E" in let E11 := fresh "E" in let E12 := fresh "E" in
  pose proof (core_fields _ _ H) as E;
  destruct E as (E1 & E2 & E3 & E4 & E5 & E6 & E7 & E8 & E9 & E10 & E11 & E12);
  rewrite ?E1, ?E2, ?E3, ?E4, ?E5, ?E6, ?E7, ?E8, ?E9, ?E10, ?E11, ?E12;
  clear E1 E2 E3 E4 E5 E6 E7 E8 E9 E10 E11 E12.

Ltac drop_explosion :=
  match goal with
  | |- context [createExplosion ?e ?x ?y ?c ?n ?t ?v] =>
      let Hc := fresh "Hc" in
      let w1 := fresh "w" in
      generalize (core_createExplosion e x y c n t v);
      generalize (createExplosion e x y c n t v);
      intros w1 Hc; world_simpl; rw_core Hc; clear Hc; world_simpl
  end.

Lemma unlockAchievement_shape id w :
  exists l o, unlockAchievement id w = set_achievements l (set_unlockedAchievement o w).
Proof.
  unfold unlockAchievement.
  destruct (list_find _ _) as [[index a]|].
  - destruct (Achievement.unlocked a).
    + exists (achievements w), (unlockedAchievement w). destruct w; reflexivity.
    + eexists _, _. reflexivity.
  - exists (achievements w), (unlockedAchievement w). destruct w; reflexivity.
Qed.

(** ** Lives, hits and the session state inside a tick

    [Mid w0 w] relates the state [w0] before the tick to a state [w] inside
    it.  In guardian mode the lives and the hit counter stand still and the
    session has either fewer than 40 escapes or has ended in
    [GUARDIAN_RESULT]; otherwise at most one life is gone, and once it is
    gone the player is invulnerable for the rest of the tick. *)

Definition Mid (w0 w : World) : Prop :=
  upgrades w = upgrades w0 /\ isGuardianMode w = isGuardianMode w0 /\
  if isGuardianMode w0 then
    lives w = lives w0 /\ playerHits w = playerHits w0 /\
    ((gameState w = PLAYING /\ escapedEnemies w < 40) \/
     (gameState w = GUARDIAN_RESULT /\ 40 <= escapedEnemies w))
  else
    escapedEnemies w = escapedEnemies w0 /\
    0 <= playerHits w < Upgrades.armorStrength (upgrades w0) /\
    ((lives w = lives w0 /\ gameState w = PLAYING) \/
     (lives w = lives w0 - 1 /\ 0 < Player.invulnerable (player w) /\
      gameState w = if lives w0 <=? 1 then GAMEOVER else PLAYING)).

Lemma Mid_core w0 w w' : core w' = core w -> Mid w0 w -> Mid w0 w'.
Proof. intros Hc. unfold Mid. rw_core Hc. tauto. Qed.

Lemma Mid_Robust w0 : Robust (Mid w0).
Proof.
  constructor.
  - intros w w'. apply Mid_core.
  - intros p vx vy w H. exact H.
  - intros i b w _ H. exact H.
  - intros i w H. exact H.
  - intros id w _ H. destruct (unlockAchievement_shape id w) as (l & o & ->). exact H.
Qed.

(** What a resolved enemy-bullet hit does to the session. *)
Lemma enemyBulletHit_fields env i w :
  let w' := enemyBulletHit env i w in
  upgrades w' = upgrades w /\ isGuardianMode w' = isGuardianMode w
  /\ escapedEnemies w' = escapedEnemies w
  /\ Player.invulnerable (player w') = 60
  /\ if Player.shield (player w) || isGuardianMode w then
       lives w' = lives w /\ gameState w' = gameState w /\ playerHits w' = playerHits w
     else if Upgrades.armorStrength (upgrades w) <=? playerHits w + 1 then
       lives w' = lives w - 1 /\ playerHits w' = 0
       /\ gameState w' = (if lives w <=? 1 then GAMEOVER else gameState w)
     else
       lives w' = lives w /\ gameState w' = gameState w
       /\ playerHits w' = playerHits w + 1.
Proof.
  unfold enemyBulletHit. cbv zeta.
  change (isGuardianMode (set_enemyBullets (delete i (enemyBullets w)) w))
    with (isGuardianMode w).
  change (playerHits (set_enemyBullets (delete i (enemyBullets w)) w))
    with (playerHits w).
  change (upgrades (set_enemyBullets (delete i (enemyBullets w)) w))
    with (upgrades w).
  destruct (Player.shield (player w)); cbn [orb].
  - drop_explosion. repeat split.
  - destruct (isGuardianMode w) eqn:G; cbn [negb].
    + world_simpl. repeat split; assumption.
    + destruct (_ <=? _).
      * drop_explosion. unfold loseLife. cbv zeta. world_simpl.
        destruct (lives w <=? 1); world_simpl; repeat split; assumption.
      * world_simpl. repeat split; assumption.
Qed.

(** What a direct contact does to the session. *)
Lemma contactHit_fields env w :
  let w' := contactHit env w in
  upgrades w' = upgrades w /\ isGuardianMode w' = isGuardianMode w
  /\ escapedEnemies w' = escapedEnemies w /\ playerHits w' = playerHits w
  /\ enemies w' = enemies w /\ bossActive w' = bossActive w
  /\ bullets w' = bullets w
  /\ Player.invulnerable (player w') = 120
  /\ if Player.shield (player w) || isGuardianMode w then
       lives w' = lives w /\ gameState w' = gameState w
     else
       lives w' = lives w - 1
       /\ gameState w' = (if lives w <=? 1 then GAMEOVER else gameState w).
Proof.
  unfold contactHit. cbv zeta.
  destruct (Player.shield (player w)); cbn [orb].
  - drop_explosion. repeat split.
  - destruct (isGuardianMode w) eqn:G; cbn [negb].
    + world_simpl. repeat split; assumption.
    + drop_explosion. unfold loseLife. cbv zeta. world_simpl.
      destruct (lives w <=? 1); world_simpl; repeat split; assumption.
Qed.

Lemma Mid_enemyBulletHit w0 env i w :
  Player.invulnerable (player w) <= 0 -> Mid w0 w -> Mid w0 (enemyBulletHit env i w).
Proof.
  intros Hinv (Hu & Hg & H).
  destruct (enemyBulletHit_fields env i w) as (Fu & Fg & Fe & Fi & F).
  unfold Mid. rewrite Fu, Fg, Fe, Fi, Hu, Hg in *.
  split; [reflexivity|]. split; [reflexivity|].
  destruct (isGuardianMode w0).
  - rewrite orb_true_r in F. destruct F as (-> & -> & ->). exact H.
  - rewrite orb_false_r in F.
    destruct H as (He & Hh & [(Hl & Hs)|(Hl & Hi & Hs)]); [|lia].
    split; [exact He|].
    destruct (Player.shield (player w)).
    + destruct F as (-> & -> & ->). auto.
    + destruct (_ <=? _) eqn:Ha; destruct F as (-> & -> & ->).
      * split; [lia|]. right. rewrite Hl, Hs.
        split; [reflexivity|]. split; [lia|]. destruct (lives w0 <=? 1); reflexivity.
      * split; [lia|]. left. auto.
Qed.

Lemma Mid_contactHit w0 env w :
  Player.invulnerable (player w) <= 0 -> Mid w0 w -> Mid w0 (contactHit env w).
Proof.
  intros Hinv (Hu & Hg & H).
  destruct (contactHit_fields env w) as (Fu & Fg & Fe & Fh & _ & _ & _ & Fi & F).
  unfold Mid. rewrite Fu, Fg, Fe, Fh, Fi, Hu, Hg in *.
  split; [reflexivity|]. split; [reflexivity|].
  destruct (isGuardianMode w0).
  - rewrite orb_true_r in F. destruct F as (-> & ->). exact H.
  - rewrite orb_false_r in F.
    destruct H as (He & Hh & [(Hl & Hs)|(Hl & Hi & Hs)]); [|lia].
    split; [exact He|]. split; [exact Hh|].
    destruct (Player.shield (player w)); destruct F as (-> & ->).
    + auto.
    + right. rewrite Hl, Hs.
      split; [reflexivity|]. split; [lia|]. destruct (lives w0 <=? 1); reflexivity.
Qed.

Lemma Mid_countEscape w0 w : Mid w0 w -> Mid w0 (countEscape w).
Proof.
  intros (Hu & Hg & H). unfold countEscape. rewrite Hg.
  destruct (isGuardianMode w0) eqn:G; [|unfold Mid; rewrite G; auto].
  cbv zeta. unfold Mid. rewrite G.
  destruct H as (Hl & Hh & Hs).
  destruct (40 <=? escapedEnemies w + 1) eqn:E; world_simpl.
  - repeat split; auto. right. split; [reflexivity|lia].
  - repeat split; auto. destruct Hs as [(Hs & He)|(Hs & He)]; [left|right]; split; auto; lia.
Qed.

Lemma Mid_beforeLevelUp w0 env w : Mid w0 w -> Mid w0 (beforeLevelUp env w).
Proof.
  apply (blind_beforeLevelUp (Mid w0) (Mid_Robust w0)).
  - intros v w' H. exact H.
  - intros v w' H. exact H.
  - intros env' i w'. apply Mid_enemyBulletHit.
  - intros env' w'. apply Mid_contactHit.
  - apply Mid_countEscape.
Qed.

(** ** Bullets, upgrades and the guardian_hero flag across a tick *)

Definition power_ok (b : Bullet.t) : Prop := (0 <= Bullet.power b)%Q.

(** Every player bullet does non-negative damage. *)
Definition arms_ok (w : World) : Prop :=
  Forall power_ok (bullets w) /\ (0 <= Upgrades.bulletPower (upgrades w))%Q.

Definition heroLocked (w : World) : Prop :=
  Forall (fun a => Achievement.id a = "guardian_hero" -> Achievement.unlocked a = false)
    (achievements w).

Lemma arms_ok_Robust : Robust arms_ok.
Proof.
  constructor.
  - intros w w' Hc. unfold arms_ok. rw_core Hc. tauto.
  - intros p vx vy w [Hb Hu]. split; [|exact Hu].
    unfold pushBullet. world_simpl. apply Forall_app. split; [exact Hb|].
    constructor; [|constructor]. unfold power_ok. simpl. discriminate.
  - intros i b w Hi [Hb Hu]. split; [|exact Hu]. world_simpl.
    apply Forall_insert; [exact Hb|].
    apply (Forall_lookup_1 _ _ _ _ Hb Hi).
  - intros i w [Hb Hu]. split; [|exact Hu]. world_simpl.
    apply Forall_delete. exact Hb.
  - intros id w _ H. destruct (unlockAchievement_shape id w) as (l & o & ->). exact H.
Qed.

Lemma arms_ok_update env w : arms_ok w -> arms_ok (update env w).
Proof.
  apply calm_update; [exact arms_ok_Robust| |intros v w' H; exact H..].
  constructor; intros v w' H; exact H.
Qed.

Lemma heroLocked_unlock id w :
  id <> "guardian_hero" -> heroLocked w -> heroLocked (unlockAchievement id w).
Proof.
  intros Hid H. unfold unlockAchievement.
  destruct (list_find _ _) as [[index a]|] eqn:F; [|exact H].
  destruct (Achievement.unlocked a); [exact H|].
  apply list_find_Some in F. destruct F as (_ & Ha & _).
  unfold heroLocked. world_simpl. apply Forall_insert; [exact H|].
  simpl. intros Hh. congruence.
Qed.

Lemma heroLocked_Robust : Robust heroLocked.
Proof.
  constructor.
  - intros w w' Hc. unfold heroLocked. rw_core Hc. tauto.
  - intros p vx vy w H. exact H.
  - intros i b w _ H. exact H.
  - intros i w H. exact H.
  - apply heroLocked_unlock.
Qed.

Lemma heroLocked_update env w : heroLocked w -> heroLocked (update env w).
Proof.
  apply calm_update; [exact heroLocked_Robust| |intros v w' H; exact H..].
  constructor; intros v w' H; exact H.
Qed.


(** ** The enemy list across a tick *)

Definition hp_ok (e : Enemy.t) : Prop :=
  (0 < Enemy.hp e)%Q /\ (Enemy.hp e <= Enemy.maxHp e)%Q.

Definition not_boss (e : Enemy.t) : Prop := Enemy.type e <> BOSS.

(** While the boss flag is up the list holds at most one enemy; while it is
    down the list holds no boss. *)
Definition boss_inv (w : World) : Prop :=
  (bossActive w = true -> (length (enemies w) <= 1)%nat) /\
  (bossActive w = false -> Forall not_boss (enemies w)).

Definition herd_ok (w : World) : Prop :=
  Forall hp_ok (enemies w) /\ boss_inv w /\ arms_ok w.

Definition herdv (w : World) := (enemies w, bossActive w, bullets w, upgrades w).

Lemma herd_ext w w' : herdv w' = herdv w -> herd_ok w -> herd_ok w'.
Proof.
  unfold herdv. intros [= E1 E2 E3 E4].
  unfold herd_ok, boss_inv, arms_ok. rewrite E1, E2, E3, E4. tauto.
Qed.

Lemma herdv_core w w' : core w' = core w -> herdv w' = herdv w.
Proof. intros Hc. unfold herdv. rw_core Hc. reflexivity. Qed.

Lemma herdv_unlock id w : herdv (unlockAchievement id w) = herdv w.
Proof. destruct (unlockAchievement_shape id w) as (l & o & ->). reflexivity. Qed.

Lemma herd_ok_Robust : Robust herd_ok.
Proof.
  constructor.
  - intros w w' Hc. apply herd_ext, herdv_core, Hc.
  - intros p vx vy w (H1 & H2 & H3). repeat split; try apply H2; try exact H1;
      apply (rb_fire _ arms_ok_Robust p vx vy w H3).
  - intros i b w Hi (H1 & H2 & H3). repeat split; try apply H2; try exact H1;
      apply (rb_move _ arms_ok_Robust i b w Hi H3).
  - intros i w (H1 & H2 & H3). repeat split; try apply H2; try exact H1;
      apply (rb_del _ arms_ok_Robust i w H3).
  - intros id w _. apply herd_ext, herdv_unlock.
Qed.

Lemma herd_ok_CalmSession : CalmSession herd_ok.
Proof. constructor; intros v w H; exact H. Qed.

Lemma length_delete_le {A} (l : list A) (i : nat) :
  (length (delete i l) <= length l)%nat.
Proof.
  revert i. induction l as [|a l IH]; intros [|i]; simpl; try lia.
  specialize (IH i). lia.
Qed.

Lemma herd_delete i w : herd_ok w -> herd_ok (set_enemies (delete i (enemies w)) w).
Proof.
  intros (H1 & (Hb1 & Hb2) & H3). split; [|split; [split|exact H3]]; world_simpl.
  - apply Forall_delete, H1.
  - intros Hb. specialize (Hb1 Hb).
    pose proof (length_delete_le (enemies w) i). lia.
  - intros Hb. apply Forall_delete, Hb2, Hb.
Qed.

Lemma rollEnemy_ok lvl r :
  (0 < Roll.hp (rollEnemy lvl r))%Q /\ Roll.type (rollEnemy lvl r) <> BOSS.
Proof.
  unfold rollEnemy. cbv zeta.
  destruct (_ && _); [|destruct (Qltb 0.75 r); [|destruct (Qltb 0.55 r)]];
    simpl; split; (reflexivity || discriminate).
Qed.

Lemma herd_spawnEnemy env lvl w : 1 <= lvl -> herd_ok w -> herd_ok (spawnEnemy env lvl w).
Proof.
  intros Hl H. unfold spawnEnemy.
  destruct (bossActive w) eqn:B; [exact H|].
  destruct (Z.rem lvl 10 =? 0); cbn [andb]; [destruct (length (enemies w) =? 0)%nat eqn:L|];
    cbn [andb negb]; cbv zeta.
  - apply Nat.eqb_eq in L. destruct (enemies w) eqn:En; [|discriminate].
    destruct H as (H1 & H2 & H3).
    split; [|split; [split|exact H3]]; world_simpl; rewrite En; simpl.
    + constructor; [|constructor]. unfold hp_ok. simpl.
      split; [|apply Qle_refl].
      unfold Qlt. simpl. lia.
    + lia.
    + discriminate.
  - destruct H as (H1 & (Hb1 & Hb2) & H3). cbn [random randomRange]. world_simpl.
    pose proof (rollEnemy_ok lvl (rnd env (draws w))) as [Hhp Hty].
    split; [|split; [split|exact H3]]; world_simpl.
    + apply Forall_app. split; [exact H1|]. constructor; [|constructor].
      split; simpl; [exact Hhp|apply Qle_refl].
    + intros Hb. congruence.
    + intros _. apply Forall_app. split; [apply Hb2, B|].
      constructor; [|constructor]. exact Hty.
  - destruct H as (H1 & (Hb1 & Hb2) & H3). cbn [random randomRange]. world_simpl.
    pose proof (rollEnemy_ok lvl (rnd env (draws w))) as [Hhp Hty].
    split; [|split; [split|exact H3]]; world_simpl.
    + apply Forall_app. split; [exact H1|]. constructor; [|constructor].
      split; simpl; [exact Hhp|apply Qle_refl].
    + intros Hb. congruence.
    + intros _. apply Forall_app. split; [apply Hb2, B|].
      constructor; [|constructor]. exact Hty.
Qed.

(** *** The enemy callback *)

Definition same_stats (e e' : Enemy.t) : Prop :=
  Enemy.type e' = Enemy.type e /\ Enemy.hp e' = Enemy.hp e
  /\ Enemy.maxHp e' = Enemy.maxHp e.

Lemma moveEnemy_stats env e w : same_stats e (moveEnemy env e w).1.
Proof. unfold moveEnemy. split_ifs; repeat split. Qed.

Lemma moveEnemy_core env e w : core (moveEnemy env e w).2 = core w.
Proof. unfold moveEnemy. split_ifs; reflexivity. Qed.

Lemma enemyShoots_stats env lvl e w : same_stats e (enemyShoots env lvl e w).1.
Proof. unfold enemyShoots. cbn [random]. split_ifs; repeat split. Qed.

Lemma enemyShoots_core env lvl e w : core (enemyShoots env lvl e w).2 = core w.
Proof. unfold enemyShoots. cbn [random]. split_ifs; reflexivity. Qed.

Lemma herdv_countEscape w : herdv (countEscape w) = herdv w.
Proof. unfold countEscape. split_ifs; reflexivity. Qed.

Lemma herdv_killEffects env e w :
  herdv (killEffects env e w)
  = (enemies w, if decide (Enemy.type e = BOSS) then false else bossActive w,
     bullets w, upgrades w).
Proof.
  unfold killEffects. destruct (decide (Enemy.type e = BOSS)); cbv zeta.
  - rewrite herdv_unlock.
    rewrite (herdv_core _ _ (core_scatterCoins _ _ _ _ _)).
    rewrite (herdv_core _ _ (core_createExplosion _ _ _ _ _ _ _)).
    reflexivity.
  - match goal with |- context [createExplosion ?a ?x ?y ?c ?n ?t ?v] =>
      generalize (herdv_core _ _ (core_createExplosion a x y c n t v));
      generalize (createExplosion a x y c n t v) end.
    intros w1 H1. cbn [random]. destruct (Qltb _ _).
    + rewrite (herdv_core _ _ (core_spawnPowerUp _ _ _ _ _)). exact H1.
    + exact H1.
Qed.

(** The state of the scan of one enemy: the list is in order, an enemy still
    held by the list is in order and sits at index [i], and a boss that has
    left the list has left no boss behind. *)
Definition ScanInv (i : nat) (s : Scan) : Prop :=
  herd_ok (world s)
  /\ (held s = true ->
      hp_ok (cur s)
      /\ exists e0, enemies (world s) !! i = Some e0
                    /\ Enemy.type e0 = Enemy.type (cur s))
  /\ (held s = false -> Enemy.type (cur s) = BOSS ->
      Forall not_boss (enemies (world s))).

Lemma boss_leaves i (l : list Enemy.t) (b : bool) e0 :
  (b = true -> (length l <= 1)%nat) -> (b = false -> Forall not_boss l) ->
  l !! i = Some e0 -> Enemy.type e0 = BOSS -> Forall not_boss (delete i l).
Proof.
  intros H1 H2 Hi Ht. destruct b.
  - specialize (H1 eq_refl). destruct l as [|a [|a' l]]; simpl in *; try lia.
    + discriminate.
    + destruct i; simpl in *; [constructor|discriminate].
  - specialize (H2 eq_refl). exfalso.
    apply (Forall_lookup_1 _ _ _ _ H2) in Hi. apply Hi, Ht.
Qed.

Lemma ScanInv_contact env i s : ScanInv i s -> ScanInv i (enemyContact env i s).
Proof.
  intros Hs. pose proof Hs as (H & H2 & H3). unfold enemyContact. cbv zeta.
  destruct (_ <=? 0); [|exact Hs].
  destruct (near _ _ _); [|exact Hs].
  destruct (contactHit_fields env (world s)) as (Fu & _ & _ & _ & Fe & Fb & Fbl & _).
  assert (Hh : herd_ok (contactHit env (world s))).
  { revert H. apply herd_ext. unfold herdv. rewrite Fu, Fe, Fb, Fbl. reflexivity. }
  revert Fe Hh. generalize (contactHit env (world s)). intros w1 Fe Hh.
  destruct (decide (Enemy.type (cur s) = BOSS)) as [Hb|Hb].
  - split; [exact Hh|]. cbn [cur held world]. rewrite Fe. split; assumption.
  - split; [apply herd_delete, Hh|]. cbn [cur held world].
    split; [discriminate|]. intros _ Hc. contradiction.
Qed.

Lemma ScanInv_bullet env i b bi s :
  bullets (world s) !! bi = Some b ->
  ScanInv i s -> ScanInv i (bulletHitsEnemy env i b bi s).
Proof.
  intros Hbi Hs. pose proof Hs as (H & H2 & H3). unfold bulletHitsEnemy. cbv zeta.
  destruct (near _ _ _); [|exact Hs].
  set (e' := Enemy.set_hp _ (cur s)).
  assert (Hw1 : herd_ok (set_bullets (delete bi (bullets (world s))) (world s))).
  { apply (rb_del _ herd_ok_Robust), H. }
  destruct (Qle_bool (Enemy.hp e') 0) eqn:Hhp.
  - (* the enemy is destroyed *)
    match goal with |- context [killEffects env e' ?v] =>
      pose proof (herdv_killEffects env e' v) as Hk;
      revert Hk; generalize (killEffects env e' v) end.
    intros K Hk. unfold herdv in Hk. world_simpl.
    injection Hk as Ke Kb Kbl Ku.
    assert (HK : ScanInv i (mkScan e' false (set_enemies (delete i (enemies K)) K))).
    { destruct H as (Hl & (Hb1 & Hb2) & Ha).
      assert (Hdel : Enemy.type e' = BOSS ->
                     Forall not_boss (delete i (enemies (world s)))).
      { intros Ht. destruct (held s) eqn:Hd.
        - destruct (H2 eq_refl) as (_ & e0 & He0 & Hty).
          apply (boss_leaves i _ (bossActive (world s)) e0); auto.
          rewrite Hty. exact Ht.
        - apply Forall_delete, H3; auto. }
      split; [|split]; cbn [cur held world]; world_simpl.
      - split; [|split; [split|split]]; world_simpl; rewrite ?Ke, ?Kb, ?Kbl, ?Ku.
        + apply Forall_delete, Hl.
        + destruct (decide _); [discriminate|]. intros Hb.
          pose proof (length_delete_le (enemies (world s)) i).
          specialize (Hb1 Hb). lia.
        + destruct (decide _) as [Ht|Ht]; [intros _; apply Hdel, Ht|].
          intros Hb. apply Forall_delete, Hb2, Hb.
        + apply Forall_delete, Ha.
        + apply Ha.
      - discriminate.
      - intros _ Ht. rewrite Ke. apply Hdel, Ht. }
    revert HK. generalize (set_enemies (delete i (enemies K)) K). intros w2 HK.
    assert (Hun : forall id w3, ScanInv i (mkScan e' false w3) ->
                           ScanInv i (mkScan e' false (unlockAchievement id w3))).
    { intros id w3 (A1 & A2 & A3). cbn [cur held world] in *.
      pose proof (herdv_unlock id w3) as Hu. split; [|split]; cbn [cur held world].
      - revert A1. apply herd_ext, Hu.
      - discriminate.
      - unfold herdv in Hu. injection Hu as -> _ _ _. exact A3. }
    destruct (_ =? 1).
    + destruct (_ =? 50); [apply Hun|]; apply Hun, HK.
    + destruct (_ =? 50); [apply Hun|]; exact HK.
  - (* the enemy survives the hit *)
    split; [exact Hw1|]. cbn [cur held world]. world_simpl. split.
    + intros Hd. destruct (H2 Hd) as ((Hp1 & Hp2) & e0 & He0 & Hty).
      split; [|exists e0; split; [exact He0|exact Hty]].
      apply Qle_bool_gt in Hhp. split; [exact Hhp|].
      subst e'. cbn [Enemy.hp Enemy.maxHp Enemy.set_hp] in *.
      destruct H as (_ & _ & (Ha1 & Ha2)).
      apply (Forall_lookup_1 _ _ _ _ Ha1) in Hbi. unfold power_ok in Hbi.
      pose proof (Qmult_le_0_compat _ _ Hbi Ha2). lra.
    + intros Hd Ht. apply H3; assumption.
Qed.

Lemma ScanInv_escape i s : ScanInv i s -> ScanInv i (enemyEscape i s).
Proof.
  intros Hs. pose proof Hs as (H & H2 & H3). unfold enemyEscape. cbv zeta.
  destruct (Qltb _ _); [|exact Hs].
  pose proof (herdv_countEscape (set_enemies (delete i (enemies (world s))) (world s)))
    as Hc.
  split; [|split]; cbn [cur held world].
  - apply (herd_ext _ _ Hc), herd_delete, H.
  - discriminate.
  - intros _ Ht. unfold herdv in Hc. injection Hc as -> _ _ _. world_simpl.
    destruct H as (Hl & (Hb1 & Hb2) & Ha).
    destruct (held s) eqn:Hd.
    + destruct (H2 eq_refl) as (_ & e0 & He0 & Hty).
      apply (boss_leaves i _ (bossActive (world s)) e0); auto. congruence.
    + apply Forall_delete, H3; auto.
Qed.

Lemma herd_stepEnemy env lvl e i w :
  enemies w !! i = Some e -> herd_ok w -> herd_ok (stepEnemy env lvl e i w).
Proof.
  intros Hi H. unfold stepEnemy.
  pose proof (moveEnemy_stats env e w) as S1.
  pose proof (moveEnemy_core env e w) as C1.
  destruct (moveEnemy env e w) as [e1 w1]. cbn [fst snd] in S1, C1.
  pose proof (enemyShoots_stats env lvl e1 w1) as S2.
  pose proof (enemyShoots_core env lvl e1 w1) as C2.
  destruct (enemyShoots env lvl e1 w1) as [e2 w2]. cbn [fst snd] in S2, C2.
  cbv zeta.
  assert (H0 : ScanInv i (mkScan e2 true w2)).
  { apply herdv_core in C1, C2.
    assert (Hw2 : herd_ok w2) by (apply (herd_ext _ _ C2), (herd_ext _ _ C1), H).
    split; [exact Hw2|]. cbn [cur held world]. split; [|discriminate].
    intros _. destruct S1 as (T1 & P1 & M1), S2 as (T2 & P2 & M2).
    destruct H as (Hl & _). apply (Forall_lookup_1 _ _ _ _ Hl) in Hi as Hok.
    split.
    - unfold hp_ok in *. rewrite P2, P1, M2, M1. exact Hok.
    - exists e. unfold herdv in C1, C2.
      injection C1 as E1 _ _ _. injection C2 as E2 _ _ _.
      rewrite E2, E1. split; [exact Hi|congruence]. }
  apply (ScanInv_contact env i) in H0. revert H0.
  generalize (enemyContact env i (mkScan e2 true w2)). intros s1 H1.
  assert (Hs2 : ScanInv i (forEach (fun s => bullets (world s))
                             (bulletHitsEnemy env i) s1)).
  { apply (forEach_ind _ _ (ScanInv i)); [|exact H1].
    intros b k s Hk. apply ScanInv_bullet, Hk. }
  revert Hs2. generalize (forEach (fun s => bullets (world s))
                            (bulletHitsEnemy env i) s1).
  intros s2 Hs2. apply ScanInv_escape in Hs2.
  revert Hs2. generalize (enemyEscape i s2). intros s3 (Hh & Hd & _).
  destruct (held s3); [|exact Hh].
  destruct (Hd eq_refl) as (Hok & e0 & He0 & Hty).
  destruct Hh as (Hl & (Hb1 & Hb2) & Ha).
  split; [|split; [split|exact Ha]]; world_simpl.
  - apply Forall_insert; assumption.
  - rewrite length_insert. exact Hb1.
  - intros Hb. apply Forall_insert; [apply Hb2, Hb|].
    specialize (Hb2 Hb). apply (Forall_lookup_1 _ _ _ _ Hb2) in He0.
    unfold not_boss in *. congruence.
Qed.

Lemma herd_beforeLevelUp env w : 1 <= level w -> herd_ok w -> herd_ok (beforeLevelUp env w).
Proof.
  intros Hl H. unfold beforeLevelUp. cbv zeta.
  apply quiet_tickParticles; [exact herd_ok_Robust|].
  apply quiet_tickPowerUps; [exact herd_ok_Robust|].
  apply quiet_tickPowerUpSpawner; [exact herd_ok_Robust|].
  apply forEach_ind; [intros e k s; apply herd_stepEnemy|].
  apply loud_tickSpawner; [exact herd_ok_Robust| |].
  { intros w'. apply herd_spawnEnemy, Hl. }
  apply loud_tickEnemyBullets; [exact herd_ok_Robust| |].
  { intros env' i w' _.
    apply calm_enemyBulletHit; [exact herd_ok_Robust|exact herd_ok_CalmSession]. }
  apply quiet_tickBullets; [exact herd_ok_Robust|].
  apply quiet_tickShoot; [exact herd_ok_Robust|].
  apply quiet_tickPlayer; [exact herd_ok_Robust|].
  exact H.
Qed.

Lemma herd_update env w : 1 <= level w -> herd_ok w -> herd_ok (update env w).
Proof.
  intros Hl H. rewrite update_unfold.
  apply calm_tickTimers; [exact herd_ok_Robust|exact herd_ok_CalmSession|].
  apply quiet_tickSurvivor; [exact herd_ok_Robust|].
  apply (herd_beforeLevelUp env) in H; [|exact Hl].
  revert H. generalize (beforeLevelUp env w). intros w1 H.
  unfold tickLevelUp. destruct (_ <? _); [|exact H]. cbv zeta.
  assert (H1 : herd_ok (if (level w1 + 1 =? 5) && negb (lostLifeThisRun w1)
                        then unlockAchievement "untouchable" w1 else w1)).
  { destruct (_ && _); [|exact H].
    apply (rb_unlock _ herd_ok_Robust); [discriminate|exact H]. }
  revert H1. generalize (if (level w1 + 1 =? 5) && negb (lostLifeThisRun w1)
                        then unlockAchievement "untouchable" w1 else w1).
  intros w2 (Hl2 & (Hb1 & Hb2) & Ha).
  split; [|split; [split|exact Ha]]; world_simpl.
  - constructor.
  - simpl. lia.
  - constructor.
Qed.

(** ** What a whole tick does to the level and the session *)

Definition sess (w : World) :=
  (lives w, gameState w, playerHits w, escapedEnemies w, upgrades w,
   isGuardianMode w, level w, enemies w, enemyBullets w).

Lemma sess_fields w w' :
  sess w' = sess w ->
  lives w' = lives w /\ gameState w' = gameState w /\ playerHits w' = playerHits w
  /\ escapedEnemies w' = escapedEnemies w /\ upgrades w' = upgrades w
  /\ isGuardianMode w' = isGuardianMode w /\ level w' = level w
  /\ enemies w' = enemies w /\ enemyBullets w' = enemyBullets w.
Proof. unfold sess. intros [= -> -> -> -> -> -> -> -> ->]. repeat split. Qed.

Lemma sess_tickTimers w : sess (tickTimers w) = sess w.
Proof. unfold tickTimers. split_ifs; reflexivity. Qed.

Lemma sess_tickSurvivor env w : sess (tickSurvivor env w) = sess w.
Proof.
  unfold tickSurvivor. destruct (_ <? _); [|reflexivity].
  destruct (unlockAchievement_shape "survivor" w) as (l & o & ->). reflexivity.
Qed.

(** The last two steps of the tick. *)
Lemma tick_tail env w :
  let w' := tickTimers (tickSurvivor env w) in
  lives w' = lives w /\ gameState w' = gameState w /\ playerHits w' = playerHits w
  /\ escapedEnemies w' = escapedEnemies w /\ upgrades w' = upgrades w
  /\ isGuardianMode w' = isGuardianMode w /\ level w' = level w
  /\ enemies w' = enemies w /\ enemyBullets w' = enemyBullets w.
Proof.
  cbv zeta. apply sess_fields.
  rewrite sess_tickTimers. apply sess_tickSurvivor.
Qed.

Lemma level_Robust c : Robust (fun w => level w = c).
Proof.
  constructor; try (intros; assumption).
  - intros w1 w2 Hc. rw_core Hc. tauto.
  - intros id w _ H. destruct (unlockAchievement_shape id w) as (l & o & ->). exact H.
Qed.

Lemma level_CalmSession c : CalmSession (fun w => level w = c).
Proof. constructor; intros v w H; exact H. Qed.

Lemma level_beforeLevelUp env w : level (beforeLevelUp env w) = level w.
Proof.
  apply (blind_beforeLevelUp (fun w' => level w' = level w) (level_Robust _));
    [intros v w' H; exact H|intros v w' H; exact H| | | |reflexivity].
  - intros env' i w' _.
    apply (calm_enemyBulletHit _ (level_Robust (level w)) (level_CalmSession _)).
  - intros env' w' _.
    apply (calm_contactHit _ (level_Robust (level w)) (level_CalmSession _)).
  - apply (calm_countEscape _ (level_CalmSession (level w))).
Qed.

(** The level-up check, on the rendered level and score. *)
Lemma tickLevelUp_fields lvl sc w :
  let w' := tickLevelUp lvl sc w in
  lives w' = lives w /\ gameState w' = gameState w /\ playerHits w' = playerHits w
  /\ escapedEnemies w' = escapedEnemies w /\ upgrades w' = upgrades w
  /\ isGuardianMode w' = isGuardianMode w
  /\ Player.invulnerable (player w') = Player.invulnerable (player w)
  /\ if lvl * 2000 <? sc
     then level w' = level w + 1 /\ enemies w' = [] /\ enemyBullets w' = []
     else w' = w.
Proof.
  unfold tickLevelUp. destruct (_ <? _); [|repeat split]. cbv zeta.
  destruct (_ && _); [|repeat split].
  destruct (unlockAchievement_shape "untouchable" w) as (l & o & ->). repeat split.
Qed.

Theorem update_level env w :
  level (update env w) = if level w * 2000 <? score w then level w + 1 else level w.
Proof.
  rewrite update_unfold.
  destruct (tick_tail env (tickLevelUp (level w) (score w) (beforeLevelUp env w)))
    as (_ & _ & _ & _ & _ & _ & -> & _).
  destruct (tickLevelUp_fields (level w) (score w) (beforeLevelUp env w))
    as (_ & _ & _ & _ & _ & _ & _ & H).
  destruct (_ <? _).
  - destruct H as (-> & _). rewrite level_beforeLevelUp. reflexivity.
  - rewrite H. apply level_beforeLevelUp.
Qed.

Theorem update_clears env w :
  level w * 2000 < score w ->
  enemies (update env w) = [] /\ enemyBullets (update env w) = [].
Proof.
  intros Hs. rewrite update_unfold.
  destruct (tick_tail env (tickLevelUp (level w) (score w) (beforeLevelUp env w)))
    as (_ & _ & _ & _ & _ & _ & _ & -> & ->).
  destruct (tickLevelUp_fields (level w) (score w) (beforeLevelUp env w))
    as (_ & _ & _ & _ & _ & _ & _ & H).
  apply Z.ltb_lt in Hs. rewrite Hs in H. tauto.
Qed.

(** The session after a tick that started in [w0]: as [Mid], without the
    invulnerability, which the end of the tick counts down. *)
Definition Post (w0 w : World) : Prop :=
  upgrades w = upgrades w0 /\ isGuardianMode w = isGuardianMode w0 /\
  if isGuardianMode w0 then
    lives w = lives w0 /\ playerHits w = playerHits w0 /\
    ((gameState w = PLAYING /\ escapedEnemies w < 40) \/
     (gameState w = GUARDIAN_RESULT /\ 40 <= escapedEnemies w))
  else
    escapedEnemies w = escapedEnemies w0 /\
    0 <= playerHits w < Upgrades.armorStrength (upgrades w0) /\
    ((lives w = lives w0 /\ gameState w = PLAYING) \/
     (lives w = lives w0 - 1 /\
      gameState w = if lives w0 <=? 1 then GAMEOVER else PLAYING)).

Lemma Mid_start w :
  gameState w = PLAYING ->
  (isGuardianMode w = true -> escapedEnemies w < 40) ->
  0 <= playerHits w < Upgrades.armorStrength (upgrades w) ->
  Mid w w.
Proof.
  intros Hs Hg Hh. unfold Mid. split; [reflexivity|]. split; [reflexivity|].
  destruct (isGuardianMode w).
  - split; [reflexivity|]. split; [reflexivity|]. left. auto.
  - split; [reflexivity|]. split; [exact Hh|]. left. auto.
Qed.

Theorem update_session env w :
  gameState w = PLAYING ->
  (isGuardianMode w = true -> escapedEnemies w < 40) ->
  0 <= playerHits w < Upgrades.armorStrength (upgrades w) ->
  Post w (update env w).
Proof.
  intros Hs Hg Hh. rewrite update_unfold.
  pose proof (Mid_beforeLevelUp w env w (Mid_start w Hs Hg Hh)) as H.
  revert H. generalize (beforeLevelUp env w). intros w1 H.
  destruct (tick_tail env (tickLevelUp (level w) (score w) w1))
    as (E1 & E2 & E3 & E4 & E5 & E6 & _).
  destruct (tickLevelUp_fields (level w) (score w) w1)
    as (G1 & G2 & G3 & G4 & G5 & G6 & _).
  unfold Post. rewrite E1, E2, E3, E4, E5, E6, G1, G2, G3, G4, G5, G6.
  destruct H as (Hu & Hgm & H). split; [exact Hu|]. split; [exact Hgm|].
  destruct (isGuardianMode w); [exact H|].
  destruct H as (He & Hhits & [Hl|(Hl & _ & Hgs)]); auto.
Qed.

(** ** The invariant of the session *)

(** Upgrades as the defaults and the upgrade screen produce them. *)
Definition wf_upgrades (u : Upgrades.t) : Prop :=
  1 <= Upgrades.maxLives u /\ 1 <= Upgrades.armorStrength u
  /\ (0 <= Upgrades.bulletPower u)%Q.

Definition running (w : World) : Prop :=
  gameState w = PLAYING \/ gameState w = PAUSED.

Record Inv (w : World) : Prop := {
  inv_up : wf_upgrades (upgrades w);
  inv_level : 1 <= level w;
  inv_herd : herd_ok w;
  inv_hits : 0 <= playerHits w < Upgrades.armorStrength (upgrades w);
  inv_lives : 0 <= lives w;
  inv_alive : running w -> 1 <= lives w;
  inv_guard : running w -> isGuardianMode w = true -> escapedEnemies w < 40;
  inv_hero : heroLocked w
}.

Lemma Inv_core w w' : core w' = core w -> Inv w -> Inv w'.
Proof.
  intros Hc [H1 H2 H3 H4 H5 H6 H7 H8].
  pose proof (herd_ext _ _ (herdv_core _ _ Hc) H3) as H3'.
  assert (H8' : heroLocked w').
  { revert H8. unfold heroLocked. rw_core Hc. tauto. }
  unfold running in *.
  constructor; try assumption; unfold running; revert H1 H2 H4 H5 H6 H7;
    rw_core Hc; tauto.
Qed.

Lemma herd_ok_empty w :
  enemies w = [] -> bullets w = [] -> (0 <= Upgrades.bulletPower (upgrades w))%Q ->
  herd_ok w.
Proof.
  intros He Hb Hp. unfold herd_ok, boss_inv, arms_ok. rewrite He, Hb.
  repeat split; try constructor; try exact Hp. simpl. lia.
Qed.

Lemma Inv_initial coins up : wf_upgrades up -> Inv (initial coins up).
Proof.
  intros Hu. pose proof Hu as (H1 & H2 & H3).
  constructor.
  - exact Hu.
  - simpl. lia.
  - apply herd_ok_empty; [reflexivity|reflexivity|exact H3].
  - simpl. lia.
  - simpl. lia.
  - simpl. lia.
  - intros [?|?]; discriminate.
  - unfold heroLocked. simpl. repeat constructor.
Qed.

Lemma Inv_startGame clickNow guardian w : Inv w -> Inv (startGame clickNow guardian w).
Proof.
  intros H. unfold startGame.
  destruct (guardian && _); [exact H|].
  destruct H as [Hu H2 (_ & _ & _ & Hbp) H4 H5 H6 H7 H8].
  pose proof Hu as (U1 & U2 & U3).
  destruct guardian; cbv zeta; world_simpl.
  - constructor; world_simpl.
    + exact Hu.
    + lia.
    + apply herd_ok_empty; [reflexivity|reflexivity|exact Hbp].
    + lia.
    + lia.
    + lia.
    + lia.
    + exact H8.
  - constructor; world_simpl.
    + exact Hu.
    + lia.
    + apply herd_ok_empty; [reflexivity|reflexivity|exact Hbp].
    + lia.
    + lia.
    + lia.
    + discriminate.
    + exact H8.
Qed.

Lemma Inv_gameState g w :
  Inv w -> (g = PLAYING \/ g = PAUSED -> running w) -> Inv (set_gameState g w).
Proof.
  intros [H1 H2 H3 H4 H5 H6 H7 H8] Hg.
  constructor; unfold running; world_simpl; auto.
Qed.

Lemma Inv_togglePause w : Inv w -> Inv (togglePause w).
Proof.
  intros H. unfold togglePause.
  destruct (gameState w) eqn:G; try exact H;
    apply Inv_gameState; try exact H; intros _; unfold running; auto.
Qed.

Lemma Inv_buy item w : gameState w = UPGRADE -> Inv w -> Inv (buy item w).
Proof.
  intros G [(U1 & U2 & U3) H2 (Hl & Hb & Hp & Hbp) H4 H5 H6 H7 H8].
  assert (Hrun : ~ running w) by (unfold running; rewrite G; intros [?|?]; discriminate).
  unfold buy. cbv zeta.
  destruct item; destruct (_ || _);
    try (constructor; unfold running, wf_upgrades, herd_ok, boss_inv, arms_ok in *;
         world_simpl; repeat split; auto; simpl; try lia; tauto).
  constructor; unfold running, wf_upgrades, herd_ok, boss_inv, arms_ok in *;
    world_simpl; repeat split; auto; simpl; try lia; try tauto; lra.
Qed.

Lemma Inv_update env w : gameState w = PLAYING -> Inv w -> Inv (update env w).
Proof.
  intros G [H1 H2 H3 H4 H5 H6 H7 H8].
  assert (Hrun : running w) by (left; exact G).
  pose proof (update_session env w G (H7 Hrun) H4) as (Pu & Pg & P).
  pose proof (update_level env w) as Hlv.
  constructor.
  - rewrite Pu. exact H1.
  - rewrite Hlv. destruct (_ <? _); lia.
  - apply herd_update; assumption.
  - rewrite Pu. destruct (isGuardianMode w); [destruct P as (_ & -> & _); exact H4|].
    apply P.
  - specialize (H6 Hrun). destruct (isGuardianMode w).
    + destruct P as (-> & _). lia.
    + destruct P as (_ & _ & [(-> & _)|(-> & _)]); lia.
  - unfold running. intros R. specialize (H6 Hrun). destruct (isGuardianMode w).
    + destruct P as (-> & _). lia.
    + destruct P as (_ & _ & [(-> & _)|(-> & Hgs)]); [lia|].
      destruct (lives w <=? 1) eqn:L; [|apply Z.leb_gt in L; lia].
      rewrite Hgs in R. destruct R; discriminate.
  - unfold running. rewrite Pg. intros R Hg. rewrite Hg in P.
    destruct P as (_ & _ & [(_ & He)|(Hgs & _)]); [exact He|].
    rewrite Hgs in R. destruct R; discriminate.
  - apply heroLocked_update, H8.
Qed.

Lemma Inv_handle ev w : Inv w -> Inv (handle ev w).
Proof.
  intros H. destruct ev; cbn [handle].
  - destruct (decide _); [apply Inv_update; assumption|exact H].
  - destruct (decide _); [apply Inv_startGame|]; exact H.
  - destruct (decide _); [apply Inv_startGame|]; exact H.
  - destruct (hudShown w); [apply Inv_togglePause|]; exact H.
  - destruct (decide _); [|exact H].
    apply Inv_gameState; [exact H|]. intros [?|?]; discriminate.
  - destruct (_ || _); [|exact H].
    apply Inv_gameState; [exact H|]. intros [?|?]; discriminate.
  - destruct (decide _); [|exact H]. unfold claimReward.
    apply Inv_gameState; [|intros [?|?]; discriminate].
    revert H. apply Inv_core. reflexivity.
  - destruct (decide _); [apply Inv_buy; assumption|exact H].
  - cbv zeta. destruct (decide _).
    + apply Inv_togglePause. revert H. apply Inv_core. reflexivity.
    + revert H. apply Inv_core. reflexivity.
  - revert H. apply Inv_core. reflexivity.
  - destruct (decide _); [|exact H]. revert H. apply Inv_core. reflexivity.
  - revert H. apply Inv_core. reflexivity.
  - cbn [randomRange random]. revert H. apply Inv_core.
    rewrite core_createExplosion. reflexivity.
  - revert H. apply Inv_core. reflexivity.
  - revert H. apply Inv_core. reflexivity.
Qed.

Theorem reachable_Inv coins up w : wf_upgrades up -> reachable coins up w -> Inv w.
Proof.
  intros Hu Hr. induction Hr as [|ev w Hr IH].
  - apply Inv_initial, Hu.
  - apply Inv_handle, IH.
Qed.

(** ** Persistence: [localStorage]

    [JSON.stringify] and [JSON.parse] on the upgrades record are taken as
    given; [parseInt] reads an optional sign, an optional [0x] and the longest
    run of digits, and answers [None] for [NaN]. *)

Definition isWhiteSpace (c : ascii) : bool :=
  let n := nat_of_ascii c in
  (n =? 32)%nat || ((9 <=? n)%nat && (n <=? 13)%nat).

Fixpoint trimStart (s : string) : string :=
  match s with
  | String c s' => if isWhiteSpace c then trimStart s' else s
  | EmptyString => s
  end.

Definition digitValue (c : ascii) : option Z :=
  let n := Z.of_nat (nat_of_ascii c) in
  if (48 <=? n) && (n <=? 57) then Some (n - 48)
  else if (97 <=? n) && (n <=? 122) then Some (n - 87)
  else if (65 <=? n) && (n <=? 90) then Some (n - 55)
  else None.

Fixpoint readDigits (radix : Z) (s : string) (acc : option Z) : option Z :=
  match s with
  | String c s' =>
      match digitValue c with
      | Some d =>
          if d <? radix then readDigits radix s' (Some (default 0 acc * radix + d))
          else acc
      | None => acc
      end
  | EmptyString => acc
  end.

Definition parseInt (s : string) : option Z :=
  let s := trimStart s in
  let '(sign, s) :=
    match s with
    | String "-" s' => (-1, s')
    | String "+" s' => (1, s')
    | _ => (1, s)
    end in
  let '(radix, s) :=
    match s with
    | String "0" (String "x" s') => (16, s')
    | String "0" (String "X" s') => (16, s')
    | _ => (10, s)
    end in
  Z.mul sign <$> readDigits radix s None.

(** [n.toString()] for an integer. *)
Definition toString (n : Z) : string := NilZero.string_of_int (Z.to_int n).

(** The initializer of [totalCoins]:
    [saved ? parseInt(saved) : 0] on [localStorage.getItem('tina_coins')]. *)
Definition loadCoins (ls : gmap string string) : option Z :=
  match ls !! "tina_coins" with
  | Some saved => if decide (saved = "") then Some 0 else parseInt saved
  | None => Some 0
  end.

Section Persistence.
Variable stringify : Upgrades.t -> string.
Variable parse : string -> Upgrades.t.


(** The effect that saves the persistent data. *)
Definition persist (w : World) (ls : gmap string string) : gmap string string :=
  let ls := <["karl_coins" := toString (totalCoins w)]> ls in
  <["karl_upgrades" := stringify (upgrades w)]> ls.
End Persistence.

(** ** The type roll as a distribution

    The roll is uniform on [0, 1).  The rolls that select one type form an
    interval; the probability of the type is the length of the interval, the
    end points being of no weight. *)

Definition rolls (level : Z) (k : EnemyType) (r : Q) : Prop :=
  (0 <= r)%Q /\ (r < 1)%Q /\ Roll.type (rollEnemy level r) = k.

Definition interval_of (S : Q -> Prop) (lo hi : Q) : Prop :=
  (0 <= lo)%Q /\ (lo <= hi)%Q /\ (hi <= 1)%Q
  /\ (forall r, (lo < r)%Q -> (r < hi)%Q -> S r)
  /\ (forall r, S r -> (lo <= r)%Q /\ (r <= hi)%Q).

Definition probability (S : Q -> Prop) (p : Q) : Prop :=
  exists lo hi, interval_of S lo hi /\ (hi - lo == p)%Q.

(** The number of bosses in the list. *)
Definition bossCount (w : World) : nat :=
  length (filter (fun e => Enemy.type e = BOSS) (enemies w)).

(** ** Scenes *)

Definition quietEnv (t : Z) : Env := mkEnv (fun _ => 0.5%Q) t t t.

Definition freshGame : World := startGame 0 false (initial 0 defaultUpgrades).

Definition basicAt (id x y : Q) : Enemy.t :=
  Enemy.mk id x y BASIC 1 1 2.2 100 40 40 0 None None.

(** The player at (400, 520) holds the fire key; one enemy is 36 above, another
    far away at the top left. *)
Definition sceneAbove (tripleShot : Z) (y : Q) : World :=
  let w := freshGame in
  let w := set_player (Player.set_tripleShot tripleShot (Player.set_y 520 (player w))) w in
  let w := set_keys (<["Space" := true]> (keys w)) w in
  set_enemies [basicAt 1 400 y; basicAt 2 100 50] w.

Definition guardianGame : World := startGame 0 true (initial 1000 defaultUpgrades).

(** * The claims *)

Lemma wf_defaultUpgrades : wf_upgrades defaultUpgrades.
Proof. unfold wf_upgrades. simpl. repeat split; try lia. discriminate. Qed.

(** C1.  The scans do not tolerate the removals made inside them.  With the
    triple shot on and an enemy (1 hp, 100 points) 36 above the player, one
    tick fires three bullets; the first destroys the enemy, the removal of
    that bullet makes the scan step over the second, and the third hits the
    destroyed enemy again: its score is added twice, the kill counter goes up
    by two, and the second removal takes a bystander, far away at the top
    left, out of the list. *)
Theorem scan_double_kill :
  let w := sceneAbove 30 484 in
  let w' := update (quietEnv 1000) w in
  map Enemy.id (enemies w) = [1%Q; 2%Q] /\ score w = 0 /\ enemiesKilled w = 0
  /\ score w' = 200 /\ enemiesKilled w' = 2 /\ enemies w' = [].
Proof. vm_compute. repeat split. Qed.

(** Two more faces of the same defect.  An enemy destroyed by contact (one
    life lost) is still hit by the bullet fired in the same tick: its score is
    awarded and the bystander is removed in its place. *)
Lemma scan_contact_then_bullet :
  let w := sceneAbove 0 490 in
  let w' := update (quietEnv 1000) w in
  lives w = 3 /\ lives w' = 2 /\ score w' = 100 /\ enemiesKilled w' = 1
  /\ enemies w' = [].
Proof. vm_compute. repeat split. Qed.

(** An enemy that follows a destroyed one in the list is stepped over: it
    does not move in that tick. *)
Lemma scan_skips_successor :
  let w := sceneAbove 0 484 in
  let w' := update (quietEnv 1000) w in
  enemies w' = [basicAt 2 100 50] /\ score w' = 100.
Proof. vm_compute. repeat split. Qed.


Definition demoGame : World := handle (Frame (quietEnv 1000)) (handle (ClickStart 0 false) (initial 0 defaultUpgrades)).

Lemma demoGame_reachable : reachable 0 defaultUpgrades demoGame.
Proof. unfold demoGame. do 2 apply reach_handle. apply reach_initial. Qed.



(** The scene of the spec: armour 5, four hits taken, three lives. *)
Definition hitScene : World :=
  set_enemyBullets [Bullet.mk 400 510 0 5 1 true] (set_playerHits 4 freshGame).


(** The scenario as a run: armour 5, [playerHits] 4, one enemy bullet lands. *)
Lemma fifth_hit_takes_a_life :
  let w' := update (quietEnv 1000) hitScene in
  playerHits hitScene = 4 /\ lives hitScene = 3
  /\ playerHits w' = 0 /\ lives w' = 2 /\ gameState w' = PLAYING.
Proof. vm_compute. repeat split. Qed.



Lemma no_boss_count (l : list Enemy.t) :
  Forall not_boss l -> length (filter (fun e => Enemy.type e = BOSS) l) = 0%nat.
Proof.
  induction 1 as [|e l He Hl IH]; [reflexivity|].
  rewrite filter_cons. destruct (decide _); [contradiction|exact IH].
Qed.

(** C5.  In every reachable state the list holds at most one boss; while a
    boss is in the list, or the boss flag is up, [spawnEnemy] spawns nothing;
    and [spawnEnemy] spawns a boss (one, with the boss flag set) exactly when
    the level is a multiple of 10, the list is empty and the boss flag is
    down: otherwise it leaves the flag alone and adds at most one enemy, which
    is no boss. *)
Theorem single_boss coins up w :
  wf_upgrades up -> reachable coins up w ->
  (bossCount w <= 1)%nat
  /\ (forall env lvl,
        bossActive w = true \/ bossCount w = 1%nat -> spawnEnemy env lvl w = w)
  /\ forall env lvl,
       if (Z.rem lvl 10 =? 0) && (length (enemies w) =? 0)%nat && negb (bossActive w)
       then exists e, enemies (spawnEnemy env lvl w) = [e] /\ Enemy.type e = BOSS
                      /\ bossActive (spawnEnemy env lvl w) = true
       else bossActive (spawnEnemy env lvl w) = bossActive w
            /\ (enemies (spawnEnemy env lvl w) = enemies w
                \/ exists e, enemies (spawnEnemy env lvl w) = enemies w ++ [e]
                             /\ Enemy.type e <> BOSS).
Proof.
  intros Hu Hr. pose proof (reachable_Inv coins up w Hu Hr) as I.
  destruct (inv_herd w I) as (_ & (Hb1 & Hb2) & _).
  assert (Hflag : bossActive w = false -> bossCount w = 0%nat).
  { intros B. apply no_boss_count, Hb2, B. }
  split; [|split].
  - destruct (bossActive w) eqn:B; [|rewrite Hflag; auto].
    specialize (Hb1 eq_refl). unfold bossCount.
    pose proof (length_filter (fun e => Enemy.type e = BOSS) (enemies w)). lia.
  - intros env lvl [B|B].
    + unfold spawnEnemy. rewrite B. reflexivity.
    + unfold spawnEnemy. destruct (bossActive w) eqn:Ba; [reflexivity|].
      rewrite Hflag in B; [discriminate|reflexivity].
  - intros env lvl. unfold spawnEnemy.
    destruct (bossActive w) eqn:B.
    + rewrite andb_false_r. auto.
    + rewrite andb_true_r.
      destruct (Z.rem lvl 10 =? 0); cbn [andb];
        [destruct (length (enemies w) =? 0)%nat eqn:L|]; cbv zeta.
      * apply Nat.eqb_eq in L. destruct (enemies w) eqn:En; [|discriminate].
        eexists. world_simpl. rewrite En. split; [reflexivity|]. split; reflexivity.
      * cbn [random randomRange]. world_simpl. split; [exact B|]. right.
        eexists. split; [reflexivity|]. apply rollEnemy_ok.
      * cbn [random randomRange]. world_simpl. split; [exact B|]. right.
        eexists. split; [reflexivity|]. apply rollEnemy_ok.
Qed.

Lemma single_boss_witness :
  (bossCount demoGame <= 1)%nat
  /\ (forall env lvl,
        bossActive demoGame = true \/ bossCount demoGame = 1%nat ->
        spawnEnemy env lvl demoGame = demoGame)
  /\ forall env lvl,
       if (Z.rem lvl 10 =? 0) && (length (enemies demoGame) =? 0)%nat
          && negb (bossActive demoGame)
       then exists e, enemies (spawnEnemy env lvl demoGame) = [e]
                      /\ Enemy.type e = BOSS
                      /\ bossActive (spawnEnemy env lvl demoGame) = true
       else bossActive (spawnEnemy env lvl demoGame) = bossActive demoGame
            /\ (enemies (spawnEnemy env lvl demoGame) = enemies demoGame
                \/ exists e, enemies (spawnEnemy env lvl demoGame)
                             = enemies demoGame ++ [e]
                             /\ Enemy.type e <> BOSS).
Proof.
  apply (single_boss 0 defaultUpgrades demoGame).
  - unfold wf_upgrades. simpl. repeat split; try lia. discriminate.
  - unfold demoGame. do 2 apply reach_handle. apply reach_initial.
Defined.


Definition guardianDemo : World :=
  handle (ClickStart 0 true) (initial 1000 defaultUpgrades).


(** The 40th escape ends a guardian session; the 39th does not. *)
Definition escapeScene (escaped : Z) : World :=
  set_enemies [basicAt 1 400 640] (set_escapedEnemies escaped guardianGame).

Lemma fortieth_escape :
  gameState (update (quietEnv 1000) (escapeScene 38)) = PLAYING
  /\ escapedEnemies (update (quietEnv 1000) (escapeScene 38)) = 39
  /\ gameState (update (quietEnv 1000) (escapeScene 39)) = GUARDIAN_RESULT
  /\ escapedEnemies (update (quietEnv 1000) (escapeScene 39)) = 40.
Proof. vm_compute. repeat split. Qed.

(** C7.  A tick that starts with [score > level * 2000] raises the level by
    one and leaves the enemy list and the enemy-bullet list empty; no tick
    lowers the level. *)
Theorem level_up env w :
  (level w * 2000 < score w ->
   level (update env w) = level w + 1
   /\ enemies (update env w) = [] /\ enemyBullets (update env w) = [])
  /\ level w <= level (update env w).
Proof.
  pose proof (update_level env w) as Hl. split.
  - intros Hs. pose proof (update_clears env w Hs) as Hc.
    apply Z.ltb_lt in Hs. rewrite Hs in Hl. tauto.
  - rewrite Hl. destruct (_ <? _); lia.
Qed.

(** Level 1, score exactly 2001, enemies and enemy bullets on screen. *)
Definition levelScene : World :=
  set_enemyBullets [Bullet.mk 100 100 0 5 1 true]
    (set_enemies [basicAt 1 100 50; basicAt 2 300 80] (set_score 2001 freshGame)).

Lemma level_up_witness :
  level levelScene = 1 /\ score levelScene = 2001
  /\ level (update (quietEnv 1000) levelScene) = 2
  /\ enemies (update (quietEnv 1000) levelScene) = []
  /\ enemyBullets (update (quietEnv 1000) levelScene) = [].
Proof.
  split; [reflexivity|]. split; [reflexivity|].
  apply (proj1 (level_up (quietEnv 1000) levelScene)).
  vm_compute. reflexivity.
Defined.

(** The type roll, threshold by threshold. *)
Lemma rollEnemy_type lvl r :
  Roll.type (rollEnemy lvl r)
  = if (3 <=? lvl) && Qltb 0.9 r then ELITE
    else if Qltb 0.75 r then HEAVY
    else if Qltb 0.55 r then FAST
    else BASIC.
Proof. unfold rollEnemy. cbv zeta. split_ifs; reflexivity. Qed.

Ltac roll_cases :=
  repeat match goal with
         | H : context [Qltb ?a ?b] |- _ =>
             let E := fresh "E" in
             destruct (Qltb a b) eqn:E;
             [apply Qltb_lt in E|apply Qltb_ge in E]
         | |- context [Qltb ?a ?b] =>
             let E := fresh "E" in
             destruct (Qltb a b) eqn:E;
             [apply Qltb_lt in E|apply Qltb_ge in E]
         end.

Ltac roll_interval Hl :=
  unfold interval_of, rolls; split; [lra|]; split; [lra|]; split; [lra|]; split;
  [ intros r H1 H2; split; [lra|]; split; [lra|];
    rewrite rollEnemy_type, Hl; cbn [andb]; roll_cases; try reflexivity; lra
  | intros r (H1 & H2 & H3); rewrite rollEnemy_type, Hl in H3; cbn [andb] in H3;
    roll_cases; try discriminate; lra ].

Lemma rolls_low lvl :
  lvl < 3 ->
  interval_of (rolls lvl ELITE) 0 0
  /\ interval_of (rolls lvl HEAVY) 0.75 1
  /\ interval_of (rolls lvl FAST) 0.55 0.75
  /\ interval_of (rolls lvl BASIC) 0 0.55.
Proof.
  intros Hl. apply Z.leb_gt in Hl.
  split; [|split; [|split]]; roll_interval Hl.
Qed.

Lemma rolls_high lvl :
  3 <= lvl ->
  interval_of (rolls lvl ELITE) 0.9 1
  /\ interval_of (rolls lvl HEAVY) 0.75 0.9
  /\ interval_of (rolls lvl FAST) 0.55 0.75
  /\ interval_of (rolls lvl BASIC) 0 0.55.
Proof.
  intros Hl. apply Z.leb_le in Hl.
  split; [|split; [|split]]; roll_interval Hl.
Qed.

(** C8, as the code has it.  One roll decides the type, the thresholds being
    tried in order: ELITE has probability 10% from level 3 on and 0 below;
    HEAVY has probability 25% below level 3 and 15% from level 3 on, where
    the rolls above 0.9 go to ELITE; FAST has probability 20% and BASIC the
    remaining 55%, at every level. *)
Theorem type_roll_distribution lvl :
  probability (rolls lvl ELITE) (if 3 <=? lvl then 0.1 else 0)
  /\ probability (rolls lvl HEAVY) (if 3 <=? lvl then 0.15 else 0.25)
  /\ probability (rolls lvl FAST) 0.2
  /\ probability (rolls lvl BASIC) 0.55
  /\ forall r, Roll.type (rollEnemy lvl r) <> BOSS.
Proof.
  destruct (3 <=? lvl) eqn:L.
  - apply Z.leb_le in L. destruct (rolls_high lvl L) as (H1 & H2 & H3 & H4).
    repeat split; try (eexists _, _; split; [eassumption|reflexivity]).
    intros r. apply rollEnemy_ok.
  - apply Z.leb_gt in L. destruct (rolls_low lvl L) as (H1 & H2 & H3 & H4).
    repeat split; try (eexists _, _; split; [eassumption|reflexivity]).
    intros r. apply rollEnemy_ok.
Qed.

(** C8 as stated fails at level 3: HEAVY is selected by the rolls between
    0.75 and 0.9, with probability 15%, not 25%; a roll of 0.95 clears the
    HEAVY threshold and yet selects ELITE. *)
Lemma heavy_is_not_a_quarter_at_level_3 :
  probability (rolls 3 HEAVY) 0.15
  /\ ~ probability (rolls 3 HEAVY) 0.25
  /\ Roll.type (rollEnemy 3 0.95) = ELITE.
Proof.
  split; [|split].
  - destruct (rolls_high 3) as (_ & H & _); [lia|].
    eexists _, _. split; [exact H|reflexivity].
  - intros (lo & hi & (H0 & H1 & H2 & Hin & Hout) & Hp).
    assert (A : rolls 3 HEAVY (lo + 0.01)) by (apply Hin; lra).
    assert (B : rolls 3 HEAVY (hi - 0.01)) by (apply Hin; lra).
    destruct A as (_ & _ & A). destruct B as (_ & _ & B).
    rewrite rollEnemy_type in A, B. cbn [Z.leb andb] in A, B.
    change (3 <=? 3) with true in A, B. cbn [andb] in A, B.
    roll_cases; try discriminate; lra.
  - reflexivity.
Qed.

(** C9.  The coins are written under the key [karl_coins] and read under
    the key [tina_coins]: what is written is never what is read.  Saving any
    state into an empty store and loading again gives 0 coins, and in any
    store the load after a save gives what it gave before the save. *)
Theorem coins_written_are_not_loaded (stringify : Upgrades.t -> string) (w : World) :
  loadCoins (persist stringify w ∅) = Some 0
  /\ forall ls, loadCoins (persist stringify w ls) = loadCoins ls.
Proof.
  assert (H : forall ls, loadCoins (persist stringify w ls) = loadCoins ls).
  { intros ls. unfold loadCoins, persist. cbv zeta.
    rewrite !lookup_insert_ne by discriminate. reflexivity. }
  split; [|exact H]. rewrite H. reflexivity.
Qed.

(** 450 coins saved, a fresh start loads 0; under one key the same text
    would have been read back as 450. *)
Lemma coins_lost_on_restart :
  loadCoins (persist (fun _ => "{}") (set_totalCoins 450 freshGame) ∅) = Some 0
  /\ toString 450 = "450" /\ parseInt (toString 450) = Some 450.
Proof. split; [|split]; reflexivity. Qed.

(** C10.  No reachable state has [guardian_hero] unlocked, however long a
    guardian session lasts: nothing in the component unlocks it. *)
Theorem guardian_hero_never_unlocked coins up w :
  wf_upgrades up -> reachable coins up w -> heroLocked w.
Proof.
  intros Hu Hr. apply (inv_hero w (reachable_Inv coins up w Hu Hr)).
Qed.

(** A guardian session, a tick 200 seconds after its start: [survivor] is
    unlocked by that tick, [guardian_hero] is not. *)
Lemma guardian_hero_after_200s :
  let w' := update (quietEnv 200000) guardianGame in
  isGuardianMode guardianGame = true /\ startTime guardianGame = 0
  /\ gameState w' = PLAYING
  /\ Achievement.mk "survivor" true ∈ achievements w'
  /\ Achievement.mk "guardian_hero" false ∈ achievements w'.
Proof.
  vm_compute. repeat split; apply list_elem_of_In; simpl; tauto.
Qed.

Lemma guardian_hero_never_unlocked_witness :
  heroLocked (handle (Frame (quietEnv 200000)) guardianDemo).
Proof.
  apply (guardian_hero_never_unlocked 1000 defaultUpgrades).
  - unfold wf_upgrades. simpl. repeat split; try lia. discriminate.
  - unfold guardianDemo. do 2 apply reach_handle. apply reach_initial.
Defined.

(** * Further properties of the component *)

(** ** Achievements *)

(** [l'] has the achievements of [l], in the same order, and none that was
    unlocked in [l] is locked in [l']. *)
Definition grows (l l' : list Achievement.t) : Prop :=
  Forall2 (fun a a' => Achievement.id a' = Achievement.id a
                       /\ (Achievement.unlocked a = true ->
                           Achievement.unlocked a' = true)) l l'.

(** [achievements.find(a => a.id === id)?.unlocked], [false] when absent. *)
Definition flagOf (o : option (nat * Achievement.t)) : bool :=
  match o with
  | Some (_, b) => Achievement.unlocked b
  | None => false
  end.

Definition isUnlocked (id : string) (w : World) : bool :=
  flagOf (list_find (fun a => Achievement.id a = id) (achievements w)).

Lemma grows_refl l : grows l l.
Proof. induction l; constructor; auto. Qed.

Lemma grows_trans l1 l2 l3 : grows l1 l2 -> grows l2 l3 -> grows l1 l3.
Proof.
  intros H. revert l3. induction H as [|a b l1 l2 (Hi & Hu) H IH]; intros l3 H3.
  - inversion H3. constructor.
  - inversion H3 as [|b' c l2' l3' (Hi' & Hu') H' E1 E2]; subst.
    constructor; [split; [congruence|auto]|]. apply IH, H'.
Qed.

Lemma grows_insert l i a :
  l !! i = Some a -> grows l (<[i := Achievement.mk (Achievement.id a) true]> l).
Proof.
  revert i. induction l as [|b l IH]; intros [|i] H; try discriminate; simpl in *.
  - injection H as ->. constructor; [split; auto|apply grows_refl].
  - constructor; [split; auto|]. apply IH, H.
Qed.

Lemma grows_unlock id w : grows (achievements w) (achievements (unlockAchievement id w)).
Proof.
  unfold unlockAchievement.
  destruct (list_find _ _) as [[index a]|] eqn:F; [|apply grows_refl].
  destruct (Achievement.unlocked a); [apply grows_refl|].
  apply list_find_Some in F. destruct F as (F & _). world_simpl.
  apply grows_insert, F.
Qed.

Lemma grows_Robust l0 : Robust (fun w => grows l0 (achievements w)).
Proof.
  constructor; try (intros; assumption).
  - intros w w' Hc. rw_core Hc. tauto.
  - intros id w _ H. eapply grows_trans; [exact H|apply grows_unlock].
Qed.

Lemma grows_update env w : grows (achievements w) (achievements (update env w)).
Proof.
  apply (calm_update (fun w' => grows (achievements w) (achievements w'))).
  - apply grows_Robust.
  - constructor; intros v w' H; exact H.
  - intros v w' H; exact H.
  - intros v w' H; exact H.
  - intros v w' H; exact H.
  - apply grows_refl.
Qed.

Lemma achievements_startGame t g w :
  achievements (startGame t g w) = achievements w.
Proof. unfold startGame. destruct (g && _); [reflexivity|]. destruct g; reflexivity. Qed.

Lemma achievements_togglePause w : achievements (togglePause w) = achievements w.
Proof. unfold togglePause. destruct (gameState w); reflexivity. Qed.

Lemma achievements_buy item w : achievements (buy item w) = achievements w.
Proof. unfold buy. destruct item; cbv zeta; destruct (_ || _); reflexivity. Qed.

Lemma grows_handle ev w : grows (achievements w) (achievements (handle ev w)).
Proof.
  destruct ev; cbn [handle].
  - destruct (decide _); [apply grows_update|apply grows_refl].
  - destruct (decide _); [rewrite achievements_startGame|]; apply grows_refl.
  - destruct (decide _); [rewrite achievements_startGame|]; apply grows_refl.
  - destruct (hudShown w); [rewrite achievements_togglePause|]; apply grows_refl.
  - destruct (decide _); apply grows_refl.
  - destruct (_ || _); apply grows_refl.
  - destruct (decide _); apply grows_refl.
  - destruct (decide _); [rewrite achievements_buy|]; apply grows_refl.
  - cbv zeta. destruct (decide _); [rewrite achievements_togglePause|]; apply grows_refl.
  - apply grows_refl.
  - destruct (decide _); apply grows_refl.
  - apply grows_refl.
  - cbn [randomRange random].
    match goal with |- context [createExplosion ?e ?x ?y ?c ?n ?t ?v] =>
      generalize (core_createExplosion e x y c n t v);
      generalize (createExplosion e x y c n t v) end.
    intros w1 Hc. rw_core Hc. apply grows_refl.
  - apply grows_refl.
  - apply grows_refl.
Qed.

(** X1.  The achievements of a reachable state are those of the first render, in
    their order, with none that is unlocked there locked here; and whatever
    happens next keeps the entries, their order and what is unlocked. *)
Theorem achievements_grow coins up w :
  reachable coins up w ->
  grows initialAchievements (achievements w)
  /\ forall ev, grows (achievements w) (achievements (handle ev w)).
Proof.
  intros Hr. split; [|intros ev; apply grows_handle].
  induction Hr as [|ev w Hr IH]; [apply grows_refl|].
  eapply grows_trans; [exact IH|apply grows_handle].
Qed.

Lemma achievements_grow_witness :
  grows initialAchievements (achievements demoGame)
  /\ forall ev, grows (achievements demoGame) (achievements (handle ev demoGame)).
Proof.
  apply (achievements_grow 0 defaultUpgrades demoGame).
  unfold demoGame. do 2 apply reach_handle. apply reach_initial.
Defined.

Lemma list_find_cons {A} (P : A -> Prop) `{forall x, Decision (P x)} (x : A) l :
  list_find P (x :: l)
  = if decide (P x) then Some (0%nat, x) else prod_map S id <$> list_find P l.
Proof. reflexivity. Qed.

Lemma list_find_insert_here (id : string) (l : list Achievement.t) i a :
  list_find (fun a => Achievement.id a = id) l = Some (i, a) ->
  list_find (fun a => Achievement.id a = id)
    (<[i := Achievement.mk (Achievement.id a) true]> l)
  = Some (i, Achievement.mk (Achievement.id a) true).
Proof.
  revert i. induction l as [|b l IH]; intros i H; [discriminate|].
  rewrite list_find_cons in H. destruct (decide (Achievement.id b = id)) as [Hb|Hb].
  - injection H as <- <-. simpl insert. rewrite list_find_cons.
    destruct (decide _) as [|Hn]; [reflexivity|]. exfalso. apply Hn. exact Hb.
  - destruct (list_find _ l) as [[j c]|] eqn:F; [|discriminate].
    injection H as <- <-. simpl insert. rewrite list_find_cons.
    destruct (decide _); [contradiction|]. rewrite (IH j eq_refl). reflexivity.
Qed.

Lemma flagOf_fmap o : flagOf (prod_map S id <$> o) = flagOf o.
Proof. destruct o as [[? ?]|]; reflexivity. Qed.

Lemma list_find_insert_other (id id' : string) (l : list Achievement.t) i a :
  id' <> id ->
  list_find (fun a => Achievement.id a = id) l = Some (i, a) ->
  flagOf (list_find (fun a => Achievement.id a = id')
            (<[i := Achievement.mk (Achievement.id a) true]> l))
  = flagOf (list_find (fun a => Achievement.id a = id') l).
Proof.
  intros Hne. revert i. induction l as [|b l IH]; intros i H; [discriminate|].
  rewrite list_find_cons in H. destruct (decide (Achievement.id b = id)) as [Hb|Hb].
  - injection H as <- <-. simpl insert. rewrite !list_find_cons.
    destruct (decide (Achievement.id b = id')) as [Hb'|Hb']; [congruence|].
    destruct (decide _) as [Hc|Hc]; [contradiction|reflexivity].
  - destruct (list_find _ l) as [[j c]|] eqn:F; [|discriminate].
    injection H as <- <-. simpl insert. rewrite !list_find_cons.
    destruct (decide (Achievement.id b = id')); [reflexivity|].
    rewrite !flagOf_fmap. apply (IH j eq_refl).
Qed.

(** X2.  [unlockAchievement]: an id that is not in the list changes nothing; an id
    of the list ends up unlocked; the other achievements keep their state;
    and unlocking twice is unlocking once. *)
Theorem unlockAchievement_spec id w :
  (isUnlocked id (unlockAchievement id w)
   = bool_decide (Exists (fun a => Achievement.id a = id) (achievements w)))
  /\ (~ Exists (fun a => Achievement.id a = id) (achievements w) ->
      unlockAchievement id w = w)
  /\ (forall id', id' <> id ->
        isUnlocked id' (unlockAchievement id w) = isUnlocked id' w)
  /\ unlockAchievement id (unlockAchievement id w) = unlockAchievement id w.
Proof.
  unfold isUnlocked, unlockAchievement.
  destruct (list_find _ (achievements w)) as [[i a]|] eqn:F.
  - pose proof F as F'. apply list_find_Some in F'. destruct F' as (Hi & Ha & _).
    assert (Hex : Exists (fun a => Achievement.id a = id) (achievements w)).
    { apply Exists_exists. exists a. split; [|exact Ha].
      apply list_elem_of_lookup. eauto. }
    rewrite (bool_decide_eq_true_2 _ Hex).
    destruct (Achievement.unlocked a) eqn:U.
    + rewrite F. cbn [flagOf]. rewrite U.
      split; [reflexivity|]. split; [intros Hn; contradiction|].
      split; [reflexivity|]. rewrite ?F, ?U. reflexivity.
    + world_simpl. rewrite (list_find_insert_here id _ i a F). cbn [flagOf].
      split; [reflexivity|]. split; [intros Hn; contradiction|].
      split; [|reflexivity].
      intros id' Hne. apply (list_find_insert_other id id' _ i a Hne F).
  - assert (Hex : ~ Exists (fun a => Achievement.id a = id) (achievements w)).
    { apply list_find_None in F.
      intros Hex. apply Exists_exists in Hex. destruct Hex as (a & Hin & Ha).
      rewrite Forall_forall in F. apply (F a Hin Ha). }
    rewrite (bool_decide_eq_false_2 _ Hex). rewrite F.
    split; [reflexivity|]. split; [reflexivity|]. split; [reflexivity|].
    rewrite ?F. reflexivity.
Qed.

(** ** Pausing *)

Definition frames (envs : list Env) (w : World) : World :=
  fold_left (fun w env => handle (Frame env) w) envs w.

Lemma frames_frozen envs w : gameState w <> PLAYING -> frames envs w = w.
Proof.
  intros H. unfold frames. induction envs as [|env envs IH]; [reflexivity|].
  simpl. destruct (decide _); [contradiction|exact IH].
Qed.

(** X3.  No frame changes a world that is not [PLAYING]; the pause button turns a
    running session into a paused one, and pressing it again after any number
    of frames gives back the world exactly as it was. *)
Theorem pause_freezes_the_world envs w :
  (gameState w <> PLAYING -> frames envs w = w)
  /\ (gameState w = PLAYING ->
      gameState (handle ClickPause w) = PAUSED
      /\ handle ClickPause (frames envs (handle ClickPause w)) = w).
Proof.
  split; [apply frames_frozen|].
  intros G.
  assert (E : handle ClickPause w = set_gameState PAUSED w).
  { cbn [handle]. unfold hudShown, togglePause. rewrite G. reflexivity. }
  rewrite E. split; [reflexivity|].
  rewrite frames_frozen by (world_simpl; discriminate).
  cbn [handle]. unfold hudShown, togglePause. world_simpl.
  destruct w. simpl in G. subst. reflexivity.
Qed.

Lemma pause_freezes_the_world_witness :
  gameState (handle ClickPause freshGame) = PAUSED
  /\ handle ClickPause
       (frames [quietEnv 1000; quietEnv 1016] (handle ClickPause freshGame))
     = freshGame.
Proof.
  apply (pause_freezes_the_world [quietEnv 1000; quietEnv 1016] freshGame).
  reflexivity.
Defined.

(** ** The upgrade screen *)

(** The price a button shows. *)
Definition price (item : Item) (u : Upgrades.t) : Z :=
  match item with
  | BuyMaxLives => Upgrades.maxLives u * 200
  | BuyBulletPower => round (Upgrades.bulletPower u * 500)
  | BuyArmor => Upgrades.armorStrength u * 150
  | BuyTripleShot => 2000
  | BuyFireRate => 800 + (200 - Upgrades.fireRate u) * 10
  | BuySpeed => Upgrades.moveSpeed u * 100
  end.

(** The top level of an upgrade, at which its button is disabled. *)
Definition maxedOut (item : Item) (u : Upgrades.t) : bool :=
  match item with
  | BuyMaxLives => 10 <=? Upgrades.maxLives u
  | BuyBulletPower => Qle_bool 5 (Upgrades.bulletPower u)
  | BuyArmor => 15 <=? Upgrades.armorStrength u
  | BuyTripleShot => 2 <=? Upgrades.tripleShotLevel u
  | BuyFireRate => Upgrades.fireRate u <=? 60
  | BuySpeed => 15 <=? Upgrades.moveSpeed u
  end.

(** One step of an upgrade. *)
Definition upgraded (item : Item) (u : Upgrades.t) : Upgrades.t :=
  match item with
  | BuyMaxLives => Upgrades.set_maxLives (Upgrades.maxLives u + 1) u
  | BuyBulletPower => Upgrades.set_bulletPower (Upgrades.bulletPower u + 0.5) u
  | BuyArmor => Upgrades.set_armorStrength (Upgrades.armorStrength u + 1) u
  | BuyTripleShot => Upgrades.set_tripleShotLevel 2 u
  | BuyFireRate => Upgrades.set_fireRate (Upgrades.fireRate u - 20) u
  | BuySpeed => Upgrades.set_moveSpeed (Upgrades.moveSpeed u + 1) u
  end.

(** X4.  A purchase is refused, and changes nothing, when the coins are short of
    the price shown or the upgrade is at its top level; otherwise it takes
    exactly the price shown, never more than the coins at hand, and raises
    that one upgrade by one step. *)
Theorem buy_charges_the_price_shown item w :
  let u := upgrades w in
  if (totalCoins w <? price item u) || maxedOut item u
  then buy item w = w
  else buy item w = set_upgrades (upgraded item u)
                      (set_totalCoins (totalCoins w - price item u) w)
       /\ 0 <= totalCoins w - price item u.
Proof.
  cbv zeta. unfold buy, price, maxedOut, upgraded. cbv zeta.
  destruct item; destruct (totalCoins w <? _) eqn:E; cbn [orb];
    try reflexivity;
    match goal with
    | |- context [if ?c then _ else _] => destruct c; [reflexivity|]
    end;
    (split; [reflexivity|apply Z.ltb_ge in E; lia]).
Qed.







(** ** Starting and restarting *)

(** X6.  A guardian start costs 450 coins and is refused, changing nothing, when
    they are not there.  The button of the game-over screen is bound to
    [startGame] itself, which then receives the click event as its [guardian]
    argument: a restart is a guardian start, and with fewer than 450 coins the
    button does nothing. *)
Theorem restart_is_a_guardian_start clickNow w :
  gameState w = GAMEOVER ->
  handle (ClickRestart clickNow) w = startGame clickNow true w
  /\ (totalCoins w < 450 -> handle (ClickRestart clickNow) w = w)
  /\ (450 <= totalCoins w ->
      let w' := handle (ClickRestart clickNow) w in
      gameState w' = PLAYING /\ isGuardianMode w' = true
      /\ totalCoins w' = totalCoins w - 450 /\ lives w' = 999999
      /\ escapedEnemies w' = 0 /\ score w' = 0 /\ level w' = 1
      /\ enemies w' = [] /\ startTime w' = clickNow).
Proof.
  intros G. cbn [handle]. destruct (decide _); [|contradiction].
  split; [reflexivity|]. unfold startGame. cbn [andb]. split.
  - intros H. apply Z.ltb_lt in H. rewrite H. reflexivity.
  - intros H. apply Z.ltb_ge in H. rewrite H. cbv zeta. repeat split.
Qed.

Definition gameOverScene (coins : Z) : World :=
  set_totalCoins coins (set_lives 0 (set_gameState GAMEOVER freshGame)).

Lemma restart_is_a_guardian_start_witness :
  handle (ClickRestart 5000) (gameOverScene 100) = gameOverScene 100
  /\ isGuardianMode (handle (ClickRestart 5000) (gameOverScene 460)) = true
  /\ totalCoins (handle (ClickRestart 5000) (gameOverScene 460)) = 10.
Proof.
  split; [|split].
  - apply (restart_is_a_guardian_start 5000 (gameOverScene 100)); [reflexivity|].
    vm_compute. reflexivity.
  - apply (restart_is_a_guardian_start 5000 (gameOverScene 460)); [reflexivity|].
    vm_compute. discriminate.
  - apply (restart_is_a_guardian_start 5000 (gameOverScene 460)); [reflexivity|].
    vm_compute. discriminate.
Defined.

(** ** The boss flag *)









(** ** The invulnerability countdown *)






(** ** One mode's ending never happens in the other *)



(** ** The counters and the player's body through a tick

    The score, the kill counter, the coin counters, the power-ups and the
    position of the player are outside [core].  A predicate on them is
    [Still] when it survives every write to a field none of them reads. *)

Record Still (P : World -> Prop) : Prop := {
  st_bullets : forall v w, P w -> P (set_bullets v w);
  st_enemyBullets : forall v w, P w -> P (set_enemyBullets v w);
  st_draws : forall v w, P w -> P (set_draws v w);
  st_achievements : forall v w, P w -> P (set_achievements v w);
  st_unlockedAchievement : forall v w, P w -> P (set_unlockedAchievement v w);
  st_lastShot : forall v w, P w -> P (set_lastShot v w);
  st_enemySpawnTimer : forall v w, P w -> P (set_enemySpawnTimer v w);
  st_powerUpSpawnTimer : forall v w, P w -> P (set_powerUpSpawnTimer v w);
  st_frameCount : forall v w, P w -> P (set_frameCount v w);
  st_shieldsPicked : forall v w, P w -> P (set_shieldsPicked v w);
  st_tripleShotsPicked : forall v w, P w -> P (set_tripleShotsPicked v w);
  st_levelUpPending : forall v w, P w -> P (set_levelUpPending v w);
  st_warningTimer : forall v w, P w -> P (set_warningTimer v w);
  st_lostLifeThisRun : forall v w, P w -> P (set_lostLifeThisRun v w);
  st_bossActive : forall v w, P w -> P (set_bossActive v w);
  st_lives : forall v w, P w -> P (set_lives v w);
  st_gameState : forall v w, P w -> P (set_gameState v w);
  st_playerHits : forall v w, P w -> P (set_playerHits v w);
  st_escapedEnemies : forall v w, P w -> P (set_escapedEnemies v w);
  st_level : forall v w, P w -> P (set_level v w)
}.

(** What of the player the movement step alone writes. *)
Definition body (p : Player.t) :=
  (Player.x p, Player.y p, Player.width p, Player.height p, Player.speed p).

Lemma body_set_invulnerable v p : body (Player.set_invulnerable v p) = body p.
Proof. reflexivity. Qed.

Lemma body_set_shield v p : body (Player.set_shield v p) = body p.
Proof. reflexivity. Qed.

Lemma body_set_tripleShot v p : body (Player.set_tripleShot v p) = body p.
Proof. reflexivity. Qed.

(** What of an enemy the tick never writes. *)
Definition sheet (e : Enemy.t) :=
  (Enemy.type e, Enemy.score e, Enemy.width e, Enemy.height e, Enemy.maxHp e,
   Enemy.speed e).

(** The tick after the movement step, up to the level-up check and whole. *)
Definition upToLevelUp (env : Env) (lvl sc : Z) (w : World) : World :=
  let w := tickShoot env w in
  let w := forEach bullets stepBullet w in
  let w := forEach enemyBullets (stepEnemyBullet env) w in
  let w := tickSpawner env lvl w in
  let w := forEach enemies (stepEnemy env lvl) w in
  let w := tickPowerUpSpawner env w in
  let w := forEach powerUps stepPowerUp w in
  let w := forEach particles stepParticle w in
  tickLevelUp lvl sc w.

Definition afterPlayer (env : Env) (lvl sc : Z) (w : World) : World :=
  tickTimers (tickSurvivor env (upToLevelUp env lvl sc w)).

Lemma update_afterPlayer env w :
  update env w = afterPlayer env (level w) (score w) (tickPlayer w).
Proof. reflexivity. Qed.

Ltac still_with St :=
  first
    [ assumption
    | apply (st_bullets _ St) | apply (st_enemyBullets _ St)
    | apply (st_draws _ St)
    | apply (st_achievements _ St) | apply (st_unlockedAchievement _ St)
    | apply (st_lastShot _ St) | apply (st_enemySpawnTimer _ St)
    | apply (st_powerUpSpawnTimer _ St) | apply (st_frameCount _ St)
    | apply (st_shieldsPicked _ St) | apply (st_tripleShotsPicked _ St)
    | apply (st_levelUpPending _ St) | apply (st_warningTimer _ St)
    | apply (st_lostLifeThisRun _ St) | apply (st_bossActive _ St)
    | apply (st_lives _ St) | apply (st_gameState _ St)
    | apply (st_playerHits _ St) | apply (st_escapedEnemies _ St)
    | apply (st_level _ St) ].

Section Cosmetic.
Variable P : World -> Prop.
Hypothesis St : Still P.
Hypothesis Hparticles : forall v w, P w -> P (set_particles v w).

Lemma still_pushSparks env x y color count w :
  P w -> P (pushSparks env x y color count w).
Proof.
  revert w. induction count as [|n IH]; intros w H; [exact H|].
  cbn [pushSparks randomRange random]. apply IH, Hparticles. repeat still_with St.
Qed.

Lemma still_createExplosion env x y color count type w :
  P w -> P (createExplosion env x y color count type w).
Proof.
  intros H. unfold createExplosion. apply still_pushSparks.
  destruct type; [exact H|apply Hparticles|]; exact H.
Qed.

Lemma still_stepParticle p i w : P w -> P (stepParticle p i w).
Proof.
  intros H. unfold stepParticle. cbv zeta.
  destruct (Qle_bool _ _); repeat apply Hparticles; exact H.
Qed.
End Cosmetic.

(** Steps that write only fields the predicate does not read. *)
Section Bystander.
Variable P : World -> Prop.
Hypothesis St : Still P.

Lemma still_unlock id w : P w -> P (unlockAchievement id w).
Proof.
  intros H. destruct (unlockAchievement_shape id w) as (l & o & ->).
  repeat still_with St.
Qed.

Lemma idle_spawnEnemy :
  (forall v w, P w -> P (set_enemies v w)) ->
  forall env lvl w, P w -> P (spawnEnemy env lvl w).
Proof.
  intros Hen env lvl w H. unfold spawnEnemy. destruct (bossActive w); [exact H|].
  destruct (_ && _).
  - cbv zeta. apply Hen. repeat still_with St.
  - cbn [random randomRange]. apply Hen. repeat still_with St.
Qed.

Lemma idle_spawnPowerUp :
  (forall v w, P w -> P (set_powerUps v w)) ->
  forall env x y forceType w, P w -> P (spawnPowerUp env x y forceType w).
Proof.
  intros Hpu env x y forceType w H. unfold spawnPowerUp.
  destruct forceType, x; cbn [random randomRange]; apply Hpu; repeat still_with St.
Qed.

Lemma idle_collect :
  (forall p w, body p = body (player w) -> P w -> P (set_player p w)) ->
  (forall v w, P w -> P (set_sessionCoins v w)) ->
  (forall v w, P w -> P (set_totalCoins v w)) ->
  forall p w, P w -> P (collect p w).
Proof.
  intros Hpl Hs Ht p w H. unfold collect. destruct (PowerUp.type p); cbv zeta.
  - assert (H1 : P (set_tripleShotsPicked (tripleShotsPicked w + 1)
                      (set_player
                         (Player.set_tripleShot (Player.tripleShot (player w) + 30)
                            (player w)) w))).
    { apply (st_tripleShotsPicked _ St), Hpl; [apply body_set_tripleShot|exact H]. }
    destruct (_ =? 3); [apply still_unlock|]; exact H1.
  - assert (H1 : P (set_shieldsPicked (shieldsPicked w + 1)
                      (set_player (Player.set_shield true (player w)) w))).
    { apply (st_shieldsPicked _ St), Hpl; [apply body_set_shield|exact H]. }
    destruct (_ =? 3); [apply still_unlock|]; exact H1.
  - apply Ht. destruct (1000 <=? _); [apply still_unlock|]; apply Hs, H.
Qed.
End Bystander.

Section StillTick.
Variable P : World -> Prop.
Variable Qe : Enemy.t -> Prop.
Variable Qp : PowerUp.t -> Prop.
Hypothesis St : Still P.
Hypothesis Hplayer : forall p w, body p = body (player w) -> P w -> P (set_player p w).
Hypothesis Hexplode : forall env x y color count type w,
  P w -> P (createExplosion env x y color count type w).
Hypothesis Hparticle : forall p i w,
  particles w !! i = Some p -> P w -> P (stepParticle p i w).
Hypothesis Hen_get : forall i e w, P w -> enemies w !! i = Some e -> Qe e.
Hypothesis Hen_sheet : forall e e', sheet e' = sheet e -> Qe e -> Qe e'.
Hypothesis Hen_del : forall i w, P w -> P (set_enemies (delete i (enemies w)) w).
Hypothesis Hen_put : forall i e w, Qe e -> P w -> P (set_enemies (<[i := e]> (enemies w)) w).
Hypothesis Hen_clear : forall w, P w -> P (set_enemies [] w).
Hypothesis Hspawn : forall env lvl w, P w -> P (spawnEnemy env lvl w).
Hypothesis Hkill : forall e w, Qe e -> P w ->
  P (set_enemiesKilled (enemiesKilled w + 1) (set_score (score w + Enemy.score e) w)).
Hypothesis Hpu_get : forall i p w, P w -> powerUps w !! i = Some p -> Qp p.
Hypothesis Hpu_y : forall y p, Qp p -> Qp (PowerUp.set_y y p).
Hypothesis Hpu_del : forall i w, P w -> P (set_powerUps (delete i (powerUps w)) w).
Hypothesis Hpu_put : forall i p w, Qp p -> P w ->
  P (set_powerUps (<[i := p]> (powerUps w)) w).
Hypothesis Hpu_spawn : forall env x y forceType w,
  P w -> P (spawnPowerUp env x y forceType w).
Hypothesis Hcollect : forall p w, Qp p -> P w -> P (collect p w).

Lemma still_scatterCoins env x y n w : P w -> P (scatterCoins env x y n w).
Proof.
  revert w. induction n as [|n IH]; intros w H; [exact H|].
  cbn [scatterCoins randomRange random]. apply IH, Hpu_spawn. repeat still_with St.
Qed.

Lemma still_tickShoot env w : P w -> P (tickShoot env w).
Proof.
  intros H. unfold tickShoot. destruct (_ && _); [|exact H]. cbv zeta.
  apply (st_lastShot _ St). destruct (0 <? _).
  - destruct (_ <? 2).
    + apply Hplayer; [apply body_set_tripleShot|].
      unfold pushBullet. repeat still_with St.
    + unfold pushBullet. repeat still_with St.
  - unfold pushBullet. repeat still_with St.
Qed.

Lemma still_stepBullet b i w : P w -> P (stepBullet b i w).
Proof.
  intros H. unfold stepBullet. cbv zeta. destruct (_ || _); repeat still_with St.
Qed.

Lemma still_loseLife w : P w -> P (loseLife w).
Proof.
  intros H. unfold loseLife. cbv zeta. apply (st_lives _ St).
  destruct (_ <=? 1); repeat still_with St.
Qed.

Lemma still_enemyBulletHit env i w : P w -> P (enemyBulletHit env i w).
Proof.
  intros H. unfold enemyBulletHit. cbv zeta.
  apply Hplayer; [apply body_set_invulnerable|].
  destruct (Player.shield _).
  - apply Hexplode. apply Hplayer; [apply body_set_shield|].
    repeat still_with St.
  - destruct (negb _); [|repeat still_with St].
    destruct (_ <=? _); [|repeat still_with St].
    apply (st_playerHits _ St), Hexplode, (st_lostLifeThisRun _ St),
      still_loseLife.
    repeat still_with St.
Qed.

Lemma still_stepEnemyBullet env b i w : P w -> P (stepEnemyBullet env b i w).
Proof.
  intros H. unfold stepEnemyBullet. cbv zeta.
  assert (H1 : P (if Qltb (CANVAS_HEIGHT + 20) (Bullet.y (moveBullet b))
                  then set_enemyBullets
                         (delete i (enemyBullets
                            (set_enemyBullets (<[i := moveBullet b]> (enemyBullets w)) w)))
                         (set_enemyBullets (<[i := moveBullet b]> (enemyBullets w)) w)
                  else set_enemyBullets (<[i := moveBullet b]> (enemyBullets w)) w)).
  { destruct (Qltb _ _); repeat still_with St. }
  revert H1. generalize (if Qltb (CANVAS_HEIGHT + 20) (Bullet.y (moveBullet b))
                  then set_enemyBullets
                         (delete i (enemyBullets
                            (set_enemyBullets (<[i := moveBullet b]> (enemyBullets w)) w)))
                         (set_enemyBullets (<[i := moveBullet b]> (enemyBullets w)) w)
                  else set_enemyBullets (<[i := moveBullet b]> (enemyBullets w)) w).
  intros w1 H1. destruct (_ <=? 0); [|exact H1].
  destruct (near _ _ _); [|exact H1]. apply still_enemyBulletHit, H1.
Qed.

Lemma still_tickSpawner env lvl w : P w -> P (tickSpawner env lvl w).
Proof.
  intros H. unfold tickSpawner. cbv zeta. destruct (_ <? _).
  - apply (st_enemySpawnTimer _ St), Hspawn. repeat still_with St.
  - repeat still_with St.
Qed.

Lemma still_moveEnemy env e w :
  P w -> P (moveEnemy env e w).2
         /\ sheet (moveEnemy env e w).1 = sheet e.
Proof.
  intros H. unfold moveEnemy. destruct (decide _); [|split; [exact H|reflexivity]].
  cbv zeta. destruct (_ <? _); cbn [fst snd].
  - split; [repeat still_with St|]. split_ifs; reflexivity.
  - split; [exact H|]. split_ifs; reflexivity.
Qed.

Lemma still_enemyShoots env lvl e w :
  P w -> P (enemyShoots env lvl e w).2
         /\ sheet (enemyShoots env lvl e w).1 = sheet e.
Proof.
  intros H. unfold enemyShoots. cbn [random].
  destruct (decide _); [|destruct (3 <=? lvl)]; destruct (_ && _); cbn [fst snd];
    (split; [repeat still_with St|reflexivity]).
Qed.

Lemma still_contactHit env w : P w -> P (contactHit env w).
Proof.
  intros H. unfold contactHit. cbv zeta.
  apply Hplayer; [apply body_set_invulnerable|].
  destruct (Player.shield _).
  - apply Hexplode. apply Hplayer; [apply body_set_shield|]. exact H.
  - destruct (negb _); [|exact H].
    apply Hexplode, (st_lostLifeThisRun _ St), still_loseLife, H.
Qed.

Definition scan_ok (s : Scan) : Prop := P (world s) /\ Qe (cur s).

Lemma still_enemyContact env i s : scan_ok s -> scan_ok (enemyContact env i s).
Proof.
  intros Hs. unfold enemyContact. cbv zeta.
  destruct (_ <=? 0); [|exact Hs]. destruct (near _ _ _); [|exact Hs].
  destruct Hs as (H & He).
  destruct (decide _); split; cbn [world cur]; try exact He.
  - apply still_contactHit, H.
  - apply Hen_del, still_contactHit, H.
Qed.

Lemma still_killEffects env e w : P w -> P (killEffects env e w).
Proof.
  intros H. unfold killEffects. destruct (decide (Enemy.type e = BOSS)).
  - cbv zeta. apply (still_unlock _ St), still_scatterCoins, Hexplode.
    repeat still_with St.
  - cbv zeta. cbn [random].
    assert (H1 : forall color type,
               P (createExplosion env (Enemy.x e) (Enemy.y e) color 20 type w))
      by (intros; apply Hexplode, H).
    specialize (H1 (if decide (Enemy.type e = HEAVY) then "#f59e0b"
                    else if decide (Enemy.type e = FAST) then "#10b981" else "#ef4444")
                  (if decide (Enemy.type e = HEAVY) then SHOCKWAVE else SPARK)).
    revert H1.
    generalize (createExplosion env (Enemy.x e) (Enemy.y e)
                  (if decide (Enemy.type e = HEAVY) then "#f59e0b"
                   else if decide (Enemy.type e = FAST) then "#10b981" else "#ef4444")
                  20 (if decide (Enemy.type e = HEAVY) then SHOCKWAVE else SPARK) w).
    intros w1 H1. destruct (Qltb _ _).
    + apply Hpu_spawn. repeat still_with St.
    + repeat still_with St.
Qed.

Lemma still_bulletHitsEnemy env i b bi s :
  scan_ok s -> scan_ok (bulletHitsEnemy env i b bi s).
Proof.
  intros Hs. unfold bulletHitsEnemy. cbv zeta.
  destruct (near _ _ _); [|exact Hs]. destruct Hs as (H & He).
  assert (He' : Qe (Enemy.set_hp
                      (Enemy.hp (cur s)
                       - Bullet.power b * Upgrades.bulletPower (upgrades (world s)))
                      (cur s)))
    by (revert He; apply Hen_sheet; reflexivity).
  revert He'.
  generalize (Enemy.set_hp
                (Enemy.hp (cur s)
                 - Bullet.power b * Upgrades.bulletPower (upgrades (world s)))
                (cur s)).
  intros e' He'.
  destruct (Qle_bool _ _); split; cbn [world cur]; try exact He'.
  - match goal with |- context [killEffects ?a ?b ?c] =>
      assert (H1 : P (killEffects a b c));
        [|revert H1; generalize (killEffects a b c)]
    end.
    { apply still_killEffects.
      apply (Hkill e' (set_bullets (delete bi (bullets (world s))) (world s)) He').
      repeat still_with St. }
    intros w1 H1. apply (Hen_del i) in H1. revert H1.
    generalize (set_enemies (delete i (enemies w1)) w1). intros w2 H2.
    assert (H3 : P (if enemiesKilled w2 =? 1
                    then unlockAchievement "first_blood" w2 else w2))
      by (destruct (_ =? 1); [apply (still_unlock _ St)|]; exact H2).
    revert H3.
    generalize (if enemiesKilled w2 =? 1
                then unlockAchievement "first_blood" w2 else w2).
    intros w3 H3. destruct (_ =? 50); [apply (still_unlock _ St)|]; exact H3.
  - repeat still_with St.
Qed.

Lemma still_countEscape w : P w -> P (countEscape w).
Proof.
  intros H. unfold countEscape. destruct (isGuardianMode w); [|exact H]. cbv zeta.
  apply (st_escapedEnemies _ St). destruct (40 <=? _); repeat still_with St.
Qed.

Lemma still_enemyEscape i s : scan_ok s -> scan_ok (enemyEscape i s).
Proof.
  intros Hs. unfold enemyEscape. cbv zeta. destruct (Qltb _ _); [|exact Hs].
  destruct Hs as (H & He). split; cbn [world cur]; [|exact He].
  apply still_countEscape, Hen_del, H.
Qed.

Lemma still_stepEnemy env lvl e i w :
  enemies w !! i = Some e -> P w -> P (stepEnemy env lvl e i w).
Proof.
  intros Hi H. unfold stepEnemy.
  pose proof (Hen_get i e w H Hi) as He.
  destruct (still_moveEnemy env e w H) as (H1 & E1).
  destruct (moveEnemy env e w) as [e1 w1]. cbn [fst snd] in H1, E1.
  destruct (still_enemyShoots env lvl e1 w1 H1) as (H2 & E2).
  destruct (enemyShoots env lvl e1 w1) as [e2 w2]. cbn [fst snd] in H2, E2.
  cbv zeta.
  assert (Hs : scan_ok (mkScan e2 true w2)).
  { split; [exact H2|]. cbn [cur]. revert He. apply Hen_sheet. congruence. }
  apply (still_enemyContact env i) in Hs.
  apply (forEach_ind (fun s => bullets (world s)) (bulletHitsEnemy env i) scan_ok
           (fun b k s _ => still_bulletHitsEnemy env i b k s)) in Hs.
  apply (still_enemyEscape i) in Hs.
  revert Hs.
  generalize (enemyEscape i
                (forEach (fun s => bullets (world s)) (bulletHitsEnemy env i)
                   (enemyContact env i (mkScan e2 true w2)))).
  intros s (Hw & Hc). destruct (held s); [apply Hen_put; assumption|exact Hw].
Qed.

Lemma still_tickPowerUpSpawner env w : P w -> P (tickPowerUpSpawner env w).
Proof.
  intros H. unfold tickPowerUpSpawner. cbv zeta. destruct (600 <? _).
  - apply (st_powerUpSpawnTimer _ St), Hpu_spawn. repeat still_with St.
  - repeat still_with St.
Qed.

Lemma still_bulletHitsPowerUp i p b bi w :
  Qp p -> P w -> P (bulletHitsPowerUp i p b bi w).
Proof.
  intros Hp H. unfold bulletHitsPowerUp. destruct (near _ _ _); [|exact H]. cbv zeta.
  apply Hpu_del, Hcollect; [exact Hp|]. repeat still_with St.
Qed.

Lemma still_stepPowerUp p i w :
  powerUps w !! i = Some p -> P w -> P (stepPowerUp p i w).
Proof.
  intros Hi H. unfold stepPowerUp. cbv zeta.
  pose proof (Hpu_y (PowerUp.y p + 2) p (Hpu_get i p w H Hi)) as Hp.
  revert Hp. generalize (PowerUp.set_y (PowerUp.y p + 2) p). intros p' Hp.
  assert (H1 : P (forEach bullets (bulletHitsPowerUp i p')
                    (set_powerUps (<[i := p']> (powerUps w)) w))).
  { apply forEach_ind.
    - intros b k s _. apply still_bulletHitsPowerUp, Hp.
    - apply Hpu_put; assumption. }
  destruct (Qltb _ _); [apply Hpu_del|]; exact H1.
Qed.

Lemma still_tickLevelUp lvl sc w : P w -> P (tickLevelUp lvl sc w).
Proof.
  intros H. unfold tickLevelUp. destruct (_ <? _); [|exact H]. cbv zeta.
  apply (st_levelUpPending _ St), (st_enemyBullets _ St), Hen_clear, (st_level _ St).
  destruct (_ && _); [apply (still_unlock _ St)|]; exact H.
Qed.

Lemma still_tickSurvivor env w : P w -> P (tickSurvivor env w).
Proof.
  intros H. unfold tickSurvivor. destruct (_ <? _); [apply (still_unlock _ St)|]; exact H.
Qed.

Lemma still_tickTimers w : P w -> P (tickTimers w).
Proof.
  intros H. unfold tickTimers. cbv zeta. apply (st_frameCount _ St).
  assert (H1 : P (if 0 <? Player.invulnerable (player w)
                  then set_player
                         (Player.set_invulnerable (Player.invulnerable (player w) - 1)
                            (player w)) w
                  else w)).
  { destruct (0 <? _); [|exact H]. apply Hplayer; [apply body_set_invulnerable|exact H]. }
  revert H1.
  generalize (if 0 <? Player.invulnerable (player w)
              then set_player
                     (Player.set_invulnerable (Player.invulnerable (player w) - 1)
                        (player w)) w
              else w).
  intros w1 H1. destruct (0 <? _); repeat still_with St.
Qed.

(** A [Still] predicate that survives the writes listed above survives the
    tick from the shooting step to the level-up check, and the whole tick
    after the movement step. *)
Lemma still_upToLevelUp env lvl sc w : P w -> P (upToLevelUp env lvl sc w).
Proof.
  intros H. unfold upToLevelUp. cbv zeta.
  apply still_tickLevelUp.
  apply forEach_ind; [intros p k s; apply Hparticle|].
  apply forEach_ind; [intros p k s; apply still_stepPowerUp|].
  apply still_tickPowerUpSpawner.
  apply forEach_ind; [intros e k s; apply still_stepEnemy|].
  apply still_tickSpawner.
  apply forEach_ind; [intros b k s _; apply still_stepEnemyBullet|].
  apply forEach_ind; [intros b k s _; apply still_stepBullet|].
  apply still_tickShoot, H.
Qed.

Lemma still_afterPlayer env lvl sc w : P w -> P (afterPlayer env lvl sc w).
Proof.
  intros H. unfold afterPlayer.
  apply still_tickTimers, still_tickSurvivor, still_upToLevelUp, H.
Qed.
End StillTick.

(** ** The player stays in the playfield *)

Lemma body_Still c : Still (fun w => body (player w) = c).
Proof. constructor; intros v w H; exact H. Qed.

Lemma body_afterPlayer env lvl sc w :
  body (player (afterPlayer env lvl sc w)) = body (player w).
Proof.
  apply (still_afterPlayer (fun w' => body (player w') = body (player w))
           (fun _ => True) (fun _ => True) (body_Still _));
    try (intros; exact I); try (intros; assumption).
  - intros p w' E H. change (body p = body (player w)). congruence.
  - intros. apply (still_createExplosion _ (body_Still _) (fun v w' Hw => Hw)). assumption.
  - intros.
    apply (still_stepParticle (fun w' => body (player w') = body (player w))
             (fun v w' Hw => Hw)).
    assumption.
  - apply (idle_spawnEnemy _ (body_Still _)). intros v w' H. exact H.
  - apply (idle_spawnPowerUp _ (body_Still _)). intros v w' H. exact H.
  - intros p w' _. apply (idle_collect _ (body_Still _)).
    + intros q w1 E H. change (body q = body (player w)). congruence.
    + intros v w1 H. exact H.
    + intros v w1 H. exact H.
  - reflexivity.
Qed.

Lemma half_fits (a b : Q) : (a <= b -> a / 2 <= b - a / 2)%Q.
Proof. intros H. unfold Qdiv. change (/ 2)%Q with (1 # 2)%Q. lra. Qed.

Lemma clamp_bounds (lo hi x : Q) :
  (lo <= hi)%Q -> (lo <= Qmax lo (Qmin hi x) <= hi)%Q.
Proof.
  intros H. split; [apply Q.le_max_l|].
  apply Q.max_lub; [exact H|apply Q.le_min_l].
Qed.

(** X10.  Whatever the keys, the position before the tick and what happens in the
    rest of the tick, the tick leaves the player's centre at least half a
    body inside the canvas on every side: only the movement step writes the
    position, and it ends with the clamp. *)
Theorem player_stays_in_the_playfield env w :
  (Player.width (player w) <= CANVAS_WIDTH)%Q ->
  (Player.height (player w) <= CANVAS_HEIGHT)%Q ->
  let p := player (update env w) in
  Player.width p = Player.width (player w)
  /\ Player.height p = Player.height (player w)
  /\ (Player.width p / 2 <= Player.x p <= CANVAS_WIDTH - Player.width p / 2)%Q
  /\ (Player.height p / 2 <= Player.y p <= CANVAS_HEIGHT - Player.height p / 2)%Q.
Proof.
  intros Hw Hh p. subst p. rewrite update_afterPlayer.
  pose proof (body_afterPlayer env (level w) (score w) (tickPlayer w)) as E.
  revert E. generalize (afterPlayer env (level w) (score w) (tickPlayer w)).
  intros w1 E. unfold body in E. injection E as Ex Ey Ew Eh _.
  rewrite Ex, Ey, Ew, Eh. clear w1 Ex Ey Ew Eh.
  assert (Hx : (Player.width (player w) / 2
                <= CANVAS_WIDTH - Player.width (player w) / 2)%Q).
  { apply half_fits, Hw. }
  assert (Hy : (Player.height (player w) / 2
                <= CANVAS_HEIGHT - Player.height (player w) / 2)%Q).
  { apply half_fits, Hh. }
  unfold tickPlayer. cbv zeta.
  split_ifs; cbn [player set_player Player.x Player.y Player.width Player.height
                  Player.set_x Player.set_y];
    (split; [reflexivity|]; split; [reflexivity|];
     split; apply clamp_bounds; assumption).
Qed.

(** The player dragged far outside the canvas by a touch. *)
Definition draggedOut : World :=
  handle (TouchMove 5000 (-3000))
    (handle (ClickStart 0 false) (initial 0 defaultUpgrades)).

Lemma player_stays_in_the_playfield_witness :
  let p := player (update (quietEnv 1000) draggedOut) in
  Player.width p = Player.width (player draggedOut)
  /\ Player.height p = Player.height (player draggedOut)
  /\ (Player.width p / 2 <= Player.x p <= CANVAS_WIDTH - Player.width p / 2)%Q
  /\ (Player.height p / 2 <= Player.y p <= CANVAS_HEIGHT - Player.height p / 2)%Q.
Proof.
  apply (player_stays_in_the_playfield (quietEnv 1000) draggedOut).
  - vm_compute. discriminate.
  - vm_compute. discriminate.
Defined.

(** ** Kills and score *)

Definition worth (e : Enemy.t) : Prop := 100 <= Enemy.score e <= 5000.

Definition tally_ok (w : World) : Prop :=
  100 * enemiesKilled w <= score w <= 5000 * enemiesKilled w
  /\ Forall worth (enemies w).

Lemma tally_Still : Still tally_ok.
Proof. constructor; intros v w H; exact H. Qed.

Lemma rollEnemy_worth lvl r : 100 <= Roll.scoreVal (rollEnemy lvl r) <= 5000.
Proof. unfold rollEnemy. cbv zeta. split_ifs; cbn [Roll.scoreVal]; lia. Qed.

Lemma tally_spawnEnemy env lvl w : tally_ok w -> tally_ok (spawnEnemy env lvl w).
Proof.
  intros (Hs & He). unfold spawnEnemy. destruct (bossActive w); [split; assumption|].
  destruct (_ && _).
  - split; [exact Hs|]. cbn [enemies set_enemies set_bossActive].
    apply Forall_app. split; [exact He|]. constructor; [|constructor].
    unfold worth. cbn [Enemy.score]. lia.
  - cbn [random randomRange]. split; [exact Hs|].
    cbn [enemies set_enemies set_draws].
    apply Forall_app. split; [exact He|]. constructor; [|constructor].
    unfold worth. cbn [Enemy.score]. apply rollEnemy_worth.
Qed.

Lemma tally_afterPlayer env lvl sc w : tally_ok w -> tally_ok (afterPlayer env lvl sc w).
Proof.
  apply (still_afterPlayer tally_ok worth (fun _ => True) tally_Still);
    try (intros; exact I).
  - intros p w' _ H. exact H.
  - intros. apply (still_createExplosion _ tally_Still (fun v w' Hw => Hw)). assumption.
  - intros. apply (still_stepParticle tally_ok (fun v w' Hw => Hw)). assumption.
  - intros i e w' (_ & He) Hi. exact (proj1 (Forall_lookup _ _) He i e Hi).
  - intros e e' E. unfold worth.
    assert (Es : Enemy.score e' = Enemy.score e) by (unfold sheet in E; congruence).
    rewrite Es. tauto.
  - intros i w' (Hs & He). split; [exact Hs|]. apply Forall_delete, He.
  - intros i e w' Hw (Hs & He). split; [exact Hs|]. apply Forall_insert; assumption.
  - intros w' (Hs & _). split; [exact Hs|constructor].
  - apply tally_spawnEnemy.
  - intros e w' He (Hs & Hf). split; [|exact Hf].
    unfold worth in He. cbn [enemiesKilled score set_enemiesKilled set_score]. lia.
  - intros i w' H. exact H.
  - intros i p w' _ H. exact H.
  - apply (idle_spawnPowerUp _ tally_Still). intros v w' H. exact H.
  - intros p w' _. apply (idle_collect _ tally_Still); intros; assumption.
Qed.

Lemma tally_update env w : tally_ok w -> tally_ok (update env w).
Proof.
  intros H. rewrite update_afterPlayer. apply tally_afterPlayer. exact H.
Qed.

Lemma tally_startGame clickNow guardian w :
  tally_ok w -> tally_ok (startGame clickNow guardian w).
Proof.
  intros H. unfold startGame. destruct (_ && _); [exact H|].
  split; [|constructor]. destruct guardian; simpl; lia.
Qed.

Lemma tally_handle ev w : tally_ok w -> tally_ok (handle ev w).
Proof.
  intros H. destruct ev; cbn [handle];
    try (cbn [randomRange random];
         apply (still_createExplosion _ tally_Still (fun v w' Hw => Hw)); exact H);
    try exact H.
  - destruct (decide _); [apply tally_update|]; exact H.
  - destruct (decide _); [apply tally_startGame|]; exact H.
  - destruct (decide _); [apply tally_startGame|]; exact H.
  - destruct (hudShown w); [|exact H]. unfold togglePause.
    destruct (gameState w); exact H.
  - destruct (decide _); exact H.
  - destruct (_ || _); exact H.
  - destruct (decide _); exact H.
  - destruct (decide _); [|exact H]. unfold buy. cbv zeta.
    destruct item; destruct (_ || _); exact H.
  - cbv zeta. destruct (decide _); [|exact H]. unfold togglePause.
    cbn [gameState set_keys]. destruct (gameState w); exact H.
  - destruct (decide _); exact H.
Qed.

(** X11.  Every kill is worth between 100 and 5000 points and nothing else scores:
    in every reachable state the score is between 100 and 5000 times the
    number of kills of the session. *)
Theorem score_within_kills coins up w :
  reachable coins up w ->
  100 * enemiesKilled w <= score w <= 5000 * enemiesKilled w.
Proof.
  intros Hr. assert (H : tally_ok w); [|exact (proj1 H)].
  induction Hr as [|ev w Hr IH].
  - split; [simpl; lia|constructor].
  - apply tally_handle, IH.
Qed.

(** The events of a session, in order. *)
Definition run (evs : list Event) (w : World) : World :=
  fold_left (fun w ev => handle ev w) evs w.

Lemma reachable_run coins up evs w :
  reachable coins up w -> reachable coins up (run evs w).
Proof.
  revert w. induction evs as [|ev evs IH]; intros w H; [exact H|].
  apply IH, reach_handle, H.
Qed.

(** A session of 100 animation frames, 16 ms apart, with the fire key down. *)
Definition firstKill : World :=
  run ([ClickStart 0 false; KeyDown "Space"]
         ++ map (fun k => Frame (quietEnv (16 * Z.of_nat k))) (seq 1 100))
    (initial 0 defaultUpgrades).

Lemma score_within_kills_witness :
  100 * enemiesKilled firstKill <= score firstKill <= 5000 * enemiesKilled firstKill.
Proof.
  apply (score_within_kills 0 defaultUpgrades firstKill).
  apply reachable_run, reach_initial.
Defined.

(** ** Coins *)

Definition coin_ok (p : PowerUp.t) : Prop :=
  PowerUp.value p = 0 \/ PowerUp.value p = 10.

(** [c] is the part of the total that was there before the session's
    pick-ups, [s0] the session counter at the start of the tick. *)
Definition purse (c s0 : Z) (w : World) : Prop :=
  totalCoins w - sessionCoins w = c
  /\ (exists k, 0 <= k /\ sessionCoins w = s0 + 10 * k)
  /\ Forall coin_ok (powerUps w).

Lemma purse_Still c s0 : Still (purse c s0).
Proof. constructor; intros v w H; exact H. Qed.

Lemma purse_spawnPowerUp c s0 env x y forceType w :
  purse c s0 w -> purse c s0 (spawnPowerUp env x y forceType w).
Proof.
  intros (Hc & Hk & Hf). unfold spawnPowerUp.
  destruct forceType as [t|], x as [x|]; cbn [random randomRange];
    (split; [exact Hc|]; split; [exact Hk|];
     cbn [powerUps set_powerUps set_draws];
     apply Forall_app; split; [exact Hf|]; constructor; [|constructor];
     unfold coin_ok; cbn [PowerUp.value]; destruct (decide _); auto).
Qed.

Lemma purse_collect c s0 p w : coin_ok p -> purse c s0 w -> purse c s0 (collect p w).
Proof.
  intros Hp H. unfold collect. destruct (PowerUp.type p); cbv zeta.
  - destruct (_ =? 3); [|exact H]. apply (still_unlock _ (purse_Still c s0)). exact H.
  - destruct (_ =? 3); [|exact H]. apply (still_unlock _ (purse_Still c s0)). exact H.
  - assert (Hv : (if PowerUp.value p =? 0 then 10 else PowerUp.value p) = 10)
      by (destruct Hp as [-> | ->]; reflexivity).
    rewrite Hv. destruct H as (Hc & (k & Hk & Hs) & Hf).
    assert (H1 : purse c s0
                   (set_totalCoins (totalCoins w + 10)
                      (set_sessionCoins (sessionCoins w + 10) w))).
    { split; [|split; [|exact Hf]].
      - cbn [totalCoins sessionCoins set_totalCoins set_sessionCoins]. lia.
      - exists (k + 1).
        cbn [totalCoins sessionCoins set_totalCoins set_sessionCoins]. lia. }
    destruct (1000 <=? _); [|exact H1].
    destruct (unlockAchievement_shape "rich_man"
                (set_sessionCoins (sessionCoins w + 10) w)) as (l & o & ->).
    exact H1.
Qed.

Lemma purse_afterPlayer c s0 env lvl sc w :
  purse c s0 w -> purse c s0 (afterPlayer env lvl sc w).
Proof.
  apply (still_afterPlayer (purse c s0) (fun _ => True) coin_ok (purse_Still c s0));
    try (intros; exact I).
  - intros p w' _ H. exact H.
  - intros. apply (still_createExplosion _ (purse_Still c s0) (fun v w' Hw => Hw)).
    assumption.
  - intros. apply (still_stepParticle (purse c s0) (fun v w' Hw => Hw)). assumption.
  - intros i w' H. exact H.
  - intros i e w' _ H. exact H.
  - intros w' H. exact H.
  - apply (idle_spawnEnemy _ (purse_Still c s0)). intros v w' H. exact H.
  - intros e w' _ H. exact H.
  - intros i p w' (_ & _ & Hf) Hi. exact (proj1 (Forall_lookup _ _) Hf i p Hi).
  - intros y p H. exact H.
  - intros i w' (Hc & Hk & Hf). split; [exact Hc|]. split; [exact Hk|].
    apply Forall_delete, Hf.
  - intros i p w' Hp (Hc & Hk & Hf). split; [exact Hc|]. split; [exact Hk|].
    apply Forall_insert; assumption.
  - intros env' x y forceType w'. apply purse_spawnPowerUp.
  - intros p w'. apply purse_collect.
Qed.

Lemma purse_update c s0 env w : purse c s0 w -> purse c s0 (update env w).
Proof.
  intros H. rewrite update_afterPlayer. apply purse_afterPlayer. exact H.
Qed.

(** The session counter and the power-ups on screen in a reachable state. *)
Definition stock_ok (w : World) : Prop :=
  (exists k, 0 <= k /\ sessionCoins w = 10 * k) /\ Forall coin_ok (powerUps w).

Lemma stock_Still : Still stock_ok.
Proof. constructor; intros v w H; exact H. Qed.

Lemma stock_update env w : stock_ok w -> stock_ok (update env w).
Proof.
  intros ((k & Hk & Hs) & Hf).
  destruct (purse_update (totalCoins w - sessionCoins w) (sessionCoins w) env w)
    as (_ & (k' & Hk' & Hs') & Hf').
  { split; [reflexivity|]. split; [exists 0; lia|exact Hf]. }
  split; [|exact Hf']. exists (k + k'). lia.
Qed.

Lemma stock_startGame clickNow guardian w :
  stock_ok w -> stock_ok (startGame clickNow guardian w).
Proof.
  intros H. unfold startGame. destruct (_ && _); [exact H|].
  split; [|constructor]. exists 0. destruct guardian; simpl; lia.
Qed.

Lemma stock_handle ev w : stock_ok w -> stock_ok (handle ev w).
Proof.
  intros H. destruct ev; cbn [handle];
    try (cbn [randomRange random];
         apply (still_createExplosion _ stock_Still (fun v w' Hw => Hw)); exact H);
    try exact H.
  - destruct (decide _); [apply stock_update|]; exact H.
  - destruct (decide _); [apply stock_startGame|]; exact H.
  - destruct (decide _); [apply stock_startGame|]; exact H.
  - destruct (hudShown w); [|exact H]. unfold togglePause.
    destruct (gameState w); exact H.
  - destruct (decide _); exact H.
  - destruct (_ || _); exact H.
  - destruct (decide _); exact H.
  - destruct (decide _); [|exact H]. unfold buy. cbv zeta.
    destruct item; destruct (_ || _); exact H.
  - cbv zeta. destruct (decide _); [|exact H]. unfold togglePause.
    cbn [gameState set_keys]. destruct (gameState w); exact H.
  - destruct (decide _); exact H.
Qed.

(** X12.  Only coin pick-ups pay during a tick, ten coins each, and each is added
    to the session counter and to the total alike: a tick raises both by the
    same multiple of ten, and the session counter of a reachable state is a
    multiple of ten. *)
Theorem coins_are_banked coins up w env :
  reachable coins up w ->
  (exists k, 0 <= k /\ sessionCoins w = 10 * k)
  /\ (exists k, 0 <= k /\ sessionCoins (update env w) = sessionCoins w + 10 * k)
  /\ totalCoins (update env w) - totalCoins w
     = sessionCoins (update env w) - sessionCoins w.
Proof.
  intros Hr. assert (H : stock_ok w).
  { induction Hr as [|ev w Hr IH].
    - split; [exists 0; split; [lia|reflexivity]|constructor].
    - apply stock_handle, IH. }
  destruct H as (Hk & Hf). split; [exact Hk|].
  destruct (purse_update (totalCoins w - sessionCoins w) (sessionCoins w) env w)
    as (Hc & Hk' & _).
  { split; [reflexivity|]. split; [exists 0; lia|exact Hf]. }
  split; [exact Hk'|lia].
Qed.

(** Every random draw gives 0.3: enemies are BASIC, spawn at x = 256 and
    drop a coin when destroyed. *)
Definition luckyEnv (t : Z) : Env := mkEnv (fun _ => 0.3%Q) t t t.

(** The player is dragged under the spawn column and fires for [n] frames. *)
Definition coinRun (n : nat) : World :=
  run ([ClickStart 0 false; TouchMove 256 570]
         ++ map (fun k => Frame (luckyEnv (16 * Z.of_nat k))) (seq 1 n))
    (initial 0 defaultUpgrades).

(** The tick after 105 frames picks up a coin. *)
Lemma coin_picked_up :
  let w := coinRun 105 in
  let w' := update (luckyEnv 2000) w in
  (sessionCoins w, totalCoins w, sessionCoins w', totalCoins w') = (10, 10, 20, 20).
Proof. vm_compute. reflexivity. Qed.

Lemma coins_are_banked_witness :
  (exists k, 0 <= k /\ sessionCoins (coinRun 105) = 10 * k)
  /\ (exists k, 0 <= k
        /\ sessionCoins (update (luckyEnv 2000) (coinRun 105))
           = sessionCoins (coinRun 105) + 10 * k)
  /\ totalCoins (update (luckyEnv 2000) (coinRun 105)) - totalCoins (coinRun 105)
     = sessionCoins (update (luckyEnv 2000) (coinRun 105)) - sessionCoins (coinRun 105).
Proof.
  apply (coins_are_banked 0 defaultUpgrades (coinRun 105) (luckyEnv 2000)).
  apply reachable_run, reach_initial.
Defined.

(** ** Particles *)

Definition alive (p : Particle.t) : Prop :=
  (0 < Particle.life p)%Q /\ (Particle.life p <= 1)%Q.

Definition sparks_ok (w : World) : Prop := Forall alive (particles w).

Lemma sparks_Still : Still sparks_ok.
Proof. constructor; intros v w H; exact H. Qed.

Lemma sparks_pushSparks env x y color count w :
  sparks_ok w -> sparks_ok (pushSparks env x y color count w).
Proof.
  revert w. induction count as [|n IH]; intros w H; [exact H|].
  cbn [pushSparks randomRange random]. apply IH. unfold sparks_ok.
  cbn [particles set_particles set_draws].
  apply Forall_app. split; [exact H|]. constructor; [|constructor].
  unfold alive. cbn [Particle.life]. lra.
Qed.

Lemma sparks_createExplosion env x y color count type w :
  sparks_ok w -> sparks_ok (createExplosion env x y color count type w).
Proof.
  intros H. unfold createExplosion. apply sparks_pushSparks.
  destruct type; try exact H. unfold sparks_ok. cbn [particles set_particles].
  apply Forall_app. split; [exact H|]. constructor; [|constructor].
  unfold alive. cbn [Particle.life]. lra.
Qed.

Lemma delete_insert_same {A} (l : list A) (i : nat) (x : A) :
  delete i (<[i := x]> l) = delete i l.
Proof.
  revert i. induction l as [|a l IH]; intros [|i]; simpl; try reflexivity.
  f_equal. apply IH.
Qed.

Lemma sparks_stepParticle p i w :
  particles w !! i = Some p -> sparks_ok w -> sparks_ok (stepParticle p i w).
Proof.
  intros Hi H. unfold stepParticle. cbv zeta.
  pose proof (proj1 (Forall_lookup _ _) H i p Hi) as (Hp0 & Hp1).
  destruct (Qle_bool _ _) eqn:E; unfold sparks_ok; cbn [particles set_particles].
  - rewrite delete_insert_same. apply Forall_delete, H.
  - apply Forall_insert; [exact H|]. apply Qle_bool_gt in E. split; [exact E|].
    destruct (decide _); cbn [Particle.life Particle.set_life Particle.set_size
                             Particle.set_x Particle.set_y]; lra.
Qed.

Lemma sparks_update env w : sparks_ok w -> sparks_ok (update env w).
Proof.
  intros H. rewrite update_afterPlayer.
  apply (still_afterPlayer sparks_ok (fun _ => True) (fun _ => True) sparks_Still);
    try (intros; exact I); try (intros; assumption).
  - apply sparks_createExplosion.
  - apply sparks_stepParticle.
  - apply (idle_spawnEnemy _ sparks_Still). intros v w' Hw. exact Hw.
  - apply (idle_spawnPowerUp _ sparks_Still). intros v w' Hw. exact Hw.
  - intros p w' _. apply (idle_collect _ sparks_Still); intros; assumption.
Qed.

(** X13.  Every particle of a reachable state has a life in (0, 1]: explosions
    create particles with life 1, and the particle pass removes a particle in
    the visit that brings its life to 0 or below.  The visits skipped after a
    removal leave their particle as it was. *)
Theorem particles_alive coins up w :
  reachable coins up w ->
  Forall (fun p => (0 < Particle.life p)%Q /\ (Particle.life p <= 1)%Q) (particles w).
Proof.
  intros Hr. change (sparks_ok w). induction Hr as [|ev w Hr IH]; [constructor|].
  destruct ev; cbn [handle];
    try (cbn [randomRange random]; apply sparks_createExplosion; exact IH);
    try exact IH.
  - destruct (decide _); [apply sparks_update|]; exact IH.
  - destruct (decide _); [|exact IH]. unfold startGame.
    destruct (_ && _); [exact IH|constructor].
  - destruct (decide _); [|exact IH]. unfold startGame.
    destruct (_ && _); [exact IH|constructor].
  - destruct (hudShown w); [|exact IH]. unfold togglePause.
    destruct (gameState w); exact IH.
  - destruct (decide _); exact IH.
  - destruct (_ || _); exact IH.
  - destruct (decide _); exact IH.
  - destruct (decide _); [|exact IH]. unfold buy. cbv zeta.
    destruct item; destruct (_ || _); exact IH.
  - cbv zeta. destruct (decide _); [|exact IH]. unfold togglePause.
    cbn [gameState set_keys]. destruct (gameState w); exact IH.
  - destruct (decide _); exact IH.
Qed.

Lemma particles_alive_witness :
  Forall (fun p => (0 < Particle.life p)%Q /\ (Particle.life p <= 1)%Q)
    (particles firstKill).
Proof.
  apply (particles_alive 0 defaultUpgrades firstKill).
  apply reachable_run, reach_initial.
Defined.

(** ** Explosions *)

Definition sparkOf (x y : Q) (color : string) (p : Particle.t) : Prop :=
  Particle.x p = x /\ Particle.y p = y /\ Particle.color p = color
  /\ Particle.life p = 1%Q.

Lemma pushSparks_counts env x y color count w :
  exists new,
    particles (pushSparks env x y color count w) = particles w ++ new
    /\ length new = count
    /\ Forall (fun p => sparkOf x y color p /\ Particle.type p = SPARK) new
    /\ draws (pushSparks env x y color count w) = (draws w + 3 * count)%nat.
Proof.
  revert w. induction count as [|n IH]; intros w.
  - exists []. simpl. rewrite app_nil_r. repeat split; [constructor|lia].
  - cbn [pushSparks randomRange random].
    match goal with |- context [pushSparks env x y color n ?v] =>
      destruct (IH v) as (new & Hp & Hl & Hf & Hd);
      revert Hp Hd; generalize (pushSparks env x y color n v); intros w1 Hp Hd
    end.
    cbn [particles draws set_particles set_draws] in Hp, Hd.
    eexists (_ :: new). rewrite Hp, Hd, <- app_assoc. split; [reflexivity|].
    split; [simpl; lia|]. split; [|lia].
    constructor; [|exact Hf]. repeat split.
Qed.

(** X14.  [createExplosion] appends to the particles and draws three random numbers
    a spark: it adds [count] sparks at the given point, preceded by one
    shock wave when the type is [SHOCKWAVE] and by nothing at once when it is
    [BOSS_EXPLOSION], whose five shock waves come later from timers. *)
Theorem createExplosion_counts env x y color count type w :
  exists new,
    particles (createExplosion env x y color count type w) = particles w ++ new
    /\ length new = (count + if decide (type = SHOCKWAVE) then 1 else 0)%nat
    /\ Forall (sparkOf x y color) new
    /\ length (filter (fun p => Particle.type p = SHOCKWAVE) new)
       = (if decide (type = SHOCKWAVE) then 1 else 0)%nat
    /\ draws (createExplosion env x y color count type w) = (draws w + 3 * count)%nat.
Proof.
  assert (Hno : forall new,
             Forall (fun p => sparkOf x y color p /\ Particle.type p = SPARK) new ->
             Forall (sparkOf x y color) new
             /\ length (filter (fun p => Particle.type p = SHOCKWAVE) new) = 0%nat).
  { induction 1 as [|p l (Hs & Ht) _ (IH1 & IH2)]; [split; [constructor|reflexivity]|].
    split; [constructor; assumption|].
    rewrite filter_cons_False by (rewrite Ht; discriminate). exact IH2. }
  unfold createExplosion. cbv zeta. destruct type.
  - destruct (pushSparks_counts env x y color count w) as (new & Hp & Hl & Hf & Hd).
    destruct (Hno new Hf) as (H1 & H2).
    exists new. rewrite decide_False by discriminate.
    repeat split; try assumption. lia.
  - match goal with |- context [pushSparks env x y color count ?v] =>
      destruct (pushSparks_counts env x y color count v) as (new & Hp & Hl & Hf & Hd);
      revert Hp Hd; generalize (pushSparks env x y color count v); intros w1 Hp Hd
    end.
    cbn [particles draws set_particles] in Hp, Hd.
    destruct (Hno new Hf) as (H1 & H2).
    eexists (_ :: new). rewrite Hp, Hd, <- app_assoc. split; [reflexivity|].
    rewrite decide_True by reflexivity.
    split; [simpl; lia|]. split; [constructor; [repeat split|exact H1]|].
    split; [|reflexivity].
    rewrite filter_cons_True by reflexivity. simpl. rewrite H2. reflexivity.
  - destruct (pushSparks_counts env x y color count w) as (new & Hp & Hl & Hf & Hd).
    destruct (Hno new Hf) as (H1 & H2).
    exists new. rewrite decide_False by discriminate.
    repeat split; try assumption. lia.
Qed.

(** ** Where things appear *)

(** [Math.random()] returns a number in [0, 1). *)
Definition fair (env : Env) : Prop :=
  forall n, (0 <= rnd env n)%Q /\ (rnd env n < 1)%Q.

(** X15.  While no boss is flagged, [spawnEnemy] adds one enemy: just above the top
    edge, whole, and with its centre at least its width from either side.  A
    power-up that is given no place appears just above the top edge, at least
    30 from either side, and is worth 10 exactly when it is a coin. *)
Theorem spawns_in_bounds env lvl w :
  fair env ->
  (bossActive w = false ->
   exists e, enemies (spawnEnemy env lvl w) = enemies w ++ [e]
     /\ (Enemy.width e <= Enemy.x e)%Q /\ (Enemy.x e <= CANVAS_WIDTH - Enemy.width e)%Q
     /\ Enemy.y e = (- Enemy.height e)%Q /\ Enemy.hp e = Enemy.maxHp e)
  /\ (forall forceType,
      exists p, powerUps (spawnPowerUp env None None forceType w) = powerUps w ++ [p]
        /\ (30 <= PowerUp.x p)%Q /\ (PowerUp.x p <= CANVAS_WIDTH - 30)%Q
        /\ PowerUp.y p = (-30)%Q
        /\ (PowerUp.value p = if decide (PowerUp.type p = COIN) then 10 else 0)).
Proof.
  intros Hf. split.
  - intros Hb. unfold spawnEnemy. rewrite Hb. destruct (_ && _).
    + eexists. split; [reflexivity|].
      cbn [Enemy.width Enemy.x Enemy.y Enemy.height Enemy.hp Enemy.maxHp].
      repeat split; vm_compute; discriminate.
    + cbn [random randomRange]. eexists. split; [reflexivity|].
      cbn [Enemy.width Enemy.x Enemy.y Enemy.height Enemy.hp Enemy.maxHp draws set_draws].
      destruct (Hf (S (S (draws w)))) as (H0 & H1).
      revert H0 H1. generalize (rnd env (S (S (draws w)))). intros r H0 H1.
      unfold rollEnemy, CANVAS_WIDTH. cbv zeta.
      split_ifs; cbn [Roll.width Roll.height]; repeat split; lra.
  - intros forceType. unfold spawnPowerUp.
    destruct forceType as [t|]; cbn [random randomRange].
    + eexists. split; [reflexivity|].
      cbn [PowerUp.x PowerUp.y PowerUp.value PowerUp.type draws set_draws].
      destruct (Hf (draws w)) as (H0 & H1). unfold CANVAS_WIDTH.
      repeat split; lra.
    + eexists. split; [reflexivity|].
      cbn [PowerUp.x PowerUp.y PowerUp.value PowerUp.type draws set_draws].
      destruct (Hf (S (draws w))) as (H0 & H1). unfold CANVAS_WIDTH.
      repeat split; lra.
Qed.

Lemma spawns_in_bounds_witness :
  exists e, enemies (spawnEnemy (quietEnv 1000) 1 freshGame) = enemies freshGame ++ [e]
    /\ (Enemy.width e <= Enemy.x e)%Q /\ (Enemy.x e <= CANVAS_WIDTH - Enemy.width e)%Q
    /\ Enemy.y e = (- Enemy.height e)%Q /\ Enemy.hp e = Enemy.maxHp e.
Proof.
  apply (spawns_in_bounds (quietEnv 1000) 1 freshGame).
  - intros n. simpl. lra.
  - reflexivity.
Defined.

(** ** The upgrades survive a reload *)



(** ** The reward of a guardian session *)

(** X17.  The reward button pays five coins a kill and one coin for every full
    second of the session, and leaves the result screen: with the clock not
    behind the start of the session the total does not go down, and a second
    click pays nothing. *)
Theorem reward_is_paid_once clickNow again w :
  gameState w = GUARDIAN_RESULT -> 0 <= enemiesKilled w -> startTime w <= clickNow ->
  let w' := handle (ClickClaim clickNow) w in
  gameState w' = START
  /\ totalCoins w' = totalCoins w + 5 * enemiesKilled w + (clickNow - startTime w) / 1000
  /\ totalCoins w <= totalCoins w'
  /\ handle (ClickClaim again) w' = w'.
Proof.
  intros G Hk Ht. cbn [handle]. destruct (decide _); [|contradiction].
  unfold claimReward. cbv zeta.
  cbn [gameState totalCoins set_gameState set_totalCoins].
  assert (Hd : 0 <= (clickNow - startTime w) / 1000)
    by (apply Z.div_pos; lia).
  split; [reflexivity|]. split; [lia|]. split; [lia|reflexivity].
Qed.

(** A guardian session of 12 kills, over after 90.5 seconds. *)
Definition resultScene : World :=
  set_gameState GUARDIAN_RESULT
    (set_escapedEnemies 40 (set_enemiesKilled 12 guardianGame)).

Lemma reward_is_paid_once_witness :
  let w' := handle (ClickClaim 90500) resultScene in
  gameState w' = START
  /\ totalCoins w' = totalCoins resultScene + 5 * enemiesKilled resultScene
                     + (90500 - startTime resultScene) / 1000
  /\ totalCoins resultScene <= totalCoins w'
  /\ handle (ClickClaim 95000) w' = w'.
Proof.
  apply (reward_is_paid_once 90500 95000 resultScene).
  - reflexivity.
  - vm_compute. discriminate.
  - vm_compute. discriminate.
Defined.

(** ** After the game is over *)

Lemma pushSparks_shape env x y color count w :
  exists ps d, pushSparks env x y color count w = set_draws d (set_particles ps w).
Proof.
  revert w. induction count as [|n IH]; intros w.
  - exists (particles w), (draws w). destruct w; reflexivity.
  - cbn [pushSparks randomRange random].
    match goal with |- context [pushSparks env x y color n ?v] =>
      destruct (IH v) as (ps & d & ->) end.
    exists ps, d. reflexivity.
Qed.

Lemma createExplosion_shape env x y color count type w :
  exists ps d,
    createExplosion env x y color count type w = set_draws d (set_particles ps w).
Proof.
  unfold createExplosion. cbv zeta.
  match goal with |- context [pushSparks env x y color count ?v] =>
    destruct (pushSparks_shape env x y color count v) as (ps & d & ->) end.
  exists ps, d. destruct type; reflexivity.
Qed.

(** The session is over and the coins are [c]. *)
Definition grounded (c : Z) (w : World) : Prop :=
  gameState w = GAMEOVER /\ totalCoins w = c.

Lemma grounded_handle c ev w : c < 450 -> grounded c w -> grounded c (handle ev w).
Proof.
  intros Hc (G & C). destruct ev; cbn [handle];
    try (cbn [randomRange random];
         match goal with |- context [createExplosion ?e ?a ?b ?k ?n ?t ?v] =>
           destruct (createExplosion_shape e a b k n t v) as (ps & d & ->) end;
         split; assumption);
    try (split; assumption).
  - destruct (decide _) as [E|_]; [congruence|split; assumption].
  - destruct (decide _) as [E|_]; [congruence|split; assumption].
  - destruct (decide _); [|split; assumption]. unfold startGame. cbn [andb].
    assert (E : (totalCoins w <? 450) = true) by (apply Z.ltb_lt; lia).
    rewrite E. split; assumption.
  - destruct (hudShown w); [|split; assumption]. unfold togglePause. rewrite G.
    split; assumption.
  - destruct (decide _) as [E|_]; [congruence|split; assumption].
  - rewrite G. cbn. split; assumption.
  - destruct (decide _) as [E|_]; [congruence|split; assumption].
  - destruct (decide _) as [E|_]; [congruence|split; assumption].
  - cbv zeta. destruct (decide _); [|split; assumption]. unfold togglePause.
    cbn [gameState set_keys]. rewrite G. split; assumption.
  - destruct (decide _) as [E|_]; [congruence|split; assumption].
Qed.

Lemma grounded_run c evs w : c < 450 -> grounded c w -> grounded c (run evs w).
Proof.
  intros Hc. revert w. induction evs as [|ev evs IH]; intros w H; [exact H|].
  apply (IH (handle ev w)), grounded_handle; assumption.
Qed.

(** X18.  The game-over screen has one button, the restart, and a restart is
    a guardian start: with fewer than 450 coins nothing that can happen to
    the component (a frame, a click, a key, a touch, a timer) leaves
    [GAMEOVER] or changes the coins.  The session cannot be followed by
    another. *)
Theorem game_over_is_final_below_450 evs w :
  gameState w = GAMEOVER -> totalCoins w < 450 ->
  gameState (run evs w) = GAMEOVER /\ totalCoins (run evs w) = totalCoins w.
Proof.
  intros G C. apply (grounded_run (totalCoins w) evs w C).
  split; [exact G|reflexivity].
Qed.

(** A first session from an empty store: a touch drags the player to the
    top edge, nobody fires, the enemies come down on the player, and within
    300 frames the three lives are gone. *)
Definition crash : World :=
  run ([ClickStart 0 false; TouchMove 400 70; TouchEnd]
         ++ map (fun k => Frame (quietEnv (16 * Z.of_nat k))) (seq 1 300))
    (initial 0 defaultUpgrades).

Definition afterwards : list Event :=
  [ClickRestart 9000; ClickPause; KeyDown "KeyP"; ClickStart 9100 false; ClickHome;
   ClickUpgrades; KeyDown "Space"; Frame (quietEnv 9200); ClickRestart 9300].

Lemma game_over_is_final_below_450_witness :
  gameState (run afterwards crash) = GAMEOVER
  /\ totalCoins (run afterwards crash) = totalCoins crash.
Proof.
  assert (E : let w := crash in gameState w = GAMEOVER /\ totalCoins w = 0)
    by (vm_compute; split; reflexivity).
  cbv zeta in E. destruct E as (Eg & Ec).
  apply (game_over_is_final_below_450 afterwards crash).
  - exact Eg.
  - rewrite Ec. reflexivity.
Defined.

(** ** Enemies keep the numbers of their type *)









(** ** The survivor achievement *)

Definition listed (id : string) (l : list Achievement.t) : Prop :=
  Exists (fun a => Achievement.id a = id) l.

Lemma grows_listed id l l' : grows l l' -> (listed id l <-> listed id l').
Proof.
  unfold listed. induction 1 as [|a a' l l' (Hid & _) _ IH].
  - split; intros H; inversion H.
  - rewrite !Exists_cons, IH, Hid. reflexivity.
Qed.

Lemma flagOf_grows id l l' :
  grows l l' ->
  flagOf (list_find (fun a => Achievement.id a = id) l) = true ->
  flagOf (list_find (fun a => Achievement.id a = id) l') = true.
Proof.
  induction 1 as [|a a' l l' (Hid & Hu) _ IH]; [discriminate|].
  rewrite !list_find_cons, Hid.
  destruct (decide _); [exact Hu|]. rewrite !flagOf_fmap. exact IH.
Qed.

Lemma isUnlocked_unlock id w :
  listed id (achievements w) -> isUnlocked id (unlockAchievement id w) = true.
Proof.
  intros Hl. unfold isUnlocked, unlockAchievement.
  destruct (list_find _ (achievements w)) as [[i a]|] eqn:F.
  - destruct (Achievement.unlocked a) eqn:U.
    + rewrite F. exact U.
    + world_simpl. rewrite (list_find_insert_here id _ i a F). reflexivity.
  - exfalso. apply list_find_None in F.
    unfold listed in Hl. apply Exists_exists in Hl. destruct Hl as (a & Hin & Ha).
    rewrite Forall_forall in F. apply (F a Hin Ha).
Qed.

Lemma startTime_upToLevelUp env lvl sc w :
  startTime (upToLevelUp env lvl sc w) = startTime w.
Proof.
  assert (St : Still (fun w' => startTime w' = startTime w))
    by (constructor; intros v w' H; exact H).
  apply (still_upToLevelUp (fun w' => startTime w' = startTime w)
           (fun _ => True) (fun _ => True) St);
    try (intros; exact I); try (intros; assumption).
  - intros. apply (still_createExplosion _ St (fun v w' Hw => Hw)). assumption.
  - intros.
    apply (still_stepParticle (fun w' => startTime w' = startTime w)
             (fun v w' Hw => Hw)).
    assumption.
  - apply (idle_spawnEnemy _ St). intros v w' H. exact H.
  - apply (idle_spawnPowerUp _ St). intros v w' H. exact H.
  - intros p w' _. apply (idle_collect _ St); intros; assumption.
  - reflexivity.
Qed.

Lemma grows_run evs w : grows (achievements w) (achievements (run evs w)).
Proof.
  revert w. induction evs as [|ev evs IH]; intros w; [apply grows_refl|].
  eapply grows_trans; [apply grows_handle|apply (IH (handle ev w))].
Qed.

(** X20.  A tick whose survivor check comes more than 60 seconds after the
    start of the session unlocks [survivor], in either mode, and whatever
    happens afterwards it stays unlocked. *)
Theorem survivor_after_a_minute coins up w env evs :
  reachable coins up w ->
  60000 < endNow env - startTime w ->
  isUnlocked "survivor" (update env w) = true
  /\ isUnlocked "survivor" (run evs (update env w)) = true.
Proof.
  intros Hr Ht.
  assert (H : isUnlocked "survivor" (update env w) = true).
  { assert (Hl : listed "survivor" (achievements w)).
    { assert (Hg : grows initialAchievements (achievements w)).
      { clear Ht. induction Hr as [|ev w Hr IH]; [apply grows_refl|].
        eapply grows_trans; [exact IH|apply grows_handle]. }
      apply (grows_listed _ _ _ Hg). unfold listed, initialAchievements.
      apply Exists_exists. exists (Achievement.mk "survivor" false).
      split; [|reflexivity]. cbn [map]. set_solver. }
    apply (grows_listed _ _ _ (grows_update env w)) in Hl.
    revert Hl. rewrite update_afterPlayer. unfold afterPlayer.
    pose proof (startTime_upToLevelUp env (level w) (score w) (tickPlayer w)) as Es.
    revert Es. generalize (upToLevelUp env (level w) (score w) (tickPlayer w)).
    intros w1 Es Hl. change (startTime (tickPlayer w)) with (startTime w) in Es.
    unfold tickSurvivor in *. rewrite Es in *.
    assert (E : (60000 <? endNow env - startTime w) = true) by (apply Z.ltb_lt, Ht).
    rewrite E in *.
    assert (Ea : forall v, achievements (tickTimers v) = achievements v).
    { intros v. unfold tickTimers. cbv zeta. split_ifs; reflexivity. }
    unfold isUnlocked in *. rewrite Ea in *.
    apply isUnlocked_unlock.
    apply (grows_listed _ _ _ (grows_unlock "survivor" w1)). exact Hl. }
  split; [exact H|].
  revert H. apply flagOf_grows, grows_run.
Qed.

Lemma survivor_after_a_minute_witness :
  isUnlocked "survivor" (update (quietEnv 61000) demoGame) = true
  /\ isUnlocked "survivor"
       (run [ClickPause; ClickHome; ClickStart 70000 false]
          (update (quietEnv 61000) demoGame)) = true.
Proof.
  apply (survivor_after_a_minute 0 defaultUpgrades demoGame (quietEnv 61000)
           [ClickPause; ClickHome; ClickStart 70000 false]).
  - unfold demoGame. do 2 apply reach_handle. apply reach_initial.
  - vm_compute. reflexivity.
Defined.
